(** * NHS patient/site network analysis: graph construction, community
      filtering, risk scoring and tiering.

    Shallow embedding of [network_analysis/data_prep_leiden.py],
    [network_analysis/data_prep.py], [network_analysis/d3_export.py],
    [network_analysis/api.py] and [network_analysis/webapp.py].

    Numbers.  The source computes rates in IEEE doubles; here every rate is
    an exact rational ([Q]).  All rates of the program are quotients of
    integers bounded by the number of rows, so comparing against the
    literals 0.3 and 0.1 gives the same answer in both readings for every
    frame with fewer than 10^15 rows.  A pandas cell that is NaN/NA/NaT is
    [None]. *)

From Stdlib Require Import ZArith QArith Qround Lqa Permutation Sorted.
From stdpp Require Import gmap strings list fin_maps pretty.

Open Scope Z_scope.

(** ** Cells and rows *)

(** The frame [graph_df]: one record per appointment, after the column
    normalisation done at load time. *)
Module Raw.
Record t := mk {
  PATIENT_KEY : option string;
  AGE : option Q;
  ORG_CODE_LOCAL_PATIENT_IDENTIFIER : option string;
  ATTENDED_OR_DID_NOT_ATTEND : option string;
  OUTCOME_OF_ATTENDANCE : option string;
  POSTCODE_SECTOR_OF_USUAL_ADDRESS : option string;
  APPOINTMENT_DATE : option Z;
  ORGANISATION_CODE_CODE_OF_PROVIDER : option string;
  SITE_CODE_OF_TREATMENT : option string;
  PROVIDER_LOCATION : option string;
  TREATMENT_FUNCTION_CODE : option string;
  REFERRING_ORGANISATION_CODE : option string;
  REFERRAL_REQUEST_RECEIVED_DATE : option Z
}.
End Raw.

(** The frame returned by [clean_for_network]: both identifiers are present,
    the attendance code is filled and the column [DNA_FLAG] exists. *)
Module Net.
Record t := mk {
  PATIENT_KEY : string;
  AGE : option Q;
  ORG_CODE_LOCAL_PATIENT_IDENTIFIER : option string;
  ATTENDED_OR_DID_NOT_ATTEND : string;
  OUTCOME_OF_ATTENDANCE : option string;
  POSTCODE_SECTOR_OF_USUAL_ADDRESS : option string;
  APPOINTMENT_DATE : option Z;
  ORGANISATION_CODE_CODE_OF_PROVIDER : option string;
  SITE_CODE_OF_TREATMENT : string;
  PROVIDER_LOCATION : option string;
  TREATMENT_FUNCTION_CODE : option string;
  REFERRING_ORGANISATION_CODE : option string;
  REFERRAL_REQUEST_RECEIVED_DATE : option Z;
  DNA_FLAG : Z
}.
End Net.

(** [(a == '3') | (a == '7')).astype(int)] *)
Definition dna_flag (code : string) : Z :=
  if bool_decide (code = "3"%string) || bool_decide (code = "7"%string)
  then 1 else 0.

(** One row of [clean_for_network]: [dropna] on the two identifiers,
    [fillna('0')] on the attendance code, then the flag. *)
Definition clean_row (r : Raw.t) : option Net.t :=
  match Raw.PATIENT_KEY r, Raw.SITE_CODE_OF_TREATMENT r with
  | Some p, Some s =>
      let code := default "0"%string (Raw.ATTENDED_OR_DID_NOT_ATTEND r) in
      Some {| Net.PATIENT_KEY := p;
              Net.AGE := Raw.AGE r;
              Net.ORG_CODE_LOCAL_PATIENT_IDENTIFIER :=
                Raw.ORG_CODE_LOCAL_PATIENT_IDENTIFIER r;
              Net.ATTENDED_OR_DID_NOT_ATTEND := code;
              Net.OUTCOME_OF_ATTENDANCE := Raw.OUTCOME_OF_ATTENDANCE r;
              Net.POSTCODE_SECTOR_OF_USUAL_ADDRESS :=
                Raw.POSTCODE_SECTOR_OF_USUAL_ADDRESS r;
              Net.APPOINTMENT_DATE := Raw.APPOINTMENT_DATE r;
              Net.ORGANISATION_CODE_CODE_OF_PROVIDER :=
                Raw.ORGANISATION_CODE_CODE_OF_PROVIDER r;
              Net.SITE_CODE_OF_TREATMENT := s;
              Net.PROVIDER_LOCATION := Raw.PROVIDER_LOCATION r;
              Net.TREATMENT_FUNCTION_CODE := Raw.TREATMENT_FUNCTION_CODE r;
              Net.REFERRING_ORGANISATION_CODE :=
                Raw.REFERRING_ORGANISATION_CODE r;
              Net.REFERRAL_REQUEST_RECEIVED_DATE :=
                Raw.REFERRAL_REQUEST_RECEIVED_DATE r;
              Net.DNA_FLAG := dna_flag code |}
  | _, _ => None
  end.

Definition clean_for_network (df : list Raw.t) : list Net.t :=
  omap clean_row df.

(** ** The graph *)

Inductive RiskCategory := High | Medium | Low.
Inductive AgeGroup := Child | YoungAdult | Adult | Senior | Unknown.

#[global] Instance RiskCategory_eq_dec : EqDecision RiskCategory.
Proof. solve_decision. Defined.

Record PatientAttrs := {
  age : option Q;
  age_group : AgeGroup;
  postcode : option string;
  org_code : option string;
  total_appointments : Z;
  total_dnas : Z;
  dna_rate : Q;
  unique_sites : Z;
  risk_category : RiskCategory
}.

Record SiteAttrs := {
  provider_location : option string;
  site_org_code : option string;
  site_treatment_function : option string;
  site_total_appointments : Z;
  site_total_dnas : Z;
  site_dna_rate : Q;
  unique_patients : Z
}.

(** A node's attribute dictionary; [BareNode] is a node that was created
    without attributes. *)
Inductive NodeData :=
| PatientNode (a : PatientAttrs)
| SiteNode (a : SiteAttrs)
| BareNode.

(** An edge's attribute dictionary.  [edge_dna_rate] is the key
    ['dna_rate'], absent ([None]) until the last loop of graph construction
    sets it. *)
Record EdgeData := {
  weight : Z;
  dna_count : Z;
  appointment_date : option Z;
  treatment_function : option string;
  referring_org : option string;
  outcome : option string;
  edge_dna_rate : option Q
}.

(** [nx.Graph]: undirected.  networkx keeps one attribute dictionary per
    edge and reaches it from both endpoints; [adj] holds it under both
    orientations and every operation below writes both.  It keeps its nodes
    in a dictionary, whose keys come in the order in which they were first
    added: [position] is the rank of a node in that order. *)
Record Graph := {
  nodes : gmap string NodeData;
  adj : gmap (string * string) EdgeData;
  position : gmap string nat
}.

Definition empty_graph : Graph := {| nodes := ∅; adj := ∅; position := ∅ |}.

(** Rank of a key written to the node dictionary: a key that is there
    keeps its rank, a new key comes last. *)
Definition rank_node (n : string) (m : gmap string NodeData)
    (p : gmap string nat) : gmap string nat :=
  match m !! n with Some _ => p | None => <[n := size m]> p end.

Definition add_node (G : Graph) (n : string) (d : NodeData) : Graph :=
  {| nodes := <[n := d]> (nodes G); adj := adj G;
     position := rank_node n (nodes G) (position G) |}.

Definition has_edge (G : Graph) (u v : string) : bool :=
  bool_decide (is_Some (adj G !! (u, v))).

Definition touch_node (n : string) (m : gmap string NodeData) :=
  match m !! n with Some _ => m | None => <[n := BareNode]> m end.

Definition add_edge (G : Graph) (u v : string) (d : EdgeData) : Graph :=
  {| nodes := touch_node v (touch_node u (nodes G));
     adj := <[(v, u) := d]> (<[(u, v) := d]> (adj G));
     position :=
       rank_node v (touch_node u (nodes G))
         (rank_node u (nodes G) (position G)) |}.

(** In-place change of the dictionary of the edge [u]-[v]. *)
Definition update_edge (G : Graph) (u v : string) (f : EdgeData → EdgeData)
  : Graph :=
  {| nodes := nodes G;
     adj := alter f (v, u) (alter f (u, v) (adj G));
     position := position G |}.

(** Insertion into a list that is ordered by rank. *)
Fixpoint insert_by_rank (rank : string → nat) (x : string) (l : list string)
  : list string :=
  match l with
  | [] => [x]
  | y :: t =>
      if decide (rank x ≤ rank y)%nat then x :: y :: t
      else y :: insert_by_rank rank x t
  end.

(** [G.nodes()]: the keys of the node dictionary in the order in which they
    were first added. *)
Definition node_list (G : Graph) : list string :=
  foldr (insert_by_rank (λ n, default 0%nat (position G !! n))) []
    (map_to_list (nodes G)).*1.

Definition patient_id (patient : string) : string := "P_" +:+ patient.
Definition site_id (site : string) : string := "S_" +:+ site.

(** ** Graph construction *)

(** [Series.unique()]: distinct values in order of first appearance. *)
Fixpoint unique (l : list string) : list string :=
  match l with
  | [] => []
  | x :: t => x :: filter (λ y, y ≠ x) (unique t)
  end.

Definition sum_Z (l : list Z) : Z := foldr Z.add 0 l.

Definition Qgtb (x y : Q) : bool := negb (Qle_bool x y).
Definition Qltb (x y : Q) : bool := negb (Qle_bool y x).

(** Bayesian smoothing: [(total_dnas + 1) / (total_appointments + 5)]. *)
Definition smoothed_rate (total_dnas total_appointments : Z) : Q :=
  (inject_Z (total_dnas + 1) / inject_Z (total_appointments + 5))%Q.

Definition classify_age (a : option Q) : AgeGroup :=
  match a with
  | None => Unknown
  | Some a =>
      if Qltb a 18 then Child
      else if Qltb a 35 then YoungAdult
      else if Qltb a 65 then Adult
      else Senior
  end.

(** ['High' if dna_rate > 0.3 else 'Medium' if dna_rate > 0.1 else 'Low'] *)
Definition classify_risk (rate : Q) : RiskCategory :=
  if Qgtb rate (3 # 10) then High
  else if Qgtb rate (1 # 10) then Medium
  else Low.

Definition patient_attrs (first_record : Net.t) (patient_data : list Net.t)
  : PatientAttrs :=
  let total_appointments := Z.of_nat (length patient_data) in
  let total_dnas := sum_Z (Net.DNA_FLAG <$> patient_data) in
  let dna_rate := smoothed_rate total_dnas total_appointments in
  {| age := Net.AGE first_record;
     age_group := classify_age (Net.AGE first_record);
     postcode := Net.POSTCODE_SECTOR_OF_USUAL_ADDRESS first_record;
     org_code := Net.ORG_CODE_LOCAL_PATIENT_IDENTIFIER first_record;
     total_appointments := total_appointments;
     total_dnas := total_dnas;
     dna_rate := dna_rate;
     unique_sites :=
       Z.of_nat (length (unique (Net.SITE_CODE_OF_TREATMENT <$> patient_data)));
     risk_category := classify_risk dna_rate |}.

Definition site_attrs (first_record : Net.t) (site_data : list Net.t)
  : SiteAttrs :=
  let total_appointments := Z.of_nat (length site_data) in
  let total_dnas := sum_Z (Net.DNA_FLAG <$> site_data) in
  {| provider_location := Net.PROVIDER_LOCATION first_record;
     site_org_code := Net.ORGANISATION_CODE_CODE_OF_PROVIDER first_record;
     site_treatment_function := Net.TREATMENT_FUNCTION_CODE first_record;
     site_total_appointments := total_appointments;
     site_total_dnas := total_dnas;
     site_dna_rate := smoothed_rate total_dnas total_appointments;
     unique_patients :=
       Z.of_nat (length (unique (Net.PATIENT_KEY <$> site_data))) |}.

(** A [for] loop whose body may raise: [None] is the exception. *)
Fixpoint for_each {S A : Type} (body : S → A → option S) (l : list A) (s : S)
  : option S :=
  match l with
  | [] => Some s
  | x :: t => s' ← body s x; for_each body t s'
  end.

(** Body of the patient loop; [iloc[0]] raises on an empty selection. *)
Definition add_patient (df : list Net.t) (G : Graph) (patient : string)
  : option Graph :=
  let patient_data := filter (λ r, Net.PATIENT_KEY r = patient) df in
  first_record ← head patient_data;
  Some (add_node G (patient_id patient)
          (PatientNode (patient_attrs first_record patient_data))).

Definition add_site (df : list Net.t) (G : Graph) (site : string)
  : option Graph :=
  let site_data := filter (λ r, Net.SITE_CODE_OF_TREATMENT r = site) df in
  first_record ← head site_data;
  Some (add_node G (site_id site)
          (SiteNode (site_attrs first_record site_data))).

(** Body of the edge loop over [df.iterrows()]. *)
Definition add_row (G : Graph) (row : Net.t) : Graph :=
  let patient_node := patient_id (Net.PATIENT_KEY row) in
  let site_node := site_id (Net.SITE_CODE_OF_TREATMENT row) in
  if has_edge G patient_node site_node then
    update_edge G patient_node site_node (λ d,
      {| weight := weight d + 1;
         dna_count := dna_count d + Net.DNA_FLAG row;
         appointment_date := appointment_date d;
         treatment_function := treatment_function d;
         referring_org := referring_org d;
         outcome := outcome d;
         edge_dna_rate := edge_dna_rate d |})
  else
    add_edge G patient_node site_node
      {| weight := 1;
         dna_count := Net.DNA_FLAG row;
         appointment_date := Net.APPOINTMENT_DATE row;
         treatment_function := Net.TREATMENT_FUNCTION_CODE row;
         referring_org := Net.REFERRING_ORGANISATION_CODE row;
         outcome := Net.OUTCOME_OF_ATTENDANCE row;
         edge_dna_rate := None |}.

(** [a / b] on integers: a float; dividing by zero gives no rate. *)
Definition true_divide (a b : Z) : option Q :=
  if decide (b = 0) then None else Some (inject_Z a / inject_Z b)%Q.

Definition set_edge_rate (d : EdgeData) : EdgeData :=
  {| weight := weight d;
     dna_count := dna_count d;
     appointment_date := appointment_date d;
     treatment_function := treatment_function d;
     referring_org := referring_org d;
     outcome := outcome d;
     edge_dna_rate := true_divide (dna_count d) (weight d) |}.

Definition create_enhanced_bipartite_graph (df : list Net.t) : option Graph :=
  let patients := unique (Net.PATIENT_KEY <$> df) in
  let sites := unique (Net.SITE_CODE_OF_TREATMENT <$> df) in
  G ← for_each (add_patient df) patients empty_graph;
  G ← for_each (add_site df) sites G;
  let G := foldl add_row G df in
  Some {| nodes := nodes G; adj := set_edge_rate <$> adj G;
          position := position G |}.

(** ** Community partitioner: minimum-size filter *)

Record CommunityResult := {
  communities : list (list string);
  method_name : string
}.

Definition len {A} (l : list A) : Z := Z.of_nat (length l).

(** The loop that sorts the partitioner's communities into the kept ones
    ([append]) and the pooled nodes of the others ([extend]). *)
Definition split_step (min_size : Z) (acc : list (list string) * list string)
    (comm : list string) : list (list string) * list string :=
  if decide (min_size ≤ len comm)
  then (acc.1 ++ [comm], acc.2)
  else (acc.1, acc.2 ++ comm).

Definition split_by_size (cs : list (list string)) (min_size : Z)
  : list (list string) * list string :=
  foldl (split_step min_size) ([], []) cs.

(** [max(range(n), key=key)]: the first index whose key is maximal;
    [best] is the candidate so far, [i] the next index to look at. *)
Fixpoint max_range_from (key : nat → Z) (best i : nat) (todo : nat) : nat :=
  match todo with
  | O => best
  | S todo' =>
      max_range_from key (if decide (key best < key i) then i else best)
        (S i) todo'
  end.

Definition max_range (n : nat) (key : nat → Z) : option nat :=
  match n with
  | O => None
  | S n' => Some (max_range_from key 0%nat 1%nat n')
  end.

Definition largest_idx (large_communities : list (list string)) : option nat :=
  max_range (length large_communities)
    (λ i, len (default [] (large_communities !! i))).

(** [large_communities[largest_idx].extend(small_nodes)] *)
Definition merge_small (large_communities : list (list string))
    (small_nodes : list string) : list (list string) :=
  match largest_idx large_communities with
  | Some i => alter (λ c, c ++ small_nodes) i large_communities
  | None => large_communities
  end.

Definition truthy {A} (l : list A) : bool :=
  match l with [] => false | _ => true end.

(** [data_prep.py], [filter_communities_by_size]. *)
Definition filter_communities_by_size (community_result : CommunityResult)
    (min_size : Z) : CommunityResult :=
  let '(large_communities, small_nodes) :=
    split_by_size (communities community_result) min_size in
  let large_communities :=
    if truthy small_nodes && truthy large_communities
    then merge_small large_communities small_nodes
    else if truthy small_nodes && bool_decide (min_size ≤ len small_nodes)
    then large_communities ++ [small_nodes]
    else large_communities in
  {| communities := large_communities;
     method_name := "filtered_" +:+ method_name community_result |}.

(** The community-detection library ([cdlib]); [None] from one of its
    functions is an exception raised by it.  [entropy] stands for whatever
    ambient state a backend may consult (its own random generator). *)
Record Cdlib := {
  leiden : Z → Graph → option (list (list string));
  newman_girvan_modularity : Graph → list (list string) → option Q
}.

(** [data_prep_leiden.py], [detect_communities_leiden].  [algorithms] is
    [None] when the import of the library failed; the result [None] is the
    function's [return None].  The progress report takes [min] and [max] of
    the community sizes, which raises on an empty partition. *)
Definition detect_communities_leiden (algorithms : option Cdlib)
    (entropy : Z) (G : Graph) (min_community_size : Z)
  : option CommunityResult :=
  match algorithms with
  | None => None
  | Some lib =>
      leiden_result ← leiden lib entropy G;
      _ ← newman_girvan_modularity lib G leiden_result;
      if truthy leiden_result then
        let '(large_communities, small_nodes) :=
          split_by_size leiden_result min_community_size in
        let large_communities :=
          if truthy small_nodes && truthy large_communities
          then merge_small large_communities small_nodes
          else large_communities in
        Some {| communities := large_communities;
                method_name := "leiden_filtered" |}
      else None
  end.

(** ** Order statistics *)

Fixpoint insert_asc (x : Q) (l : list Q) : list Q :=
  match l with
  | [] => [x]
  | y :: t => if Qle_bool x y then x :: y :: t else y :: insert_asc x t
  end.

Definition sort_asc (l : list Q) : list Q := foldr insert_asc [] l.

(** [Series.quantile(q)] of pandas with its default, linear interpolation
    between the two order statistics around position [q * (n - 1)]; the
    quantile of an empty series is NaN. *)
Definition quantile (l : list Q) (q : Q) : option Q :=
  match sort_asc l with
  | [] => None
  | (x0 :: _) as s =>
      let pos := (q * inject_Z (len l - 1))%Q in
      let lo := Qfloor pos in
      let frac := (pos - inject_Z lo)%Q in
      let a := default x0 (s !! Z.to_nat lo) in
      let b := default a (s !! Z.to_nat (lo + 1)) in
      Some (a + (b - a) * frac)%Q
  end.

(** [np.median] of a non-empty list. *)
Definition median (l : list Q) : Q :=
  let s := sort_asc l in
  let n := length l in
  let hi := default 0%Q (s !! (n / 2)%nat) in
  if Nat.even n then ((default 0%Q (s !! (n / 2 - 1)%nat) + hi) / 2)%Q else hi.

(** ** Community statistics *)

(** [collections.Counter]: counts in order of first appearance. *)
Fixpoint counter_incr {K} `{EqDecision K} (k : K) (c : list (K * Z))
  : list (K * Z) :=
  match c with
  | [] => [(k, 1)]
  | (k', n) :: t =>
      if decide (k = k') then (k', n + 1) :: t else (k', n) :: counter_incr k t
  end.

Definition Counter {K} `{EqDecision K} (l : list K) : list (K * Z) :=
  foldl (λ c k, counter_incr k c) [] l.

(** [c.get(k, d)] *)
Fixpoint counter_get {K} `{EqDecision K} (c : list (K * Z)) (k : K) (d : Z)
  : Z :=
  match c with
  | [] => d
  | (k', n) :: t => if decide (k = k') then n else counter_get t k d
  end.

Definition sum_Q (l : list Q) : Q := foldr Qplus 0%Q l.

(** [np.mean] of a non-empty list. *)
Definition mean (l : list Q) : Q := (sum_Q l / inject_Z (len l))%Q.

Definition calculate_community_risk_score (dna_rates : list Q)
    (risk_counts : list (RiskCategory * Z)) : Q :=
  if truthy dna_rates then
    let avg_dna := mean dna_rates in
    let total_patients :=
      if truthy risk_counts then sum_Z (risk_counts.*2) else 1 in
    let high_risk_prop :=
      (inject_Z (counter_get risk_counts High 0) / inject_Z total_patients)%Q in
    (avg_dna * (7 # 10) + high_risk_prop * (3 # 10))%Q
  else 0%Q.

Inductive NodeType := patient | site.

(** [G.nodes[n]['node_type']]; [None] is the [KeyError]. *)
Definition node_type (G : Graph) (n : string) : option NodeType :=
  match nodes G !! n with
  | Some (PatientNode _) => Some patient
  | Some (SiteNode _) => Some site
  | _ => None
  end.

Definition patient_of (G : Graph) (n : string) : option PatientAttrs :=
  match nodes G !! n with Some (PatientNode a) => Some a | _ => None end.

Definition site_of (G : Graph) (n : string) : option SiteAttrs :=
  match nodes G !! n with Some (SiteNode a) => Some a | _ => None end.

(** One row of the statistics frame.  The column [std_dna_rate] is a square
    root and has no place among rationals; no statement below reads it, and
    it is left out. *)
Record CommunityStats := {
  community_id : Z;
  community_size : Z;
  patients_count : Z;
  sites_count : Z;
  avg_dna_rate : Q;
  median_dna_rate : Q;
  avg_age : option Q;
  dominant_age_group : AgeGroup;
  avg_appointments : Q;
  high_risk_patients : Z;
  medium_risk_patients : Z;
  low_risk_patients : Z;
  avg_site_dna_rate : Q;
  risk_score : Q
}.

#[global] Instance AgeGroup_eq_dec : EqDecision AgeGroup.
Proof. solve_decision. Defined.

(** [max(items, key=count)[0]] over the counter's items, or ['Unknown']. *)
Definition dominant (c : list (AgeGroup * Z)) : AgeGroup :=
  match c with
  | [] => Unknown
  | x :: t => (foldl (λ best y, if decide (best.2 < y.2) then y else best) x t).1
  end.

(** [[n for n in community if G.nodes[n]['node_type'] == 'patient']], each
    node with its attributes; likewise for sites. *)
Definition patients_in (G : Graph) (community : list string)
  : list PatientAttrs := omap (patient_of G) community.

Definition sites_in (G : Graph) (community : list string) : list SiteAttrs :=
  omap (site_of G) community.

(** Body of the loop of [analyze_community_dna_patterns]: [Some None] is
    [continue], the outer [None] a [KeyError] on a node. *)
Definition community_row (G : Graph) (i : nat) (community : list string)
  : option (option CommunityStats) :=
  _ ← mapM (node_type G) community;
  let patients_in_comm := patients_in G community in
  let sites_in_comm := sites_in G community in
  if truthy patients_in_comm then
    let community_dna_rates := dna_rate <$> patients_in_comm in
    let community_ages := omap age patients_in_comm in
    let community_appointments :=
      (λ p, inject_Z (total_appointments p)) <$> patients_in_comm in
    let age_group_counts := Counter (age_group <$> patients_in_comm) in
    let risk_counts := Counter (risk_category <$> patients_in_comm) in
    let site_dna_rates := site_dna_rate <$> sites_in_comm in
    Some (Some
      {| community_id := Z.of_nat i;
         community_size := len community;
         patients_count := len patients_in_comm;
         sites_count := len sites_in_comm;
         avg_dna_rate := mean community_dna_rates;
         median_dna_rate := median community_dna_rates;
         avg_age :=
           if truthy community_ages then Some (mean community_ages) else None;
         dominant_age_group := dominant age_group_counts;
         avg_appointments := mean community_appointments;
         high_risk_patients := counter_get risk_counts High 0;
         medium_risk_patients := counter_get risk_counts Medium 0;
         low_risk_patients := counter_get risk_counts Low 0;
         avg_site_dna_rate :=
           if truthy site_dna_rates then mean site_dna_rates else 0%Q;
         risk_score :=
           calculate_community_risk_score community_dna_rates risk_counts |})
  else Some None.

Fixpoint community_rows (G : Graph) (i : nat) (cs : list (list string))
  : option (list CommunityStats) :=
  match cs with
  | [] => Some []
  | c :: t =>
      r ← community_row G i c;
      rest ← community_rows G (S i) t;
      Some (match r with Some row => row :: rest | None => rest end)
  end.

(** [sort_values('risk_score', ascending=False)].  Rows of equal score stay
    in the order of the frame: a row is put before the first row whose
    score is not greater than its own, and the rows are inserted from the
    last to the first. *)
Fixpoint insert_desc (row : CommunityStats) (l : list CommunityStats)
  : list CommunityStats :=
  match l with
  | [] => [row]
  | x :: t =>
      if Qltb (risk_score row) (risk_score x)
      then x :: insert_desc row t
      else row :: x :: t
  end.

Definition sort_values_desc (l : list CommunityStats) : list CommunityStats :=
  foldr insert_desc [] l.

(** [analyze_community_dna_patterns].  A frame built from no rows has no
    column ['risk_score'], and sorting it by that column raises. *)
Definition analyze_community_dna_patterns (G : Graph)
    (cs : CommunityResult) : option (list CommunityStats) :=
  community_stats ← community_rows G 0 (communities cs);
  if truthy community_stats then Some (sort_values_desc community_stats)
  else None.

(** ** Risk tiers *)

(** Comparisons of a score with a threshold; every comparison with NaN is
    false. *)
Definition ge_thr (x : Q) (t : option Q) : bool :=
  match t with Some t => Qle_bool t x | None => false end.
Definition le_thr (x : Q) (t : option Q) : bool :=
  match t with Some t => Qle_bool x t | None => false end.
Definition gt_thr (x : Q) (t : option Q) : bool :=
  match t with Some t => Qgtb x t | None => false end.
Definition lt_thr (x : Q) (t : option Q) : bool :=
  match t with Some t => Qltb x t | None => false end.

Record RiskCommunities := {
  high_risk : list CommunityStats;
  medium_risk : list CommunityStats;
  low_risk : list CommunityStats
}.

(** The locals [high_threshold] and [low_threshold] of
    [identify_high_low_risk_communities]. *)
Definition risk_thresholds (community_df : list CommunityStats)
    (use_percentiles : bool) : option Q * option Q :=
  if use_percentiles then
    (quantile (risk_score <$> community_df) (3 # 4),
     quantile (risk_score <$> community_df) (1 # 4))
  else (Some (3 # 10), Some (1 # 10)).

Definition identify_high_low_risk_communities
    (community_df : list CommunityStats) (use_percentiles : bool)
  : RiskCommunities :=
  let '(high_threshold, low_threshold) :=
    risk_thresholds community_df use_percentiles in
  {| high_risk :=
       List.filter (λ c, ge_thr (risk_score c) high_threshold) community_df;
     medium_risk :=
       List.filter (λ c, gt_thr (risk_score c) low_threshold
                         && lt_thr (risk_score c) high_threshold) community_df;
     low_risk :=
       List.filter (λ c, le_thr (risk_score c) low_threshold) community_df |}.

(** ** Export document *)

(** The [if / elif / else] that labels a score in [export_for_d3js]. *)
Definition risk_level_of (risk_score : Q) (high_threshold low_threshold : option Q)
  : RiskCategory :=
  if ge_thr risk_score high_threshold then High
  else if le_thr risk_score low_threshold then Low
  else Medium.

Record ExportNode := {
  n_id : string;
  n_type : NodeType;
  n_community : Z;
  n_risk_level : RiskCategory
}.

Record ExportCommunity := {
  c_id : Z;
  c_patients : Z;
  c_sites : Z;
  c_avg_dna_rate : Q;
  c_risk_score : Q;
  c_dominant_age : AgeGroup;
  c_high_risk_patients : Z;
  c_medium_risk_patients : Z;
  c_low_risk_patients : Z;
  c_risk_level : RiskCategory
}.

Record ExportMetadata := {
  total_nodes : Z;
  total_edges : Z;
  total_communities : Z;
  high_risk_communities : Z;
  medium_risk_communities : Z;
  low_risk_communities : Z;
  threshold_high : option Q;
  threshold_low : option Q;
  generated_at : Z;
  algorithm : string
}.

(** The document written by [export_for_d3js].  Of each node the document
    model keeps the fields every kind has; the per-kind attributes, the
    [links] and the [summary] are copies of graph attributes and are not
    modelled. *)
Record ExportDoc := {
  metadata : ExportMetadata;
  export_nodes : list ExportNode;
  export_communities : list ExportCommunity
}.

(** [node_to_community]: a node listed by several communities keeps the
    last position. *)
Definition node_to_community (cs : list (list string)) : gmap string Z :=
  (foldl (λ acc community,
            (S acc.1,
             foldl (λ m node, <[node := Z.of_nat acc.1]> m) acc.2 community))
         (0%nat, ∅) cs).2.

Definition number_of_edges (G : Graph) : Z :=
  let loops := size (filter (λ kv, kv.1.1 = kv.1.2) (adj G)) in
  Z.of_nat (loops + (size (adj G) - loops) / 2).

Definition export_node (G : Graph) (ntc : gmap string Z)
    (community_df : list CommunityStats) (high_threshold low_threshold : option Q)
    (node_id : string) : option ExportNode :=
  ty ← node_type G node_id;
  let community := default (-1) (ntc !! node_id) in
  let risk_level :=
    if decide (0 ≤ community) then
      match List.filter (λ c, bool_decide (community_id c = community))
              community_df with
      | comm_data :: _ =>
          risk_level_of (risk_score comm_data) high_threshold low_threshold
      | [] => Medium
      end
    else Medium in
  Some {| n_id := node_id; n_type := ty; n_community := community;
          n_risk_level := risk_level |}.

Definition export_community (high_threshold low_threshold : option Q)
    (comm_data : CommunityStats) : ExportCommunity :=
  {| c_id := community_id comm_data;
     c_patients := patients_count comm_data;
     c_sites := sites_count comm_data;
     c_avg_dna_rate := avg_dna_rate comm_data;
     c_risk_score := risk_score comm_data;
     c_dominant_age := dominant_age_group comm_data;
     c_high_risk_patients := high_risk_patients comm_data;
     c_medium_risk_patients := medium_risk_patients comm_data;
     c_low_risk_patients := low_risk_patients comm_data;
     c_risk_level :=
       risk_level_of (risk_score comm_data) high_threshold low_threshold |}.

(** [export_for_d3js]; [now] is the clock reading.  [None] is a [KeyError]
    on a node without ['node_type']. *)
Definition export_for_d3js (G : Graph) (cs : CommunityResult)
    (community_df : list CommunityStats) (now : Z) : option ExportDoc :=
  let ntc := node_to_community (communities cs) in
  let high_threshold := quantile (risk_score <$> community_df) (3 # 4) in
  let low_threshold := quantile (risk_score <$> community_df) (1 # 4) in
  let high_risk_count :=
    len (List.filter (λ c, ge_thr (risk_score c) high_threshold) community_df) in
  let low_risk_count :=
    len (List.filter (λ c, le_thr (risk_score c) low_threshold) community_df) in
  d3_nodes ← mapM (export_node G ntc community_df high_threshold low_threshold)
                (node_list G);
  Some {| metadata :=
            {| total_nodes := Z.of_nat (size (nodes G));
               total_edges := number_of_edges G;
               total_communities := len (communities cs);
               high_risk_communities := high_risk_count;
               medium_risk_communities :=
                 len community_df - high_risk_count - low_risk_count;
               low_risk_communities := low_risk_count;
               threshold_high := high_threshold;
               threshold_low := low_threshold;
               generated_at := now;
               algorithm := "leiden" |};
          export_nodes := d3_nodes;
          export_communities :=
            export_community high_threshold low_threshold <$> community_df |}.

(** ** The service: analysis state and one run ([api.py]) *)

(** Exceptions a run can meet.  [LibraryError f] is an exception raised
    inside the library call made by [f]; its text is not in the source. *)
Inductive PyError :=
| HTTPException (status_code : Z) (detail : string)
| Exception (msg : string)
| LibraryError (raised_in : string).

(** Values of [analysis_state["analysis_progress"]]; [error e] is the
    string [f"error: {str(e)}"]. *)
Inductive Progress :=
| not_started | loading_data | sampling_data | cleaning_data | creating_graph
| detecting_communities | analyzing_communities | identifying_risk
| exporting_data | completed
| error (e : PyError).

(** The global dictionary [analysis_state]. *)
Record AnalysisState := {
  graph : option Graph;
  state_communities : option CommunityResult;
  community_df : option (list CommunityStats);
  network_data : option (list Net.t);
  risk_communities : option RiskCommunities;
  initialized : bool;
  last_updated : option Z;
  analysis_progress : Progress
}.

Definition initial_state : AnalysisState :=
  {| graph := None; state_communities := None; community_df := None;
     network_data := None; risk_communities := None; initialized := false;
     last_updated := None; analysis_progress := not_started |}.

(** What a run reads and writes outside the dictionary: the three input
    files ([inl msg] when reading them raises), the export file, the clock,
    the state of numpy's global random generator and the ambient state a
    partitioner may consult. *)
Record World := {
  data_files : string + list Raw.t;
  export_file : option ExportDoc;
  clock : Z;
  np_random_state : Z;
  entropy : Z
}.

(** The installed libraries: [algorithms] is [None] when [cdlib] could not
    be imported; [pd_sample seed n df] is [df.sample(n=n, random_state=seed)],
    which raises when it cannot draw [n] rows. *)
Record Env := {
  algorithms : option Cdlib;
  pd_sample : Z → Z → list Raw.t → option (list Raw.t)
}.

(** [sample_data_for_network]: the frame as it is when it fits the cap,
    otherwise [np.random.seed(seed)] and a seeded sample.  The second
    component is numpy's global generator afterwards. *)
Definition sample_data_for_network (env : Env) (df : list Raw.t)
    (max_records seed : Z) (np_state : Z) : option (list Raw.t) * Z :=
  if decide (len df ≤ max_records) then (Some df, np_state)
  else (pd_sample env seed max_records df, seed).

(** Computations of a run: state and world are threaded, an exception
    stops the sequence. *)
Definition M (A : Type) : Type :=
  AnalysisState * World → (PyError + A) * (AnalysisState * World).

Definition ret {A} (a : A) : M A := λ s, (inr a, s).

Definition bind {A B} (m : M A) (k : A → M B) : M B :=
  λ s, match m s with
       | (inl e, s') => (inl e, s')
       | (inr a, s') => k a s'
       end.

Definition raise {A} (e : PyError) : M A := λ s, (inl e, s).

Definition try_except {A} (m : M A) (handler : PyError → M A) : M A :=
  λ s, match m s with
       | (inl e, s') => handler e s'
       | r => r
       end.

Notation "x <-- m ;; k" := (bind m (λ x, k))
  (at level 100, m at next level, right associativity).
Notation "m ;;; k" := (bind m (λ _, k))
  (at level 100, right associativity).

Definition with_progress (p : Progress) (st : AnalysisState) : AnalysisState :=
  {| graph := graph st; state_communities := state_communities st;
     community_df := community_df st; network_data := network_data st;
     risk_communities := risk_communities st; initialized := initialized st;
     last_updated := last_updated st; analysis_progress := p |}.

Definition set_progress (p : Progress) : M unit :=
  λ s, (inr (), (with_progress p s.1, s.2)).

Definition get_world : M World := λ s, (inr s.2, s).

Definition lift {A} (raised_in : string) (o : option A) : M A :=
  match o with Some a => ret a | None => raise (LibraryError raised_in) end.

Definition load_and_preprocess_data : M (list Raw.t) :=
  w <-- get_world ;;
  match data_files w with
  | inl msg => raise (HTTPException 500 ("Failed to load raw data: " +:+ msg))
  | inr graph_df => ret graph_df
  end.

Definition sample_step (env : Env) (df : list Raw.t) (max_records seed : Z)
  : M (list Raw.t) :=
  λ s,
    let '(sampled, np_state) :=
      sample_data_for_network env df max_records seed (np_random_state s.2) in
    let w := {| data_files := data_files s.2; export_file := export_file s.2;
                clock := clock s.2; np_random_state := np_state;
                entropy := entropy s.2 |} in
    lift "sample_data_for_network" sampled (s.1, w).

(** [export_for_d3js] with its [json.dump] to the output path. *)
Definition export_step (G : Graph) (cs : CommunityResult)
    (df : list CommunityStats) : M ExportDoc :=
  w <-- get_world ;;
  export_data <-- lift "export_for_d3js" (export_for_d3js G cs df (clock w)) ;;
  λ s, (inr export_data,
        (s.1, {| data_files := data_files s.2;
                 export_file := Some export_data;
                 clock := clock s.2; np_random_state := np_random_state s.2;
                 entropy := entropy s.2 |})).

(** [analysis_state.update({...})] at the end of a run. *)
Definition publish (G : Graph) (cs : CommunityResult)
    (df : list CommunityStats) (nd : list Net.t) (rc : RiskCommunities)
  : M unit :=
  λ s, (inr (),
        ({| graph := Some G; state_communities := Some cs;
            community_df := Some df; network_data := Some nd;
            risk_communities := Some rc; initialized := true;
            last_updated := Some (clock s.2);
            analysis_progress := completed |}, s.2)).

(** The [try] block of [run_analysis]; the service fixes
    [max_records = 20000], the default seed 42 and
    [min_community_size = 10]. *)
Definition run_pipeline (env : Env) (max_records seed min_community_size : Z)
  : M bool :=
  set_progress loading_data ;;;
  processed_df <-- load_and_preprocess_data ;;
  set_progress sampling_data ;;;
  sampled_df <-- sample_step env processed_df max_records seed ;;
  set_progress cleaning_data ;;;
  let nd := clean_for_network sampled_df in
  set_progress creating_graph ;;;
  G <-- lift "create_enhanced_bipartite_graph"
          (create_enhanced_bipartite_graph nd) ;;
  set_progress detecting_communities ;;;
  w <-- get_world ;;
  match detect_communities_leiden (algorithms env) (entropy w) G
          min_community_size with
  | None => raise (Exception "Community detection failed - check dependencies")
  | Some cs =>
      set_progress analyzing_communities ;;;
      df <-- lift "analyze_community_dna_patterns"
               (analyze_community_dna_patterns G cs) ;;
      set_progress identifying_risk ;;;
      let rc := identify_high_low_risk_communities df true in
      set_progress exporting_data ;;;
      export_step G cs df ;;;
      publish G cs df nd rc ;;;
      ret true
  end.

Definition run_analysis (env : Env) : M bool :=
  try_except (run_pipeline env 20000 42 10)
    (λ e, set_progress (error e) ;;; raise e).

Inductive InitResponse :=
| already_in_progress (status : Progress)
| already_completed
| analysis_started.

Definition in_progress (p : Progress) : bool :=
  match p with
  | loading_data | sampling_data | cleaning_data | creating_graph
  | detecting_communities | analyzing_communities | identifying_risk
  | exporting_data => true
  | _ => false
  end.

(** [POST /initialize]: [analysis_started] schedules [run_analysis]. *)
Definition initialize_analysis (st : AnalysisState) : InitResponse :=
  if in_progress (analysis_progress st)
  then already_in_progress (analysis_progress st)
  else if initialized st then already_completed
  else analysis_started.

(** ** Vocabulary of the statements *)

(** The rows of one patient, of one site, of one (patient, site) pair, in
    frame order. *)
Definition rows_of_patient (df : list Net.t) (p : string) : list Net.t :=
  filter (λ r, Net.PATIENT_KEY r = p) df.

Definition rows_of_site (df : list Net.t) (s : string) : list Net.t :=
  filter (λ r, Net.SITE_CODE_OF_TREATMENT r = s) df.

Definition rows_of_pair (df : list Net.t) (p s : string) : list Net.t :=
  filter (λ r, Net.PATIENT_KEY r = p ∧ Net.SITE_CODE_OF_TREATMENT r = s) df.

(** Where a node's attributes come from. *)
Definition node_ok (df : list Net.t) (n : string) (d : NodeData) : Prop :=
  match d with
  | PatientNode a =>
      ∃ p first rest, n = patient_id p ∧ rows_of_patient df p = first :: rest ∧
        a = patient_attrs first (first :: rest)
  | SiteNode a =>
      ∃ s first rest, n = site_id s ∧ rows_of_site df s = first :: rest ∧
        a = site_attrs first (first :: rest)
  | BareNode => True
  end.

Definition nodes_ok (df : list Net.t) (G : Graph) : Prop :=
  ∀ n d, nodes G !! n = Some d → node_ok df n d.

(** The two orientations of an edge hold the same dictionary. *)
Definition symmetric (m : gmap (string * string) EdgeData) : Prop :=
  ∀ u v, m !! (u, v) = m !! (v, u).

Definition flag_ok (r : Net.t) : Prop := Net.DNA_FLAG r = 0 ∨ Net.DNA_FLAG r = 1.

Definition edge_ok (e : EdgeData) : Prop :=
  1 ≤ weight e ∧ 0 ≤ dna_count e ≤ weight e.

(** The edge a pair's rows add up to: metadata of [first], one unit of
    weight per row. *)
Definition edge_of_rows (first : Net.t) (rest : list Net.t) : EdgeData :=
  {| weight := 1 + len rest;
     dna_count := Net.DNA_FLAG first + sum_Z (Net.DNA_FLAG <$> rest);
     appointment_date := Net.APPOINTMENT_DATE first;
     treatment_function := Net.TREATMENT_FUNCTION_CODE first;
     referring_org := Net.REFERRING_ORGANISATION_CODE first;
     outcome := Net.OUTCOME_OF_ATTENDANCE first;
     edge_dna_rate := None |}.

Definition bump_edge (e : EdgeData) (rows : list Net.t) : EdgeData :=
  {| weight := weight e + len rows;
     dna_count := dna_count e + sum_Z (Net.DNA_FLAG <$> rows);
     appointment_date := appointment_date e;
     treatment_function := treatment_function e;
     referring_org := referring_org e;
     outcome := outcome e;
     edge_dna_rate := edge_dna_rate e |}.

(** ** Concrete frames *)

Definition appointment (p s code tf ref out : string) (date : Z) : Raw.t :=
  {| Raw.PATIENT_KEY := Some p; Raw.AGE := Some 40%Q;
     Raw.ORG_CODE_LOCAL_PATIENT_IDENTIFIER := None;
     Raw.ATTENDED_OR_DID_NOT_ATTEND := Some code;
     Raw.OUTCOME_OF_ATTENDANCE := Some out;
     Raw.POSTCODE_SECTOR_OF_USUAL_ADDRESS := None;
     Raw.APPOINTMENT_DATE := Some date;
     Raw.ORGANISATION_CODE_CODE_OF_PROVIDER := None;
     Raw.SITE_CODE_OF_TREATMENT := Some s;
     Raw.PROVIDER_LOCATION := None;
     Raw.TREATMENT_FUNCTION_CODE := Some tf;
     Raw.REFERRING_ORGANISATION_CODE := Some ref;
     Raw.REFERRAL_REQUEST_RECEIVED_DATE := None |}.

(** Patient P1: three appointments at one site, the first one missed. *)
Definition frame_P1 : list Raw.t :=
  [ appointment "P1" "S1" "3" "100" "R1" "1" 1;
    appointment "P1" "S1" "5" "200" "R2" "2" 2;
    appointment "P1" "S1" "5" "300" "R3" "3" 3 ].

Definition net_P1 : list Net.t := clean_for_network frame_P1.

Definition G_P1 : Graph :=
  default empty_graph (create_enhanced_bipartite_graph net_P1).

Definition attrs_P1 : PatientAttrs :=
  {| age := Some 40%Q; age_group := Adult; postcode := None; org_code := None;
     total_appointments := 3; total_dnas := 1;
     dna_rate := smoothed_rate 1 3; unique_sites := 1;
     risk_category := Medium |}.

Definition first_row_P1 : Net.t :=
  {| Net.PATIENT_KEY := "P1"; Net.AGE := Some 40%Q;
     Net.ORG_CODE_LOCAL_PATIENT_IDENTIFIER := None;
     Net.ATTENDED_OR_DID_NOT_ATTEND := "3";
     Net.OUTCOME_OF_ATTENDANCE := Some "1"%string;
     Net.POSTCODE_SECTOR_OF_USUAL_ADDRESS := None;
     Net.APPOINTMENT_DATE := Some 1;
     Net.ORGANISATION_CODE_CODE_OF_PROVIDER := None;
     Net.SITE_CODE_OF_TREATMENT := "S1";
     Net.PROVIDER_LOCATION := None;
     Net.TREATMENT_FUNCTION_CODE := Some "100"%string;
     Net.REFERRING_ORGANISATION_CODE := Some "R1"%string;
     Net.REFERRAL_REQUEST_RECEIVED_DATE := None;
     Net.DNA_FLAG := 1 |}.

Definition last_row_P1 : Net.t :=
  {| Net.PATIENT_KEY := "P1"; Net.AGE := Some 40%Q;
     Net.ORG_CODE_LOCAL_PATIENT_IDENTIFIER := None;
     Net.ATTENDED_OR_DID_NOT_ATTEND := "5";
     Net.OUTCOME_OF_ATTENDANCE := Some "3"%string;
     Net.POSTCODE_SECTOR_OF_USUAL_ADDRESS := None;
     Net.APPOINTMENT_DATE := Some 3;
     Net.ORGANISATION_CODE_CODE_OF_PROVIDER := None;
     Net.SITE_CODE_OF_TREATMENT := "S1";
     Net.PROVIDER_LOCATION := None;
     Net.TREATMENT_FUNCTION_CODE := Some "300"%string;
     Net.REFERRING_ORGANISATION_CODE := Some "R3"%string;
     Net.REFERRAL_REQUEST_RECEIVED_DATE := None;
     Net.DNA_FLAG := 0 |}.

Definition edge_P1 : EdgeData :=
  {| weight := 3; dna_count := 1; appointment_date := Some 1;
     treatment_function := Some "100"%string;
     referring_org := Some "R1"%string; outcome := Some "1"%string;
     edge_dna_rate := Some (inject_Z 1 / inject_Z 3)%Q |}.

(** The communities the filter keeps and the pooled nodes of the others,
    in the words of the specification. *)
Definition kept (cs : list (list string)) (min_size : Z) : list (list string) :=
  filter (λ c, min_size ≤ len c) cs.

Definition pooled (cs : list (list string)) (min_size : Z) : list string :=
  concat (filter (λ c, len c < min_size) cs).

(** [r] is the first index below [n] at which [key] is maximal. *)
Definition first_max (key : nat → Z) (n r : nat) : Prop :=
  (r < n)%nat ∧ (∀ j, (j < n)%nat → key j ≤ key r) ∧
  (∀ j, (j < r)%nat → key j < key r).

(** Position [i] holds the first of the largest communities of [l]. *)
Definition first_largest (l : list (list string)) (i : nat) : Prop :=
  (i < length l)%nat ∧
  (∀ j c, l !! j = Some c → len c ≤ len (default [] (l !! i))) ∧
  (∀ j c, (j < i)%nat → l !! j = Some c → len c < len (default [] (l !! i))).

(** A backend that answers every graph with the given partition. *)
Definition constant_backend (cs : list (list string)) : Cdlib :=
  {| leiden := λ _ _, Some cs;
     newman_girvan_modularity := λ _ _, Some 0%Q |}.



(** Three patients at one site: A attends 5 of 5 appointments, B misses 1
    of 5, C misses all of 35; their smoothed rates are 0.1, 0.2 and 0.9. *)
Definition frame_ABC : list Raw.t :=
  replicate 5 (appointment "A" "S1" "5" "100" "R1" "1" 1) ++
  [appointment "B" "S1" "3" "100" "R1" "1" 2] ++
  replicate 4 (appointment "B" "S1" "5" "100" "R1" "1" 3) ++
  replicate 35 (appointment "C" "S1" "3" "100" "R1" "1" 4).

Definition G_ABC : Graph :=
  default empty_graph
    (create_enhanced_bipartite_graph (clean_for_network frame_ABC)).

(** One community with the three patients and the site. *)
Definition communities_ABC : CommunityResult :=
  {| communities := [["P_A"; "P_B"; "P_C"; "S_S1"]]%string;
     method_name := "leiden_filtered" |}.

(** The patients in one community, the site alone in a second one. *)
Definition communities_ABC_site : CommunityResult :=
  {| communities := [["P_A"; "P_B"; "P_C"]; ["S_S1"]]%string;
     method_name := "leiden_filtered" |}.

Definition df_ABC : list CommunityStats :=
  default [] (analyze_community_dna_patterns G_ABC communities_ABC).

Definition df_ABC_site : list CommunityStats :=
  default [] (analyze_community_dna_patterns G_ABC communities_ABC_site).

(** A sampler standing for [df.sample]: it draws the first [n] rows,
    whatever the seed, and raises when asked for more rows than there are
    or for a negative number. *)
Definition sample_head (seed n : Z) (df : list Raw.t) : option (list Raw.t) :=
  if decide (0 ≤ n ≤ len df) then Some (take (Z.to_nat n) df) else None.

Definition env_unavailable : Env :=
  {| algorithms := None; pd_sample := sample_head |}.

Definition env_ABC : Env :=
  {| algorithms := Some (constant_backend (communities communities_ABC_site));
     pd_sample := sample_head |}.

Definition world_ABC (now np_state ambient : Z) : World :=
  {| data_files := inr frame_ABC; export_file := None; clock := now;
     np_random_state := np_state; entropy := ambient |}.

(** A partitioner is deterministic when its answer does not depend on the
    ambient state. *)
Definition deterministic (algorithms : option Cdlib) : Prop :=
  ∀ lib, algorithms = Some lib →
    ∀ e1 e2 G, leiden lib e1 G = leiden lib e2 G.

(** What of an export document does not depend on the time of writing. *)
Definition doc_content (doc : ExportDoc)
  : option Q * option Q * list ExportCommunity * list ExportNode :=
  (threshold_high (metadata doc), threshold_low (metadata doc),
   export_communities doc, export_nodes doc).

(** The site node of the frame of A, B and C. *)
Definition site_S1 : SiteAttrs :=
  {| provider_location := None; site_org_code := None;
     site_treatment_function := Some "100"%string;
     site_total_appointments := 45; site_total_dnas := 36;
     site_dna_rate := smoothed_rate 36 45; unique_patients := 3 |}.

(** [list(G.neighbors(node))]: the other ends of the edges at [node]. *)
Definition neighbors (G : Graph) (node : string) : list string :=
  snd <$> filter (λ k, k.1 = node) (map_to_list (adj G)).*1.

(** [G[u][v]['weight']] and [G[u][v]['dna_count']], 0 where there is no
    edge. *)
Definition edge_weight (G : Graph) (u v : string) : Z :=
  from_option weight 0 (adj G !! (u, v)).

Definition edge_dna_count (G : Graph) (u v : string) : Z :=
  from_option dna_count 0 (adj G !! (u, v)).

(** ** Insights ([generate_community_insights]) *)

(** The three kinds of dictionary the function appends; the two formatted
    texts of each are functions of the fields kept here. *)
Inductive Insight :=
| HighRiskInsight (id patients_affected : Z) (dna : Q) (target : AgeGroup)
| SitePerformance (avg_site_dna : Q)
| DemographicPattern (highest_risk_age : AgeGroup).

(** The labels of the age groups in the order of their strings, the order
    in which [groupby] lists its keys. *)
Definition age_groups_sorted : list AgeGroup :=
  [Adult; Child; Senior; Unknown; YoungAdult].

(** [community_df.groupby('dominant_age_group')['risk_score'].mean()] *)
Definition groupby_mean (community_df : list CommunityStats)
  : list (AgeGroup * Q) :=
  omap (λ g,
          let scores :=
            risk_score <$> filter (λ c, dominant_age_group c = g) community_df in
          if truthy scores then Some (g, mean scores) else None)
       age_groups_sorted.

(** First entry of [sort_values(ascending=False)]: an entry with the
    greatest mean.  pandas does not promise an order among equal means;
    this takes the earliest, and no statement below depends on that. *)
Definition first_desc (l : list (AgeGroup * Q)) : option (AgeGroup * Q) :=
  match l with
  | [] => None
  | x :: t => Some (foldl (λ best y, if Qltb best.2 y.2 then y else best) x t)
  end.

Definition generate_community_insights (community_df : list CommunityStats)
    (risk_communities : RiskCommunities) : list Insight :=
  let insights :=
    (λ comm, HighRiskInsight (community_id comm) (patients_count comm)
               (avg_dna_rate comm) (dominant_age_group comm))
      <$> high_risk risk_communities in
  let high_risk_comms := high_risk risk_communities in
  let insights :=
    if decide (0 < len high_risk_comms) then
      let avg_site_dna := mean (avg_site_dna_rate <$> high_risk_comms) in
      if Qgtb avg_site_dna (1 # 5)
      then insights ++ [SitePerformance avg_site_dna]
      else insights
    else insights in
  match first_desc (groupby_mean community_df) with
  | Some (highest_risk_age, _) =>
      insights ++ [DemographicPattern highest_risk_age]
  | None => insights
  end.

(** ** The service: the read endpoints ([api.py]) *)

#[global] Instance NodeType_eq_dec : EqDecision NodeType.
Proof. solve_decision. Defined.

Record AnalysisStatus := {
  status_initialized : bool;
  status_last_updated : option Z;
  progress : Progress;
  node_count : option Z;
  edge_count : option Z;
  community_count : option Z
}.

(** Truth value of a networkx graph: its [__len__] is its number of nodes. *)
Definition graph_truthy (G : Graph) : bool := bool_decide (nodes G ≠ ∅).

(** [GET /status].  The communities object is an instance of a class
    without [__len__] or [__bool__], so it is true whenever it is there. *)
Definition get_status (st : AnalysisState) : AnalysisStatus :=
  {| status_initialized := initialized st;
     status_last_updated := last_updated st;
     progress := analysis_progress st;
     node_count :=
       match graph st with
       | Some G =>
           if graph_truthy G then Some (Z.of_nat (size (nodes G))) else None
       | None => None
       end;
     edge_count :=
       match graph st with
       | Some G => if graph_truthy G then Some (number_of_edges G) else None
       | None => None
       end;
     community_count :=
       match state_communities st with
       | Some cs => Some (len (communities cs))
       | None => None
       end |}.

(** [GET /graph/data]: the document read back from the export file.  The
    check of the document against the response model is not part of the
    model. *)
Definition get_graph_data (st : AnalysisState) (w : World)
  : PyError + ExportDoc :=
  if negb (initialized st) then
    inl (HTTPException 400 "Analysis not initialized. Call /initialize first.")
  else
    match export_file w with
    | None =>
        inl (HTTPException 500 "Export data not found. Re-run initialization.")
    | Some data => inr data
    end.

(** The answer of [GET /communities/{community_id}] without its links,
    which the document model does not keep. *)
Record CommunityDetails := {
  details_community : ExportCommunity;
  details_nodes : list ExportNode;
  details_node_count : Z;
  details_patients : Z;
  details_sites : Z
}.

(** [GET /communities/{community_id}]; [open] raises when the export file
    is not there. *)
Definition get_community_details (st : AnalysisState) (w : World)
    (community_id : Z) : PyError + CommunityDetails :=
  if negb (initialized st) then
    inl (HTTPException 400 "Analysis not initialized.")
  else
    match export_file w with
    | None => inl (LibraryError "open")
    | Some data =>
        match head (filter (λ c, c_id c = community_id)
                      (export_communities data)) with
        | None =>
            inl (HTTPException 404
                   ("Community " +:+ pretty community_id +:+ " not found"))
        | Some community =>
            let community_nodes :=
              filter (λ n, n_community n = community_id) (export_nodes data) in
            inr {| details_community := community;
                   details_nodes := community_nodes;
                   details_node_count := len community_nodes;
                   details_patients :=
                     len (filter (λ n, n_type n = patient) community_nodes);
                   details_sites :=
                     len (filter (λ n, n_type n = site) community_nodes) |}
        end
    end.

(** [GET /insights].  The key ['risk_communities'] is in the dictionary
    from the start, so the second guard of the handler never fires; the
    library call raises when the frame is [None]. *)
Definition get_insights (st : AnalysisState) : PyError + list Insight :=
  if negb (initialized st) then
    inl (HTTPException 400 "Analysis not initialized.")
  else
    match community_df st, risk_communities st with
    | Some df, Some rc => inr (generate_community_insights df rc)
    | _, _ => inl (LibraryError "generate_community_insights")
    end.

(** ** A run that succeeds with the service's settings *)

(** Nine patients with one attended appointment each at one site: ten
    nodes, enough for one community of the service's minimum size. *)
Definition ward_patients : list string :=
  ["A"; "B"; "C"; "D"; "E"; "F"; "G"; "H"; "I"]%string.

Definition frame_ward : list Raw.t :=
  (λ p, appointment p "S1" "5" "100" "R1" "1" 1) <$> ward_patients.

Definition env_ward : Env :=
  {| algorithms :=
       Some (constant_backend
               [(patient_id <$> ward_patients) ++ [site_id "S1"]]);
     pd_sample := sample_head |}.

Definition world_ward (now : Z) : World :=
  {| data_files := inr frame_ward; export_file := None; clock := now;
     np_random_state := 0; entropy := 0 |}.

(** ** [data_prep.py]: fixed cutoffs and the backbone *)

Module data_prep.

(** [identify_high_low_risk_communities(community_df, high_threshold,
    low_threshold)] of [data_prep.py], whose cutoffs are parameters with
    the defaults 0.3 and 0.1. *)
Definition identify_high_low_risk_communities
    (community_df : list CommunityStats) (high_threshold low_threshold : Q)
  : RiskCommunities :=
  {| high_risk :=
       List.filter (λ c, Qle_bool high_threshold (risk_score c)) community_df;
     medium_risk :=
       List.filter (λ c, Qgtb (risk_score c) low_threshold
                         && Qltb (risk_score c) high_threshold) community_df;
     low_risk :=
       List.filter (λ c, Qle_bool (risk_score c) low_threshold) community_df |}.

(** [G.degree(node)]: a loop counts twice. *)
Definition degree (G : Graph) (node : string) : Z :=
  len (neighbors G node)
  + (if decide (is_Some (adj G !! (node, node))) then 1 else 0).

(** [(edge_weight / total_weight) ** (len(neighbors) - 1)] *)
Definition p_value (G : Graph) (node neighbor : string) : Q :=
  let nbrs := neighbors G node in
  let total_weight := sum_Z (edge_weight G node <$> nbrs) in
  Qpower (inject_Z (edge_weight G node neighbor) / inject_Z total_weight)
         (len nbrs - 1).

(** What one round of the outer loop appends to [edges_to_remove]; [None]
    is the [ZeroDivisionError] of a node whose weights add up to zero. *)
Definition node_removals (G : Graph) (alpha : Q) (node : string)
  : option (list (string * string)) :=
  if decide (1 < degree G node) then
    let nbrs := neighbors G node in
    let total_weight := sum_Z (edge_weight G node <$> nbrs) in
    if decide (total_weight = 0) then None
    else Some ((λ neighbor, (node, neighbor))
                 <$> filter (λ neighbor, Qltb (p_value G node neighbor) alpha
                                         = false) nbrs)
  else Some [].

(** [remove_edges_from]: an edge goes with both of its directions, and an
    edge that is not there is passed over. *)
Definition remove_edge (a : gmap (string * string) EdgeData)
    (e : string * string) : gmap (string * string) EdgeData :=
  delete (e.2, e.1) (delete e a).

Definition create_backbone (G : Graph) (alpha : Q) : option Graph :=
  edges_to_remove ← mapM (node_removals G alpha) (node_list G);
  Some {| nodes := nodes G;
          adj := foldl remove_edge (adj G) (concat edges_to_remove);
          position := position G |}.

(** The libraries behind [detect_communities_with_stats]; [None] from a
    function is an exception raised by it.  [cdlib_algorithms] is [None]
    when [cdlib] could not be imported, [spectral_clustering] when
    scikit-learn could not; the latter stands for turning the graph into a
    matrix, fitting [k] clusters and grouping the nodes by label. *)
Record CdlibAlgorithms := {
  leiden_randomness : Graph → option CommunityResult;
  louvain_randomness : Graph → option CommunityResult;
  newman_girvan : Graph → CommunityResult → option Q
}.

Record Detectors := {
  greedy_modularity_communities : Graph → option (list (list string));
  label_propagation_communities : Graph → option (list (list string));
  nx_modularity : Graph → list (list string) → option Q;
  cdlib_algorithms : option CdlibAlgorithms;
  spectral_clustering : option (Graph → Z → option (list (list string)))
}.

(** An entry of [results]. *)
Record Entry := {
  entry_result : CommunityResult;
  entry_modularity : Q
}.

(** The dictionary literal of an entry: [max] over the sizes raises when
    there is no community. *)
Definition make_entry (result : CommunityResult) (modularity : Q)
  : option Entry :=
  if truthy (communities result)
  then Some {| entry_result := result; entry_modularity := modularity |}
  else None.

(** One [try] block: its entry is added when nothing in it raised. *)
Definition attempt (name : string) (block : option Entry)
    (results : list (string * Entry)) : list (string * Entry) :=
  match block with
  | Some entry => results ++ [(name, entry)]
  | None => results
  end.

(** The loop over [k] of the spectral block: the best number of clusters
    so far, its score and its communities. *)
Definition spectral_step (d : Detectors)
    (fit : Graph → Z → option (list (list string))) (G : Graph)
    (acc : option (option Z * Q * list (list string))) (k : Z)
  : option (option Z * Q * list (list string)) :=
  '(best_k, best_score, best_communities) ← acc;
  if decide (k < Z.of_nat (size (nodes G))) then
    community_list ← fit G k;
    modularity ← nx_modularity d G community_list;
    if Qgtb modularity best_score
    then Some (Some k, modularity, community_list)
    else Some (best_k, best_score, best_communities)
  else Some (best_k, best_score, best_communities).

Definition spectral_block (d : Detectors)
    (fit : Graph → Z → option (list (list string))) (G : Graph)
  : option Entry :=
  let n := Z.of_nat (size (nodes G)) in
  '(best_k, best_score, best_communities) ←
    foldl (spectral_step d fit G) (Some (None, (-1)%Q, []))
      [10; 20; 50; Z.min 100 (n `div` 50)];
  match best_k with
  | Some k =>
      if decide (k = 0) then None
      else make_entry {| communities := best_communities;
                         method_name := "spectral_k" +:+ pretty k |}
             best_score
  | None => None
  end.

(** The dictionary [results] after the five blocks. *)
Definition collect_results (d : Detectors) (G : Graph)
  : list (string * Entry) :=
  let results := [] in
  let results :=
    attempt "Greedy Modularity"
      (greedy_comms ← greedy_modularity_communities d G;
       greedy_modularity ← nx_modularity d G greedy_comms;
       make_entry {| communities := greedy_comms;
                     method_name := "greedy_modularity" |} greedy_modularity)
      results in
  let results :=
    attempt "Label Propagation"
      (label_comms ← label_propagation_communities d G;
       label_modularity ← nx_modularity d G label_comms;
       make_entry {| communities := label_comms;
                     method_name := "label_propagation" |} label_modularity)
      results in
  let results :=
    match cdlib_algorithms d with
    | Some algorithms =>
        attempt "Leiden"
          (leiden_result ← leiden_randomness algorithms G;
           leiden_modularity ← newman_girvan algorithms G leiden_result;
           make_entry leiden_result leiden_modularity)
          results
    | None => results
    end in
  let results :=
    match cdlib_algorithms d with
    | Some algorithms =>
        attempt "Louvain"
          (louvain_result ← louvain_randomness algorithms G;
           louvain_modularity ← newman_girvan algorithms G louvain_result;
           make_entry louvain_result louvain_modularity)
          results
    | None => results
    end in
  match spectral_clustering d with
  | Some fit =>
      if decide (Z.of_nat (size (nodes G)) < 5000)
      then attempt "Spectral Clustering" (spectral_block d fit G) results
      else results
  | None => results
  end.

(** The comparison loop: the name and the score of the best so far. *)
Definition best_step (acc : option string * Q) (item : string * Entry)
  : option string * Q :=
  if Qgtb (entry_modularity item.2) acc.2
  then (Some item.1, entry_modularity item.2)
  else acc.

Definition lookup_result (results : list (string * Entry)) (name : string)
  : option Entry :=
  snd <$> head (filter (λ item, item.1 = name) results).

(** [detect_communities_with_stats]; [None] is the [RuntimeError]. *)
Definition detect_communities_with_stats (d : Detectors) (G : Graph)
    (min_community_size : Z) : option CommunityResult :=
  let results := collect_results d G in
  let best_algorithm := (foldl best_step (None, (-1)%Q) results).1 in
  match best_algorithm ≫= lookup_result results with
  | Some best =>
      Some (filter_communities_by_size (entry_result best) min_community_size)
  | None =>
      match lookup_result results "Greedy Modularity" with
      | Some fallback =>
          Some (filter_communities_by_size (entry_result fallback)
                  min_community_size)
      | None => None
      end
  end.

End data_prep.


(** What [create_backbone] asks of an edge at one of its ends: the end has
    at most one edge, or the edge's share of the end's weight, raised to
    the number of the end's other neighbours, is below [alpha]. *)
Definition passes_at (G : Graph) (alpha : Q) (u v : string) : Prop :=
  data_prep.degree G u ≤ 1 ∨ Qltb (data_prep.p_value G u v) alpha = true.

(** A patient with the same number of appointments at each of two sites. *)
Definition frame_two_sites : list Raw.t :=
  [ appointment "A" "S1" "5" "100" "R1" "1" 1;
    appointment "A" "S2" "5" "100" "R1" "1" 2 ].

Definition G_two_sites : Graph :=
  default empty_graph
    (create_enhanced_bipartite_graph (clean_for_network frame_two_sites)).

(** Two algorithms that answer the graph of A, B and C: the greedy one
    with two communities and modularity 0.3, label propagation with one
    community and modularity 0.5; no [cdlib], no scikit-learn. *)
Definition detectors_ABC : data_prep.Detectors :=
  {| data_prep.greedy_modularity_communities :=
       λ _, Some [["P_A"; "P_B"]; ["P_C"; "S_S1"]]%string;
     data_prep.label_propagation_communities :=
       λ _, Some [["P_A"; "P_B"; "P_C"; "S_S1"]]%string;
     data_prep.nx_modularity :=
       λ _ c, Some (if decide (length c = 1%nat) then 1 # 2 else 3 # 10);
     data_prep.cdlib_algorithms := None;
     data_prep.spectral_clustering := None |}.

(** ** The web application ([webapp.py]) *)

(** The module has its own copies of the pipeline's functions.  Those of
    [sample_data_for_network], [clean_for_network],
    [create_enhanced_bipartite_graph], [analyze_community_dna_patterns]
    (which computes the risk score in place, by the same expression) and
    [identify_high_low_risk_communities] compute what the functions above
    compute; the two that differ are given here. *)
Module webapp.

(** [detect_communities_leiden] without the report of the smallest and the
    largest community: an empty partition passes. *)
Definition detect_communities_leiden (algorithms : option Cdlib)
    (entropy : Z) (G : Graph) (min_community_size : Z)
  : option CommunityResult :=
  match algorithms with
  | None => None
  | Some lib =>
      leiden_result ← leiden lib entropy G;
      _ ← newman_girvan_modularity lib G leiden_result;
      let '(large_communities, small_nodes) :=
        split_by_size leiden_result min_community_size in
      let large_communities :=
        if truthy small_nodes && truthy large_communities
        then merge_small large_communities small_nodes
        else large_communities in
      Some {| communities := large_communities;
              method_name := "leiden_filtered" |}
  end.

(** [export_for_d3js], whose three counts are taken from the labels of the
    community entries. *)
Definition export_for_d3js (G : Graph) (cs : CommunityResult)
    (community_df : list CommunityStats) (now : Z) : option ExportDoc :=
  let ntc := node_to_community (communities cs) in
  let high_threshold := quantile (risk_score <$> community_df) (3 # 4) in
  let low_threshold := quantile (risk_score <$> community_df) (1 # 4) in
  d3_nodes ← mapM (export_node G ntc community_df high_threshold low_threshold)
                (node_list G);
  let communities_data :=
    export_community high_threshold low_threshold <$> community_df in
  Some {| metadata :=
            {| total_nodes := Z.of_nat (size (nodes G));
               total_edges := number_of_edges G;
               total_communities := len (communities cs);
               high_risk_communities :=
                 len (filter (λ c, c_risk_level c = High) communities_data);
               medium_risk_communities :=
                 len (filter (λ c, c_risk_level c = Medium) communities_data);
               low_risk_communities :=
                 len (filter (λ c, c_risk_level c = Low) communities_data);
               threshold_high := high_threshold;
               threshold_low := low_threshold;
               generated_at := now;
               algorithm := "leiden" |};
          export_nodes := d3_nodes;
          export_communities := communities_data |}.

Inductive Status := not_started | loading | completed | error.

(** What ends a run early: an exception while loading or sampling, wrapped
    as ["Failed to load data: ..."], the detection that returned [None],
    or an exception of a library call. *)
Inductive Failure :=
| FailedToLoad (cause : PyError)
| DetectionFailed
| Raised (e : PyError).

(** The texts of [analysis_state["message"]]. *)
Inductive Message :=
| ReadyToStart | StartingAnalysis | LoadingData | CleaningData
| CreatingGraph | DetectingCommunities | AnalyzingPatterns | ExportingData
| AnalysisComplete (found : Z)
| AnalysisFailed (e : Failure).

Record Settings := {
  sample_size : Z;
  min_community_size : Z;
  use_sample : bool
}.

Record State := {
  status : Status;
  progress : Z;
  message : Message;
  data : option ExportDoc;
  settings : Settings
}.

Definition initial_state : State :=
  {| status := not_started; progress := 0; message := ReadyToStart;
     data := None;
     settings := {| sample_size := 20000; min_community_size := 10;
                    use_sample := true |} |}.

(** [POST /settings] *)
Definition update_settings (st : State) (size min_size : Z) (sample : bool)
  : State :=
  {| status := status st; progress := progress st; message := message st;
     data := data st;
     settings := {| sample_size := size; min_community_size := min_size;
                    use_sample := sample |} |}.

(** One checkpoint of a run: [progress] and [message] are set. *)
Definition checkpoint (st : State) (p : Z) (m : Message) : State :=
  {| status := status st; progress := p; message := m; data := data st;
     settings := settings st |}.

(** The [except] branch. *)
Definition failed (st : State) (e : Failure) : State :=
  {| status := error; progress := progress st; message := AnalysisFailed e;
     data := data st; settings := settings st |}.

(** [load_and_preprocess_data(sample_size)]: [None] is no sampling. *)
Definition load_and_preprocess_data (env : Env) (w : World)
    (size : option Z) : (Failure + list Raw.t) * World :=
  match data_files w with
  | inl msg => (inl (FailedToLoad (Exception msg)), w)
  | inr graph_df =>
      match size with
      | Some n =>
          if bool_decide (n ≠ 0) && bool_decide (n < len graph_df) then
            let '(sampled, np_state) :=
              sample_data_for_network env graph_df n 42 (np_random_state w) in
            let w' := {| data_files := data_files w;
                         export_file := export_file w; clock := clock w;
                         np_random_state := np_state;
                         entropy := entropy w |} in
            match sampled with
            | Some df => (inr df, w')
            | None =>
                (inl (FailedToLoad (LibraryError "sample_data_for_network")),
                 w')
            end
          else (inr graph_df, w)
      | None => (inr graph_df, w)
      end
  end.

(** [run_analysis]: every exception ends in the [except] branch, none
    leaves the function. *)
Definition run_analysis (env : Env) (s : State * World) : State * World :=
  let st := s.1 in
  let settings := settings st in
  let st := {| status := loading; progress := 10; message := LoadingData;
               data := data st; settings := settings |} in
  match load_and_preprocess_data env s.2
          (if use_sample settings then Some (sample_size settings)
           else None) with
  | (inl e, w) => (failed st e, w)
  | (inr processed_df, w) =>
      let st := checkpoint st 30 CleaningData in
      let network_data := clean_for_network processed_df in
      let st := checkpoint st 50 CreatingGraph in
      match create_enhanced_bipartite_graph network_data with
      | None =>
          (failed st (Raised (LibraryError "create_enhanced_bipartite_graph")),
           w)
      | Some G =>
          let st := checkpoint st 70 DetectingCommunities in
          match detect_communities_leiden (algorithms env) (entropy w) G
                  (min_community_size settings) with
          | None => (failed st DetectionFailed, w)
          | Some cs =>
              let st := checkpoint st 85 AnalyzingPatterns in
              match analyze_community_dna_patterns G cs with
              | None =>
                  (failed st
                     (Raised (LibraryError "analyze_community_dna_patterns")),
                   w)
              | Some community_df =>
                  let st := checkpoint st 95 ExportingData in
                  match export_for_d3js G cs community_df (clock w) with
                  | None =>
                      (failed st (Raised (LibraryError "export_for_d3js")), w)
                  | Some export_data =>
                      ({| status := completed; progress := 100;
                          message := AnalysisComplete (len (communities cs));
                          data := Some export_data; settings := settings |},
                       {| data_files := data_files w;
                          export_file := Some export_data; clock := clock w;
                          np_random_state := np_random_state w;
                          entropy := entropy w |})
                  end
              end
          end
      end
  end.

Inductive StartResponse := already_in_progress | analysis_started.

#[global] Instance Status_eq_dec : EqDecision Status.
Proof. solve_decision. Defined.

(** [POST /start-analysis]: the answer and the dictionary after the
    handler, before the scheduled run. *)
Definition start_analysis (st : State) : StartResponse * State :=
  if decide (status st = loading) then (already_in_progress, st)
  else (analysis_started,
        {| status := loading; progress := 0; message := StartingAnalysis;
           data := data st; settings := settings st |}).

(** [GET /status] *)
Definition get_status (st : State) : Status * Z * Message :=
  (status st, progress st, message st).

(** [GET /graph-data]: [None] is the answer
    [{"error": "No data available. Please run analysis first."}]; an export
    document is a dictionary with keys, hence true. *)
Definition get_graph_data (st : State) : option ExportDoc :=
  if decide (status st = completed) then data st else None.

End webapp.

(** * Properties *)

(** ** Lists and loops *)

Lemma elem_of_unique (l : list string) (x : string) : x ∈ unique l ↔ x ∈ l.
Proof.
  induction l as [|y t IH]; simpl; [done|].
  rewrite !elem_of_cons, list_elem_of_filter, IH.
  destruct (decide (x = y)) as [->|Hne].
  - split; intros _; by left.
  - split.
    + intros [?|[_ ?]]; [done|by right].
    + intros [?|?]; [done|by right].
Qed.

Lemma for_each_invariant {S A} (P : S → Prop) (body : S → A → option S)
    (l : list A) :
  (∀ s x s', x ∈ l → P s → body s x = Some s' → P s') →
  ∀ s s', P s → for_each body l s = Some s' → P s'.
Proof.
  induction l as [|x t IH]; intros Hstep s s' Hs Hrun; simpl in Hrun.
  - by simplify_eq.
  - destruct (body s x) as [s1|] eqn:Hb; simpl in Hrun; [|done].
    apply (IH (λ s0 y s0' Hy, Hstep s0 y s0' (list_elem_of_further _ _ _ Hy)) s1);
      [|done].
    eapply Hstep; [apply list_elem_of_here|done..].
Qed.

Lemma for_each_total {S A} (body : S → A → option S) (l : list A) :
  (∀ s x, x ∈ l → is_Some (body s x)) →
  ∀ s, is_Some (for_each body l s).
Proof.
  induction l as [|x t IH]; intros Hstep s; simpl; [by eexists|].
  destruct (Hstep s x) as [s1 ->]; [apply list_elem_of_here|]. simpl.
  apply IH. intros s0 y Hy. apply Hstep. by apply list_elem_of_further.
Qed.

Lemma foldl_invariant {S A} (P : S → Prop) (f : S → A → S) (l : list A) :
  (∀ s x, x ∈ l → P s → P (f s x)) → ∀ s, P s → P (foldl f s l).
Proof.
  induction l as [|x t IH]; intros Hstep s Hs; simpl; [done|].
  apply IH.
  - intros s0 y Hy. apply Hstep. by apply list_elem_of_further.
  - apply Hstep; [apply list_elem_of_here|done].
Qed.

Lemma head_filter_is_Some {A} (P : A → Prop) `{∀ x, Decision (P x)}
    (l : list A) (x : A) :
  x ∈ l → P x → ∃ y rest, filter P l = y :: rest.
Proof.
  intros Hx HP.
  assert (x ∈ filter P l) as Hin by (apply list_elem_of_filter; done).
  destruct (filter P l) as [|y rest]; [by apply elem_of_nil in Hin|eauto].
Qed.

(** ** Node identifiers *)

Lemma patient_id_inj p q : patient_id p = patient_id q → p = q.
Proof. apply (inj (String.app "P_")). Qed.

Lemma site_id_inj s t : site_id s = site_id t → s = t.
Proof. apply (inj (String.app "S_")). Qed.

Lemma patient_id_ne_site_id p s : patient_id p ≠ site_id s.
Proof.
  intros H. unfold patient_id, site_id, String.append in H. discriminate.
Qed.

(** ** Smoothed rates *)

Lemma smoothed_rate_bounds (d a : Z) :
  1 ≤ a → 0 ≤ d ≤ a →
  (0 < smoothed_rate d a)%Q ∧ (smoothed_rate d a < 1)%Q.
Proof.
  intros Ha Hd. unfold smoothed_rate.
  assert (0 < inject_Z (a + 5))%Q as Hpos.
  { change 0%Q with (inject_Z 0). rewrite <- Zlt_Qlt. lia. }
  split.
  - apply Qlt_shift_div_l; [done|]. rewrite Qmult_0_l.
    change 0%Q with (inject_Z 0). rewrite <- Zlt_Qlt. lia.
  - apply Qlt_shift_div_r; [done|]. rewrite Qmult_1_l.
    rewrite <- Zlt_Qlt. lia.
Qed.

Lemma classify_risk_High (r : Q) : classify_risk r = High ↔ (3 # 10 < r)%Q.
Proof.
  unfold classify_risk, Qgtb.
  destruct (Qle_bool r (3 # 10)) eqn:H3; simpl.
  - apply Qle_bool_iff in H3.
    split; [by destruct (Qle_bool r (1 # 10))|].
    intros Hlt. exfalso. lra.
  - split; [|done]. intros _. apply Qnot_le_lt. intros Hle.
    apply Qle_bool_iff in Hle. congruence.
Qed.

Lemma classify_risk_Medium (r : Q) :
  classify_risk r = Medium ↔ (1 # 10 < r)%Q ∧ (r <= 3 # 10)%Q.
Proof.
  unfold classify_risk, Qgtb.
  destruct (Qle_bool r (3 # 10)) eqn:H3; simpl.
  - apply Qle_bool_iff in H3.
    destruct (Qle_bool r (1 # 10)) eqn:H1; simpl.
    + apply Qle_bool_iff in H1. split; [done|]. intros [? _]. exfalso. lra.
    + split; [|done]. intros _. split; [|done]. apply Qnot_le_lt. intros Hle.
      apply Qle_bool_iff in Hle. congruence.
  - split; [done|]. intros [_ Hle]. apply Qle_bool_iff in Hle. congruence.
Qed.

Lemma classify_risk_Low (r : Q) : classify_risk r = Low ↔ (r <= 1 # 10)%Q.
Proof.
  unfold classify_risk, Qgtb.
  destruct (Qle_bool r (3 # 10)) eqn:H3; simpl.
  - destruct (Qle_bool r (1 # 10)) eqn:H1; simpl.
    + apply Qle_bool_iff in H1. done.
    + split; [done|]. intros Hle. apply Qle_bool_iff in Hle. congruence.
  - split; [done|]. intros Hle. exfalso.
    assert (r <= 3 # 10)%Q as Hle' by lra.
    apply Qle_bool_iff in Hle'. congruence.
Qed.

(** ** Nodes of the constructed graph *)

Lemma touch_node_lookup n m k d :
  touch_node n m !! k = Some d → m !! k = Some d ∨ d = BareNode.
Proof.
  unfold touch_node. destruct (m !! n) eqn:Hn; [by left|].
  rewrite lookup_insert. case_decide; [|by left]. intros [= <-]. by right.
Qed.

Lemma add_patient_spec df G p G' :
  add_patient df G p = Some G' →
  ∃ first rest, rows_of_patient df p = first :: rest ∧
    G' = add_node G (patient_id p) (PatientNode (patient_attrs first (first :: rest))).
Proof.
  unfold add_patient, rows_of_patient.
  destruct (filter _ df) as [|first rest]; simpl; [done|].
  intros [= <-]. eauto.
Qed.

Lemma add_site_spec df G s G' :
  add_site df G s = Some G' →
  ∃ first rest, rows_of_site df s = first :: rest ∧
    G' = add_node G (site_id s) (SiteNode (site_attrs first (first :: rest))).
Proof.
  unfold add_site, rows_of_site.
  destruct (filter _ df) as [|first rest]; simpl; [done|].
  intros [= <-]. eauto.
Qed.

Lemma add_row_nodes_ok df G row : nodes_ok df G → nodes_ok df (add_row G row).
Proof.
  intros HG n d. unfold add_row.
  destruct (has_edge G _ _); simpl; [apply HG|].
  intros [H| ->]%touch_node_lookup; [|done].
  apply touch_node_lookup in H as [H| ->]; [by apply HG|done].
Qed.

Lemma patient_loop_spec df ps G G' :
  for_each (add_patient df) ps G = Some G' →
  nodes_ok df G → nodes_ok df G' ∧ adj G' = adj G.
Proof.
  intros Hrun HG.
  apply (for_each_invariant (λ G0, nodes_ok df G0 ∧ adj G0 = adj G)
           (add_patient df) ps) with (s := G); [|done|done].
  intros G0 p G1 _ [Hok Hadj] (first & rest & Hrows & ->)%add_patient_spec.
  split; [|done]. intros n d. simpl. rewrite lookup_insert.
  case_decide as Hn; [|apply Hok]. intros [= <-]. simpl. eauto 10.
Qed.

Lemma site_loop_spec df ss G G' :
  for_each (add_site df) ss G = Some G' →
  nodes_ok df G → nodes_ok df G' ∧ adj G' = adj G.
Proof.
  intros Hrun HG.
  apply (for_each_invariant (λ G0, nodes_ok df G0 ∧ adj G0 = adj G)
           (add_site df) ss) with (s := G); [|done|done].
  intros G0 s G1 _ [Hok Hadj] (first & rest & Hrows & ->)%add_site_spec.
  split; [|done]. intros n d. simpl. rewrite lookup_insert.
  case_decide as Hn; [|apply Hok]. intros [= <-]. simpl. eauto 10.
Qed.

(** Graph construction never raises: every patient and every site of the
    loops has a first record. *)
Lemma create_enhanced_bipartite_graph_total (df : list Net.t) :
  is_Some (create_enhanced_bipartite_graph df).
Proof.
  unfold create_enhanced_bipartite_graph.
  destruct (for_each_total (add_patient df) (unique (Net.PATIENT_KEY <$> df)))
    with (s := empty_graph) as [G1 ->].
  { intros G p [r [-> Hr]]%elem_of_unique%list_elem_of_fmap.
    unfold add_patient.
    destruct (head_filter_is_Some
                (λ r0, Net.PATIENT_KEY r0 = Net.PATIENT_KEY r) df r)
      as (y & rest & ->); [done..|]. by eexists. }
  simpl.
  destruct (for_each_total (add_site df)
              (unique (Net.SITE_CODE_OF_TREATMENT <$> df)))
    with (s := G1) as [G2 ->].
  { intros G s [r [-> Hr]]%elem_of_unique%list_elem_of_fmap.
    unfold add_site.
    destruct (head_filter_is_Some
                (λ r0, Net.SITE_CODE_OF_TREATMENT r0 = Net.SITE_CODE_OF_TREATMENT r)
                df r)
      as (y & rest & ->); [done..|]. by eexists. }
  simpl. by eexists.
Qed.

Lemma edge_loop_spec df rows Ga Gb :
  nodes_ok df Ga → adj Ga = adj Gb →
  nodes_ok df (foldl add_row Ga rows) ∧
  adj (foldl add_row Ga rows) = adj (foldl add_row Gb rows).
Proof.
  revert Ga Gb. induction rows as [|r t IH]; intros Ga Gb Hok Hadj; simpl;
    [done|].
  apply IH; [by apply add_row_nodes_ok|].
  unfold add_row, has_edge. rewrite Hadj.
  destruct (bool_decide _); simpl; by rewrite Hadj.
Qed.

(** The graph before the last loop, which only sets each edge's rate. *)
Lemma create_enhanced_bipartite_graph_inv (df : list Net.t) (G : Graph) :
  create_enhanced_bipartite_graph df = Some G →
  nodes_ok df G ∧
  adj G = set_edge_rate <$> adj (foldl add_row empty_graph df).
Proof.
  unfold create_enhanced_bipartite_graph.
  destruct (for_each (add_patient df) _ empty_graph) as [G1|] eqn:H1;
    simpl; [|done].
  destruct (for_each (add_site df) _ G1) as [G2|] eqn:H2; simpl; [|done].
  intros [= <-]. simpl.
  apply patient_loop_spec in H1 as [Hok1 Hadj1]; [|by intros n d; simpl].
  apply site_loop_spec in H2 as [Hok2 Hadj2]; [|done].
  assert (nodes_ok df (foldl add_row G2 df) ∧
          adj (foldl add_row G2 df) = adj (foldl add_row empty_graph df))
    as [Hn Ha].
  { apply edge_loop_spec; [done|congruence]. }
  split; [done|]. by rewrite Ha.
Qed.

(** ** Edges of the constructed graph *)

Lemma len_cons {A} (x : A) (l : list A) : len (x :: l) = 1 + len l.
Proof. unfold len. simpl length. lia. Qed.

Lemma len_nonneg {A} (l : list A) : 0 ≤ len l.
Proof. unfold len. lia. Qed.

Lemma sum_Z_cons (x : Z) (l : list Z) : sum_Z (x :: l) = x + sum_Z l.
Proof. reflexivity. Qed.

Ltac edge_eq :=
  unfold bump_edge, edge_of_rows;
  cbn [weight dna_count appointment_date treatment_function referring_org
       outcome edge_dna_rate];
  rewrite ?fmap_cons, ?fmap_nil, ?sum_Z_cons, ?len_cons;
  change (len (@nil Net.t)) with 0; change (sum_Z []) with 0;
  f_equal; lia.

Lemma bump_edge_cons e r rows :
  bump_edge (bump_edge e [r]) rows = bump_edge e (r :: rows).
Proof. edge_eq. Qed.

Lemma bump_edge_first r rows :
  bump_edge (edge_of_rows r []) rows = edge_of_rows r rows.
Proof. edge_eq. Qed.

Lemma bump_edge_nil e : bump_edge e [] = e.
Proof. destruct e. edge_eq. Qed.

Lemma add_row_lookup_same G r :
  adj (add_row G r)
    !! (patient_id (Net.PATIENT_KEY r), site_id (Net.SITE_CODE_OF_TREATMENT r)) =
  Some (match adj G !! (patient_id (Net.PATIENT_KEY r),
                        site_id (Net.SITE_CODE_OF_TREATMENT r)) with
        | Some e => bump_edge e [r]
        | None => edge_of_rows r []
        end).
Proof.
  unfold add_row, has_edge.
  set (a := patient_id _). set (b := site_id _).
  assert ((b, a) ≠ (a, b)) as Hne.
  { intros H. apply (f_equal fst) in H. simpl in H.
    by apply eq_sym, patient_id_ne_site_id in H. }
  destruct (adj G !! (a, b)) as [e|] eqn:Hk.
  - rewrite bool_decide_eq_true_2 by by eexists. simpl.
    rewrite lookup_alter_ne by done. rewrite lookup_alter_eq, Hk. simpl.
    f_equal. edge_eq.
  - rewrite bool_decide_eq_false_2 by (by intros [? ?]). simpl.
    rewrite lookup_insert_ne by done. rewrite lookup_insert_eq.
    f_equal. edge_eq.
Qed.

Lemma add_row_lookup_other G r k :
  k ≠ (patient_id (Net.PATIENT_KEY r), site_id (Net.SITE_CODE_OF_TREATMENT r)) →
  k ≠ (site_id (Net.SITE_CODE_OF_TREATMENT r), patient_id (Net.PATIENT_KEY r)) →
  adj (add_row G r) !! k = adj G !! k.
Proof.
  intros H1 H2. unfold add_row. destruct (has_edge G _ _); simpl.
  - by rewrite !lookup_alter_ne.
  - by rewrite !lookup_insert_ne.
Qed.

(** What the edge loop leaves under a (patient, site) key. *)
Lemma edge_loop_lookup (rows : list Net.t) (G : Graph) (p s : string) :
  adj (foldl add_row G rows) !! (patient_id p, site_id s) =
  match adj G !! (patient_id p, site_id s), rows_of_pair rows p s with
  | Some e, m => Some (bump_edge e m)
  | None, [] => None
  | None, first :: rest => Some (edge_of_rows first rest)
  end.
Proof.
  revert G. induction rows as [|r t IH]; intros G.
  - simpl. destruct (adj G !! _) as [e|]; [|done].
    by rewrite bump_edge_nil.
  - simpl foldl. rewrite IH. unfold rows_of_pair.
    destruct (decide (Net.PATIENT_KEY r = p ∧ Net.SITE_CODE_OF_TREATMENT r = s))
      as [[<- <-]|Hne].
    + rewrite filter_cons_True by done. rewrite add_row_lookup_same.
      fold (rows_of_pair t (Net.PATIENT_KEY r) (Net.SITE_CODE_OF_TREATMENT r)).
      destruct (adj G !! _) as [e|].
      * by rewrite bump_edge_cons.
      * by rewrite bump_edge_first.
    + rewrite filter_cons_False by done. rewrite add_row_lookup_other; [done|..].
      * intros H. destruct Hne. split.
        -- apply (f_equal fst) in H. simpl in H. by apply patient_id_inj in H.
        -- apply (f_equal snd) in H. simpl in H. by apply site_id_inj in H.
      * intros H. apply (f_equal fst) in H. simpl in H.
        by apply patient_id_ne_site_id in H.
Qed.

Lemma clean_for_network_flags (df : list Raw.t) :
  Forall flag_ok (clean_for_network df).
Proof.
  apply Forall_forall. intros r (x & _ & Hx)%list_elem_of_omap.
  unfold clean_row in Hx.
  destruct (Raw.PATIENT_KEY x), (Raw.SITE_CODE_OF_TREATMENT x); simplify_eq.
  unfold flag_ok, dna_flag. simpl. destruct (_ || _); auto.
Qed.

Lemma symmetric_alter m f a b :
  symmetric m → symmetric (alter f (b, a) (alter f (a, b) m)).
Proof.
  intros Hsym u v. rewrite !lookup_alter.
  rewrite (Hsym b a), (Hsym v u).
  repeat case_decide; congruence.
Qed.

Lemma symmetric_insert m (d : EdgeData) a b :
  symmetric m → symmetric (<[(b, a) := d]> (<[(a, b) := d]> m)).
Proof.
  intros Hsym u v. rewrite !lookup_insert.
  rewrite (Hsym v u).
  repeat case_decide; congruence.
Qed.

Lemma edge_loop_symmetric (rows : list Net.t) (G : Graph) :
  symmetric (adj G) → symmetric (adj (foldl add_row G rows)).
Proof.
  apply (foldl_invariant (λ G0, symmetric (adj G0))).
  intros G0 r _ Hsym. unfold add_row.
  destruct (has_edge G0 _ _); simpl.
  - by apply symmetric_alter.
  - by apply symmetric_insert.
Qed.

Lemma alter_preserves (P : EdgeData → Prop) (f : EdgeData → EdgeData)
    (i : string * string) (m : gmap (string * string) EdgeData) :
  (∀ x, P x → P (f x)) →
  (∀ k e, m !! k = Some e → P e) →
  ∀ k e, alter f i m !! k = Some e → P e.
Proof.
  intros Hf Hm k e. rewrite lookup_alter. case_decide as Hk; [|apply Hm].
  destruct (m !! i) as [x|] eqn:Hx; simpl; [|done].
  intros [= <-]. eauto.
Qed.

Lemma insert_preserves (P : EdgeData → Prop) (d : EdgeData)
    (i : string * string) (m : gmap (string * string) EdgeData) :
  P d →
  (∀ k e, m !! k = Some e → P e) →
  ∀ k e, <[i := d]> m !! k = Some e → P e.
Proof.
  intros Hd Hm k e. rewrite lookup_insert. case_decide as Hk; [|apply Hm].
  by intros [= <-].
Qed.

Lemma edge_loop_ok (rows : list Net.t) (G : Graph) :
  Forall flag_ok rows →
  (∀ k e, adj G !! k = Some e → edge_ok e) →
  ∀ k e, adj (foldl add_row G rows) !! k = Some e → edge_ok e.
Proof.
  intros Hflags.
  apply (foldl_invariant (λ G0, ∀ k e, adj G0 !! k = Some e → edge_ok e)).
  intros G0 r Hr Hok.
  assert (flag_ok r) as Hf by (eapply Forall_forall in Hflags; done).
  unfold add_row. destruct (has_edge G0 _ _); simpl.
  - assert (∀ e0, edge_ok e0 →
              edge_ok {| weight := weight e0 + 1;
                         dna_count := dna_count e0 + Net.DNA_FLAG r;
                         appointment_date := appointment_date e0;
                         treatment_function := treatment_function e0;
                         referring_org := referring_org e0;
                         outcome := outcome e0;
                         edge_dna_rate := edge_dna_rate e0 |}) as Hstep.
    { intros e0 (? & ? & ?). unfold edge_ok, flag_ok in *. simpl. lia. }
    by do 2 (apply alter_preserves; [done|]).
  - assert (edge_ok {| weight := 1;
                       dna_count := Net.DNA_FLAG r;
                       appointment_date := Net.APPOINTMENT_DATE r;
                       treatment_function := Net.TREATMENT_FUNCTION_CODE r;
                       referring_org := Net.REFERRING_ORGANISATION_CODE r;
                       outcome := Net.OUTCOME_OF_ATTENDANCE r;
                       edge_dna_rate := None |}) as Hnew.
    { unfold edge_ok, flag_ok in *. simpl. lia. }
    by do 2 (apply insert_preserves; [done|]).
Qed.

(** ** Graph construction: the claims *)

Lemma create_patient_node (df : list Net.t) (G : Graph) (n : string)
    (attrs : PatientAttrs) :
  create_enhanced_bipartite_graph df = Some G →
  nodes G !! n = Some (PatientNode attrs) →
  ∃ p first rest, n = patient_id p ∧ rows_of_patient df p = first :: rest ∧
    attrs = patient_attrs first (first :: rest).
Proof.
  intros [Hok _]%create_enhanced_bipartite_graph_inv Hn. exact (Hok _ _ Hn).
Qed.

(** Counts of a patient in a cleaned frame: at least one appointment, and
    between none and all of them missed. *)
Lemma sum_flags_bounds (rows : list Net.t) :
  Forall flag_ok rows → 0 ≤ sum_Z (Net.DNA_FLAG <$> rows) ≤ len rows.
Proof.
  induction 1 as [|r t Hr _ IH].
  - by compute.
  - rewrite fmap_cons, sum_Z_cons, len_cons. unfold flag_ok in Hr. lia.
Qed.

Lemma clean_patient_counts (df : list Raw.t) (G : Graph) (n : string)
    (attrs : PatientAttrs) :
  create_enhanced_bipartite_graph (clean_for_network df) = Some G →
  nodes G !! n = Some (PatientNode attrs) →
  1 ≤ total_appointments attrs ∧
  0 ≤ total_dnas attrs ≤ total_appointments attrs.
Proof.
  intros HG Hn.
  destruct (create_patient_node _ _ _ _ HG Hn) as (p & first & rest & _ & Hrows & ->).
  cbn [total_appointments total_dnas patient_attrs].
  fold (len (first :: rest)). split.
  - rewrite len_cons. pose proof (len_nonneg rest). lia.
  - apply sum_flags_bounds. rewrite <- Hrows. unfold rows_of_patient.
    apply Forall_forall. intros r [_ Hr]%list_elem_of_filter.
    by eapply Forall_forall in Hr; [|apply clean_for_network_flags].
Qed.

(** C3: a patient node with [a >= 1] appointments and [0 <= d <= a] missed
    ones stores [dna_rate = (d + 1) / (a + 5)], a value strictly between 0
    and 1; [a] and [d] are the number of the patient's rows and the sum of
    their flags. *)
Theorem C3_patient_dna_rate (df : list Net.t) (G : Graph) (n : string)
    (attrs : PatientAttrs) :
  create_enhanced_bipartite_graph df = Some G →
  nodes G !! n = Some (PatientNode attrs) →
  1 ≤ total_appointments attrs →
  0 ≤ total_dnas attrs ≤ total_appointments attrs →
  (dna_rate attrs ==
     inject_Z (total_dnas attrs + 1) / inject_Z (total_appointments attrs + 5))%Q ∧
  (0 < dna_rate attrs)%Q ∧ (dna_rate attrs < 1)%Q ∧
  ∃ p, n = patient_id p ∧
       total_appointments attrs = len (rows_of_patient df p) ∧
       total_dnas attrs = sum_Z (Net.DNA_FLAG <$> rows_of_patient df p).
Proof.
  intros HG Hn Ha Hd.
  destruct (create_patient_node _ _ _ _ HG Hn) as (p & first & rest & -> & Hrows & ->).
  simpl in *.
  destruct (smoothed_rate_bounds _ _ Ha Hd) as [H0 H1].
  split; [reflexivity|]. split; [done|]. split; [done|].
  exists p. by rewrite Hrows.
Qed.

Lemma C3_witness :
  create_enhanced_bipartite_graph net_P1 = Some G_P1 ∧
  nodes G_P1 !! patient_id "P1" = Some (PatientNode attrs_P1) ∧
  (dna_rate attrs_P1 == inject_Z (1 + 1) / inject_Z (3 + 5))%Q ∧
  (0 < dna_rate attrs_P1)%Q ∧ (dna_rate attrs_P1 < 1)%Q.
Proof.
  assert (create_enhanced_bipartite_graph net_P1 = Some G_P1) as HG
    by (vm_compute; reflexivity).
  assert (nodes G_P1 !! patient_id "P1" = Some (PatientNode attrs_P1)) as Hn
    by (vm_compute; reflexivity).
  destruct (C3_patient_dna_rate net_P1 G_P1 (patient_id "P1") attrs_P1 HG Hn)
    as (H1 & H2 & H3 & _); [simpl; lia..|].
  repeat split; assumption.
Defined.

(** C7: the category of a patient comes from the smoothed rate
    [(d + 1) / (a + 5)]: High above 0.3, Medium above 0.1 up to 0.3, Low
    otherwise.  With 3 appointments and 1 missed the rate is 0.25 and the
    category Medium, although the raw proportion 1/3 lies above 0.3. *)
Theorem C7_risk_category_smoothed (df : list Net.t) (G : Graph) (n : string)
    (attrs : PatientAttrs) :
  create_enhanced_bipartite_graph df = Some G →
  nodes G !! n = Some (PatientNode attrs) →
  let rate :=
    (inject_Z (total_dnas attrs + 1) / inject_Z (total_appointments attrs + 5))%Q in
  (risk_category attrs = High ↔ (3 # 10 < rate)%Q) ∧
  (risk_category attrs = Medium ↔ (1 # 10 < rate)%Q ∧ (rate <= 3 # 10)%Q) ∧
  (risk_category attrs = Low ↔ (rate <= 1 # 10)%Q) ∧
  (total_appointments attrs = 3 → total_dnas attrs = 1 →
     (dna_rate attrs == 1 # 4)%Q ∧ risk_category attrs = Medium ∧
     (3 # 10 < inject_Z (total_dnas attrs) / inject_Z (total_appointments attrs))%Q).
Proof.
  intros HG Hn.
  destruct (create_patient_node _ _ _ _ HG Hn) as (p & first & rest & _ & _ & ->).
  cbn zeta. cbn [risk_category total_dnas total_appointments dna_rate patient_attrs].
  fold (smoothed_rate (sum_Z (Net.DNA_FLAG <$> first :: rest))
          (Z.of_nat (length (first :: rest)))).
  split; [apply classify_risk_High|]. split; [apply classify_risk_Medium|].
  split; [apply classify_risk_Low|].
  intros -> ->. by vm_compute.
Qed.

Lemma C7_witness :
  create_enhanced_bipartite_graph net_P1 = Some G_P1 ∧
  nodes G_P1 !! patient_id "P1" = Some (PatientNode attrs_P1) ∧
  (dna_rate attrs_P1 == 1 # 4)%Q ∧ risk_category attrs_P1 = Medium.
Proof.
  assert (create_enhanced_bipartite_graph net_P1 = Some G_P1) as HG
    by (vm_compute; reflexivity).
  assert (nodes G_P1 !! patient_id "P1" = Some (PatientNode attrs_P1)) as Hn
    by (vm_compute; reflexivity).
  destruct (C7_risk_category_smoothed net_P1 G_P1 (patient_id "P1") attrs_P1 HG Hn)
    as (_ & _ & _ & H).
  destruct (H eq_refl eq_refl) as (H1 & H2 & _).
  repeat split; assumption.
Defined.

(** C10: in the graph built from a cleaned frame every edge has
    [weight >= 1] and [0 <= dna_count <= weight]; its rate is defined,
    equals [dna_count / weight] and lies in [0, 1]. *)
Theorem C10_edge_invariant (df : list Raw.t) (G : Graph) (u v : string)
    (e : EdgeData) :
  create_enhanced_bipartite_graph (clean_for_network df) = Some G →
  adj G !! (u, v) = Some e →
  1 ≤ weight e ∧ 0 ≤ dna_count e ≤ weight e ∧
  ∃ q, edge_dna_rate e = Some q ∧
       (q == inject_Z (dna_count e) / inject_Z (weight e))%Q ∧
       (0 <= q)%Q ∧ (q <= 1)%Q.
Proof.
  intros [_ Hadj]%create_enhanced_bipartite_graph_inv He.
  rewrite Hadj, lookup_fmap in He.
  destruct (adj (foldl add_row empty_graph (clean_for_network df)) !! (u, v))
    as [e0|] eqn:He0; simpl in He; [|done].
  injection He as <-.
  apply edge_loop_ok in He0 as (Hw & Hc0 & Hc1);
    [|apply clean_for_network_flags|by intros k e1; simpl].
  simpl. split; [done|]. split; [done|].
  unfold true_divide. rewrite decide_False by lia.
  eexists. split; [reflexivity|]. split; [reflexivity|].
  assert (0 < inject_Z (weight e0))%Q as Hpos.
  { change 0%Q with (inject_Z 0). rewrite <- Zlt_Qlt. lia. }
  split.
  - apply Qle_shift_div_l; [done|]. rewrite Qmult_0_l.
    change 0%Q with (inject_Z 0). rewrite <- Zle_Qle. lia.
  - apply Qle_shift_div_r; [done|]. rewrite Qmult_1_l.
    rewrite <- Zle_Qle. lia.
Qed.

Lemma C10_witness :
  create_enhanced_bipartite_graph (clean_for_network frame_P1) = Some G_P1 ∧
  adj G_P1 !! (patient_id "P1", site_id "S1") = Some edge_P1 ∧
  1 ≤ weight edge_P1 ∧ 0 ≤ dna_count edge_P1 ≤ weight edge_P1 ∧
  ∃ q, edge_dna_rate edge_P1 = Some q ∧ (0 <= q)%Q ∧ (q <= 1)%Q.
Proof.
  assert (create_enhanced_bipartite_graph (clean_for_network frame_P1) = Some G_P1)
    as HG by (vm_compute; reflexivity).
  assert (adj G_P1 !! (patient_id "P1", site_id "S1") = Some edge_P1) as He
    by (vm_compute; reflexivity).
  destruct (C10_edge_invariant frame_P1 G_P1 _ _ edge_P1 HG He)
    as (H1 & H2 & q & Hq & _ & H3 & H4).
  repeat split; try assumption; try apply H2. exists q. repeat split; assumption.
Defined.

(** C1 (amended): the edge of a (patient, site) pair keeps the ancillary
    fields of the first row processed for the pair; every later row adds
    one to [weight] and its flag to [dna_count] and leaves
    [appointment_date], [treatment_function], [referring_org] and [outcome]
    as they are.  Both orientations of the edge show the same dictionary. *)
Theorem C1_edge_metadata_first_row (df : list Net.t) (G : Graph)
    (p s : string) (first : Net.t) (rest : list Net.t) :
  create_enhanced_bipartite_graph df = Some G →
  rows_of_pair df p s = first :: rest →
  ∃ e, adj G !! (patient_id p, site_id s) = Some e ∧
       adj G !! (site_id s, patient_id p) = Some e ∧
       appointment_date e = Net.APPOINTMENT_DATE first ∧
       treatment_function e = Net.TREATMENT_FUNCTION_CODE first ∧
       referring_org e = Net.REFERRING_ORGANISATION_CODE first ∧
       outcome e = Net.OUTCOME_OF_ATTENDANCE first ∧
       weight e = len (first :: rest) ∧
       dna_count e = sum_Z (Net.DNA_FLAG <$> first :: rest).
Proof.
  intros [_ Hadj]%create_enhanced_bipartite_graph_inv Hrows.
  pose proof (edge_loop_lookup df empty_graph p s) as Hl.
  rewrite Hrows in Hl. simpl in Hl. rewrite lookup_empty in Hl.
  assert (symmetric (adj (foldl add_row empty_graph df))) as Hsym
    by (apply edge_loop_symmetric; by intros ??).
  exists (set_edge_rate (edge_of_rows first rest)).
  rewrite Hadj, !lookup_fmap, (Hsym (site_id s) (patient_id p)), Hl.
  simpl. rewrite len_cons. done.
Qed.

Lemma C1_witness :
  create_enhanced_bipartite_graph net_P1 = Some G_P1 ∧
  rows_of_pair net_P1 "P1" "S1" = first_row_P1 :: List.tl net_P1 ∧
  ∃ e, adj G_P1 !! (patient_id "P1", site_id "S1") = Some e ∧
       treatment_function e = Some "100"%string ∧ weight e = 3.
Proof.
  assert (create_enhanced_bipartite_graph net_P1 = Some G_P1) as HG
    by (vm_compute; reflexivity).
  assert (rows_of_pair net_P1 "P1" "S1" = first_row_P1 :: List.tl net_P1) as Hr
    by (vm_compute; reflexivity).
  destruct (C1_edge_metadata_first_row net_P1 G_P1 "P1" "S1" _ _ HG Hr)
    as (e & He & _ & _ & Htf & _ & _ & Hw & _).
  split; [done|]. split; [done|]. exists e. repeat split; assumption.
Defined.

(** C1 as stated fails: two later rows of the pair (P1, S1) carry other
    values than the first, and the edge shows none of the last row's. *)
Lemma C1_counterexample :
  ∃ G e, create_enhanced_bipartite_graph net_P1 = Some G ∧
         last (rows_of_pair net_P1 "P1" "S1") = Some last_row_P1 ∧
         adj G !! (patient_id "P1", site_id "S1") = Some e ∧
         treatment_function e ≠ Net.TREATMENT_FUNCTION_CODE last_row_P1 ∧
         referring_org e ≠ Net.REFERRING_ORGANISATION_CODE last_row_P1 ∧
         outcome e ≠ Net.OUTCOME_OF_ATTENDANCE last_row_P1 ∧
         appointment_date e ≠ Net.APPOINTMENT_DATE last_row_P1.
Proof.
  exists G_P1, edge_P1.
  split; [vm_compute; reflexivity|]. split; [vm_compute; reflexivity|].
  split; [vm_compute; reflexivity|]. by repeat split.
Qed.

(** ** Minimum-size filter *)

Lemma truthy_true {A} (l : list A) : truthy l = true ↔ l ≠ [].
Proof. by destruct l. Qed.

Lemma truthy_false {A} (l : list A) : truthy l = false ↔ l = [].
Proof. by destruct l. Qed.

Lemma split_by_size_acc (cs : list (list string)) (m : Z) acc :
  foldl (split_step m) acc cs = (acc.1 ++ kept cs m, acc.2 ++ pooled cs m).
Proof.
  revert acc. induction cs as [|c t IH]; intros [L S]; simpl.
  - unfold kept, pooled. simpl. by rewrite !app_nil_r.
  - rewrite IH. unfold split_step, kept, pooled. simpl.
    destruct (decide (m ≤ len c)) as [Hc|Hc]; simpl.
    + rewrite filter_cons_True by done. rewrite filter_cons_False by lia.
      by rewrite <- app_assoc.
    + rewrite filter_cons_False by done. rewrite filter_cons_True by lia.
      simpl. by rewrite <- app_assoc.
Qed.

(** The loop over the partition computes the two filters. *)
Lemma split_by_size_spec (cs : list (list string)) (m : Z) :
  split_by_size cs m = (kept cs m, pooled cs m).
Proof. unfold split_by_size. by rewrite split_by_size_acc. Qed.

Lemma max_range_from_spec (key : nat → Z) (todo best i : nat) :
  first_max key i best →
  first_max key (i + todo) (max_range_from key best i todo).
Proof.
  revert best i. induction todo as [|todo IH]; intros best i Hb; simpl.
  - by rewrite Nat.add_0_r.
  - replace (i + S todo)%nat with (S i + todo)%nat by lia. apply IH.
    destruct Hb as (Hlt & Hmax & Hfirst).
    destruct (decide (key best < key i)) as [Hk|Hk].
    + split; [lia|]. split.
      * intros j Hj. destruct (decide (j = i)) as [->|]; [lia|].
        specialize (Hmax j). lia.
      * intros j Hj. specialize (Hmax j). lia.
    + split; [lia|]. split; [|done].
      intros j Hj. destruct (decide (j = i)) as [->|]; [lia|].
      apply Hmax. lia.
Qed.

Lemma largest_idx_spec (l : list (list string)) :
  l ≠ [] → ∃ i, largest_idx l = Some i ∧ first_largest l i.
Proof.
  intros Hl. unfold largest_idx, max_range.
  destruct l as [|c t]; [done|]. simpl length.
  eexists. split; [reflexivity|].
  set (key := λ i, len (default [] ((c :: t) !! i))).
  destruct (max_range_from_spec key (length t) 0 1) as (Hlt & Hmax & Hfirst).
  { split; [lia|]. split; [|lia]. intros j Hj. by replace j with 0%nat by lia. }
  split; [simpl; lia|]. split.
  - intros j x Hj. specialize (Hmax j). unfold key in Hmax. rewrite Hj in Hmax.
    apply Hmax. apply lookup_lt_Some in Hj. simpl in Hj. lia.
  - intros j x Hlt' Hj. specialize (Hfirst j Hlt'). unfold key in Hfirst.
    by rewrite Hj in Hfirst.
Qed.

Lemma merge_small_spec (large : list (list string)) (small : list string) :
  large ≠ [] →
  ∃ i c, first_largest large i ∧ large !! i = Some c ∧
    length (merge_small large small) = length large ∧
    ∀ j, merge_small large small !! j =
         if decide (j = i) then Some (c ++ small) else large !! j.
Proof.
  intros Hl. destruct (largest_idx_spec large Hl) as (i & Hi & Hfl).
  unfold merge_small. rewrite Hi.
  destruct (lookup_lt_is_Some_2 large i) as [c Hc]; [apply Hfl|].
  exists i, c. split; [done|]. split; [done|]. split; [by rewrite length_alter|].
  intros j. case_decide as Hj.
  - subst j. by rewrite list_lookup_alter_eq, Hc.
  - by rewrite list_lookup_alter_ne.
Qed.




(** Where the two filters part: nothing is kept and the pooled nodes reach
    the minimum size.  [filter_communities_by_size] makes them a community,
    [detect_communities_leiden] returns no community. *)
Example detect_communities_leiden_drops_pooled :
  communities
    (filter_communities_by_size
       {| communities := [["P_a"]; ["S_x"]]%string; method_name := "leiden" |} 2)
    = [["P_a"; "S_x"]]%string ∧
  detect_communities_leiden
    (Some (constant_backend [["P_a"]; ["S_x"]]%string)) 0 empty_graph 2
    = Some {| communities := []; method_name := "leiden_filtered" |}.
Proof. split; by vm_compute. Qed.

(** ** Community statistics *)

Lemma counter_incr_get {K} `{EqDecision K} (c : list (K * Z)) (k k' : K) :
  counter_get (counter_incr k c) k' 0 =
  counter_get c k' 0 + (if decide (k' = k) then 1 else 0).
Proof.
  induction c as [|[k0 n] t IH]; simpl.
  - repeat case_decide; congruence || lia.
  - destruct (decide (k = k0)) as [->|Hk]; simpl.
    + repeat case_decide; congruence || lia.
    + destruct (decide (k' = k0)) as [->|Hk'].
      * rewrite decide_False by done. lia.
      * apply IH.
Qed.

Lemma counter_incr_total {K} `{EqDecision K} (c : list (K * Z)) (k : K) :
  sum_Z (counter_incr k c).*2 = sum_Z c.*2 + 1.
Proof.
  induction c as [|[k0 n] t IH]; [done|].
  cbn [counter_incr].
  destruct (decide (k = k0)); rewrite !fmap_cons, !sum_Z_cons; cbn [snd].
  - lia.
  - rewrite IH. lia.
Qed.

Lemma counter_incr_truthy {K} `{EqDecision K} (c : list (K * Z)) (k : K) :
  truthy (counter_incr k c) = true.
Proof. destruct c as [|[k0 n] t]; simpl; [done|]. by destruct (decide _). Qed.

Lemma Counter_acc {K} `{EqDecision K} (l : list K) (c : list (K * Z)) (k : K) :
  counter_get (foldl (λ c k, counter_incr k c) c l) k 0 =
    counter_get c k 0 + len (filter (λ x, x = k) l) ∧
  sum_Z (foldl (λ c k, counter_incr k c) c l).*2 = sum_Z c.*2 + len l.
Proof.
  revert c. induction l as [|x t IH]; intros c; cbn [foldl].
  - rewrite filter_nil. unfold len. simpl. lia.
  - destruct (IH (counter_incr x c)) as [-> ->].
    rewrite counter_incr_get, counter_incr_total, len_cons.
    destruct (decide (k = x)) as [->|Hk].
    + rewrite filter_cons_True by done. rewrite len_cons. lia.
    + rewrite filter_cons_False by congruence. lia.
Qed.

Lemma Counter_truthy_acc {K} `{EqDecision K} (l : list K) (c : list (K * Z)) :
  truthy c = true → truthy (foldl (λ c k, counter_incr k c) c l) = true.
Proof.
  revert c. induction l as [|x t IH]; intros c Hc; cbn [foldl]; [done|].
  apply IH, counter_incr_truthy.
Qed.

(** A counter holds, for each key, the number of its occurrences, and its
    values add up to the length of the list. *)
Lemma Counter_spec {K} `{EqDecision K} (l : list K) (k : K) :
  counter_get (Counter l) k 0 = len (filter (λ x, x = k) l) ∧
  sum_Z (Counter l).*2 = len l ∧
  truthy (Counter l) = truthy l.
Proof.
  unfold Counter. destruct (Counter_acc l [] k) as [-> ->].
  split; [simpl; lia|]. split; [simpl; lia|].
  destruct l as [|x t]; [done|]. cbn [foldl truthy].
  apply Counter_truthy_acc, counter_incr_truthy.
Qed.

Lemma insert_desc_perm (row : CommunityStats) (l : list CommunityStats) :
  insert_desc row l ≡ₚ row :: l.
Proof.
  induction l as [|x t IH]; simpl; [done|].
  destruct (Qltb _ _); [|done].
  rewrite IH. apply Permutation_swap.
Qed.

Lemma sort_values_desc_perm (l : list CommunityStats) : sort_values_desc l ≡ₚ l.
Proof.
  induction l as [|x t IH]; simpl; [done|].
  by rewrite insert_desc_perm, IH.
Qed.

(** The rows of the loop are those of the communities that have a row, each
    under its position. *)
Lemma community_rows_spec (G : Graph) (cs : list (list string)) (i : nat)
    (rows : list CommunityStats) :
  community_rows G i cs = Some rows →
  ∀ row, row ∈ rows ↔
    ∃ j c, cs !! j = Some c ∧ community_row G (i + j) c = Some (Some row).
Proof.
  revert i rows. induction cs as [|c t IH]; intros i rows; simpl.
  - intros [= <-] row. split; [by intros ?%elem_of_nil|].
    by intros (j & c & Hj & _).
  - destruct (community_row G i c) as [r|] eqn:Hr; simpl; [|done].
    destruct (community_rows G (S i) t) as [rest|] eqn:Hrest; simpl; [|done].
    intros [= <-] row. specialize (IH _ _ Hrest row).
    assert (row ∈ rest ↔
            ∃ j c0, (c :: t) !! S j = Some c0 ∧
                    community_row G (i + S j) c0 = Some (Some row)) as IH'.
    { rewrite IH. by setoid_rewrite Nat.add_succ_r. }
    clear IH. split.
    + intros Hin.
      assert (r = Some row ∨ row ∈ rest) as [->|Hin'].
      { destruct r; [apply elem_of_cons in Hin as [->|]|]; auto. }
      * exists 0%nat, c. by rewrite Nat.add_0_r.
      * apply IH' in Hin' as (j & c0 & ? & ?). by exists (S j), c0.
    + intros ([|j] & c0 & Hj & Hrow).
      * simpl in Hj. injection Hj as <-. rewrite Nat.add_0_r, Hr in Hrow.
        injection Hrow as ->. apply list_elem_of_here.
      * assert (row ∈ rest) by (apply IH'; eauto).
        destruct r; [by apply list_elem_of_further|done].
Qed.

Lemma analyze_rows (G : Graph) (cs : CommunityResult)
    (df : list CommunityStats) :
  analyze_community_dna_patterns G cs = Some df →
  ∀ row, row ∈ df ↔
    ∃ j c, communities cs !! j = Some c ∧
           community_row G j c = Some (Some row).
Proof.
  unfold analyze_community_dna_patterns.
  destruct (community_rows G 0 (communities cs)) as [rows|] eqn:Hrows;
    simpl; [|done].
  destruct (truthy rows); [|done]. intros [= <-] row.
  rewrite sort_values_desc_perm.
  by rewrite (community_rows_spec _ _ _ _ Hrows row).
Qed.

Lemma community_row_Some (G : Graph) (i : nat) (c : list string)
    (row : CommunityStats) :
  community_row G i c = Some (Some row) →
  patients_in G c ≠ [] ∧ community_id row = Z.of_nat i ∧
  risk_score row =
    calculate_community_risk_score (dna_rate <$> patients_in G c)
      (Counter (risk_category <$> patients_in G c)) ∧
  avg_dna_rate row = mean (dna_rate <$> patients_in G c) ∧
  patients_count row = len (patients_in G c).
Proof.
  unfold community_row. destruct (mapM _ c); simpl; [|done].
  destruct (truthy (patients_in G c)) eqn:Hp; [|done].
  intros [= <-]. simpl. by apply truthy_true in Hp.
Qed.

Lemma community_row_None (G : Graph) (i : nat) (c : list string) :
  is_Some (mapM (node_type G) c) →
  community_row G i c = Some None ↔ patients_in G c = [].
Proof.
  intros [tys Htys]. unfold community_row. rewrite Htys. simpl.
  destruct (truthy (patients_in G c)) eqn:Hp.
  - apply truthy_true in Hp. by split.
  - apply truthy_false in Hp. by split.
Qed.

Lemma community_rows_defined (G : Graph) (cs : list (list string)) (i : nat)
    (rows : list CommunityStats) (j : nat) (c : list string) :
  community_rows G i cs = Some rows → cs !! j = Some c →
  is_Some (community_row G (i + j) c).
Proof.
  revert i rows j. induction cs as [|c0 t IH]; intros i rows j; simpl; [done|].
  destruct (community_row G i c0) as [r|] eqn:Hr; simpl; [|done].
  destruct (community_rows G (S i) t) as [rest|] eqn:Hrest; simpl; [|done].
  intros _. destruct j as [|j]; simpl.
  - intros [= <-]. rewrite Nat.add_0_r, Hr. by eexists.
  - intros Hj. rewrite Nat.add_succ_r. by apply (IH (S i) rest j).
Qed.

Lemma community_rows_total (G : Graph) (cs : list (list string)) (i : nat) :
  (∀ c n, c ∈ cs → n ∈ c → is_Some (node_type G n)) →
  is_Some (community_rows G i cs).
Proof.
  revert i. induction cs as [|c t IH]; intros i Hty; simpl; [by eexists|].
  assert (is_Some (mapM (node_type G) c)) as [tys Htys].
  { apply mapM_is_Some, Forall_forall. intros n Hn.
    apply (Hty c n); [apply list_elem_of_here|done]. }
  destruct (IH (S i)) as [rest ->].
  { intros c0 n Hc0. apply Hty. by apply list_elem_of_further. }
  unfold community_row. rewrite Htys. simpl.
  destruct (truthy (patients_in G c)); simpl; by eexists.
Qed.

(** The statistics stage returns a frame as soon as every listed node is a
    patient or a site of the graph and one community has a patient. *)
Lemma analyze_community_dna_patterns_total (G : Graph) (cs : CommunityResult) :
  (∀ c n, c ∈ communities cs → n ∈ c → is_Some (node_type G n)) →
  (∃ c, c ∈ communities cs ∧ patients_in G c ≠ []) →
  is_Some (analyze_community_dna_patterns G cs).
Proof.
  intros Hty (c & Hc & Hp). unfold analyze_community_dna_patterns.
  destruct (community_rows_total G (communities cs) 0 Hty) as [rows Hrows].
  rewrite Hrows. simpl.
  apply list_elem_of_lookup in Hc as [j Hj].
  destruct (community_rows_defined _ _ _ _ _ _ Hrows Hj) as [r Hr].
  simpl in Hr. destruct r as [row|].
  - assert (row ∈ rows) as Hin
      by (apply (community_rows_spec _ _ _ _ Hrows); eauto).
    destruct rows; [by apply elem_of_nil in Hin|]. by eexists.
  - apply community_row_None in Hr; [done|].
    apply mapM_is_Some, Forall_forall. intros n Hn.
    apply (Hty c n); [|done]. apply list_elem_of_lookup. eauto.
Qed.

Lemma len_filter_fmap {A B} (f : A → B) (P : B → Prop)
    `{∀ y, Decision (P y)} (l : list A) :
  len (filter P (f <$> l)) = len (filter (λ x, P (f x)) l).
Proof.
  unfold len. f_equal. induction l as [|x t IH]; [done|].
  rewrite fmap_cons. destruct (decide (P (f x))).
  - rewrite !filter_cons_True by done. simpl. by rewrite IH.
  - by rewrite !filter_cons_False.
Qed.

Lemma risk_score_formula (ps : list PatientAttrs) :
  ps ≠ [] →
  (calculate_community_risk_score (dna_rate <$> ps)
     (Counter (risk_category <$> ps)) ==
   (7 # 10) * (sum_Q (dna_rate <$> ps) / inject_Z (len ps)) +
   (3 # 10) * (inject_Z (len (filter (λ p, risk_category p = High) ps)) /
               inject_Z (len ps)))%Q.
Proof.
  intros Hps. unfold calculate_community_risk_score.
  destruct (Counter_spec (risk_category <$> ps) High) as (Hget & Htot & Htr).
  rewrite Htr, Hget, Htot, len_filter_fmap.
  assert (truthy (dna_rate <$> ps) = true) as -> by by destruct ps.
  assert (truthy (risk_category <$> ps) = true) as -> by by destruct ps.
  unfold mean, len. rewrite !length_fmap. ring.
Qed.

(** C5: a community with at least one patient has a row, and on every row
    of that community [risk_score] is 0.7 times the mean of its patients'
    [dna_rate] plus 0.3 times the share of its patients whose category is
    High.  Rates 0.1, 0.2, 0.9 with one patient per category give 0.38. *)
Theorem C5_community_risk_score (G : Graph) (cs : CommunityResult)
    (df : list CommunityStats) (j : nat) (c : list string) :
  analyze_community_dna_patterns G cs = Some df →
  communities cs !! j = Some c →
  patients_in G c ≠ [] →
  let ps := patients_in G c in
  let score :=
    ((7 # 10) * (sum_Q (dna_rate <$> ps) / inject_Z (len ps)) +
     (3 # 10) * (inject_Z (len (filter (λ p, risk_category p = High) ps)) /
                 inject_Z (len ps)))%Q in
  (∃ row, row ∈ df ∧ community_id row = Z.of_nat j) ∧
  (∀ row, row ∈ df → community_id row = Z.of_nat j →
     (risk_score row == score)%Q) ∧
  (calculate_community_risk_score [1 # 10; 2 # 10; 9 # 10]
     [(High, 1%Z); (Medium, 1%Z); (Low, 1%Z)] == 38 # 100)%Q.
Proof.
  intros Hdf Hj Hps ps score. split; [|split; [|by vm_compute]].
  - pose proof Hdf as Hrows. unfold analyze_community_dna_patterns in Hrows.
    destruct (community_rows G 0 (communities cs)) as [rows|] eqn:Hr;
      simpl in Hrows; [|done].
    destruct (community_rows_defined _ _ _ _ _ _ Hr Hj) as [[row|] Hrow];
      simpl in Hrow.
    + exists row. split; [apply (analyze_rows _ _ _ Hdf); eauto|].
      by apply community_row_Some in Hrow as (_ & ? & _).
    + apply community_row_None in Hrow; [done|].
      unfold community_row in Hrow. by destruct (mapM _ c).
  - intros row (j' & c' & Hj' & Hrow)%(analyze_rows _ _ _ Hdf) Hid.
    apply community_row_Some in Hrow as (_ & Hid' & -> & _).
    assert (j' = j) as -> by lia. assert (c' = c) as -> by congruence.
    by apply risk_score_formula.
Qed.

Lemma C5_witness :
  analyze_community_dna_patterns G_ABC communities_ABC = Some df_ABC ∧
  communities communities_ABC !! 0%nat = Some ["P_A"; "P_B"; "P_C"; "S_S1"]%string ∧
  (dna_rate <$> patients_in G_ABC ["P_A"; "P_B"; "P_C"; "S_S1"]%string)
    = [smoothed_rate 0 5; smoothed_rate 1 5; smoothed_rate 35 35] ∧
  ∀ row, row ∈ df_ABC → community_id row = 0 → (risk_score row == 38 # 100)%Q.
Proof.
  assert (analyze_community_dna_patterns G_ABC communities_ABC = Some df_ABC)
    as Hdf by (vm_compute; reflexivity).
  assert (communities communities_ABC !! 0%nat =
          Some ["P_A"; "P_B"; "P_C"; "S_S1"]%string) as Hc by reflexivity.
  assert (patients_in G_ABC ["P_A"; "P_B"; "P_C"; "S_S1"]%string ≠ []) as Hp
    by (vm_compute; discriminate).
  destruct (C5_community_risk_score G_ABC communities_ABC df_ABC 0 _ Hdf Hc Hp)
    as (_ & Hscore & _).
  split; [done|]. split; [done|]. split; [vm_compute; reflexivity|].
  intros row Hrow Hid. rewrite (Hscore row Hrow Hid). by vm_compute.
Defined.

(** C8: a community without patient nodes gets no row in the statistics
    frame, and the risk score of an empty list of rates is 0. *)
Theorem C8_zero_patient_communities (G : Graph) (cs : CommunityResult)
    (df : list CommunityStats) (j : nat) (c : list string) :
  analyze_community_dna_patterns G cs = Some df →
  communities cs !! j = Some c →
  patients_in G c = [] →
  (∀ row, row ∈ df → community_id row ≠ Z.of_nat j) ∧
  (∀ risk_counts, calculate_community_risk_score [] risk_counts = 0%Q) ∧
  calculate_community_risk_score (dna_rate <$> patients_in G c)
    (Counter (risk_category <$> patients_in G c)) = 0%Q.
Proof.
  intros Hdf Hj Hps. split; [|split; [done|by rewrite Hps]].
  intros row (j' & c' & Hj' & Hrow)%(analyze_rows _ _ _ Hdf) Hid.
  apply community_row_Some in Hrow as (Hne & Hid' & _).
  assert (j' = j) as -> by lia. assert (c' = c) as -> by congruence.
  done.
Qed.

Lemma C8_witness :
  analyze_community_dna_patterns G_ABC communities_ABC_site = Some df_ABC_site ∧
  communities communities_ABC_site !! 1%nat = Some ["S_S1"]%string ∧
  patients_in G_ABC ["S_S1"]%string = [] ∧
  community_id <$> df_ABC_site = [0] ∧
  ∀ row, row ∈ df_ABC_site → community_id row ≠ 1.
Proof.
  assert (analyze_community_dna_patterns G_ABC communities_ABC_site =
          Some df_ABC_site) as Hdf by (vm_compute; reflexivity).
  assert (communities communities_ABC_site !! 1%nat = Some ["S_S1"]%string)
    as Hc by reflexivity.
  assert (patients_in G_ABC ["S_S1"]%string = []) as Hp
    by (vm_compute; reflexivity).
  destruct (C8_zero_patient_communities G_ABC communities_ABC_site df_ABC_site
              1 _ Hdf Hc Hp) as (Hrows & _).
  split; [done|]. split; [done|]. split; [done|].
  split; [vm_compute; reflexivity|exact Hrows].
Defined.

(** ** Risk tiers *)

Lemma insert_asc_length (x : Q) (l : list Q) :
  length (insert_asc x l) = S (length l).
Proof.
  induction l as [|y t IH]; simpl; [done|].
  destruct (Qle_bool x y); simpl; by rewrite ?IH.
Qed.

Lemma sort_asc_length (l : list Q) : length (sort_asc l) = length l.
Proof.
  induction l as [|x t IH]; simpl; [done|].
  by rewrite insert_asc_length, IH.
Qed.

(** The quantile of a non-empty series is a number. *)
Lemma quantile_is_Some (l : list Q) (q : Q) : l ≠ [] → is_Some (quantile l q).
Proof.
  intros Hl. unfold quantile.
  destruct (sort_asc l) as [|x0 s] eqn:Hs; [|by eexists].
  apply (f_equal length) in Hs. rewrite sort_asc_length in Hs.
  by destruct l.
Qed.

Lemma Qle_bool_false (x y : Q) : Qle_bool x y = false ↔ ¬ (x <= y)%Q.
Proof.
  rewrite <- Qle_bool_iff. destruct (Qle_bool x y); split; congruence.
Qed.

Lemma risk_level_of_spec (s h l : Q) :
  (risk_level_of s (Some h) (Some l) = High ↔ (h <= s)%Q) ∧
  (risk_level_of s (Some h) (Some l) = Low ↔ (s <= l)%Q ∧ ¬ (h <= s)%Q) ∧
  (risk_level_of s (Some h) (Some l) = Medium ↔ ¬ (h <= s)%Q ∧ ¬ (s <= l)%Q).
Proof.
  unfold risk_level_of, ge_thr, le_thr.
  destruct (Qle_bool h s) eqn:Hh; [apply Qle_bool_iff in Hh|apply Qle_bool_false in Hh];
    (destruct (Qle_bool s l) eqn:Hl; [apply Qle_bool_iff in Hl|apply Qle_bool_false in Hl]);
    repeat split; try done; try (by intros [? ?]); try (by intros ?).
Qed.

Lemma elem_of_List_filter {A} (f : A → bool) (l : list A) (x : A) :
  x ∈ List.filter f l ↔ x ∈ l ∧ f x = true.
Proof. rewrite !list_elem_of_In. apply filter_In. Qed.

Lemma export_node_level (G : Graph) (ntc : gmap string Z)
    (df : list CommunityStats) (h l : option Q) (n : string) (en : ExportNode) :
  export_node G ntc df h l n = Some en →
  (∃ row, row ∈ df ∧ community_id row = n_community en ∧
          n_risk_level en = risk_level_of (risk_score row) h l) ∨
  ((n_community en < 0 ∨ ∀ row, row ∈ df → community_id row ≠ n_community en) ∧
   n_risk_level en = Medium).
Proof.
  unfold export_node. destruct (node_type G n) as [ty|]; simpl; [|done].
  intros [= <-]. simpl. set (comm := default (-1) (ntc !! n)).
  destruct (decide (0 ≤ comm)) as [Hc|Hc]; [|right; split; [left; lia|done]].
  destruct (List.filter _ df) as [|row rest] eqn:Hf.
  - right. split; [|done]. right. intros row Hrow Hid.
    assert (row ∈ List.filter
              (λ c, bool_decide (community_id c = comm)) df) as Hin.
    { apply elem_of_List_filter. split; [done|]. by apply bool_decide_eq_true_2. }
    rewrite Hf in Hin. by apply elem_of_nil in Hin.
  - left. exists row.
    assert (row ∈ List.filter
              (λ c, bool_decide (community_id c = comm)) df) as Hin
      by (rewrite Hf; apply list_elem_of_here).
    apply elem_of_List_filter in Hin as [Hin Hid].
    apply bool_decide_eq_true_1 in Hid. done.
Qed.

(** The two-community scenario of the specification: scores 0.1 and 0.9
    give the cutoffs 0.7 and 0.3 under linear interpolation. *)
Example quantile_two_communities :
  quantile [1 # 10; 9 # 10] (3 # 4) = Some (2800 # 4000) ∧
  quantile [1 # 10; 9 # 10] (1 # 4) = Some (1200 # 4000) ∧
  (2800 # 4000 == 7 # 10)%Q ∧ (1200 # 4000 == 3 # 10)%Q.
Proof. repeat split; by vm_compute. Qed.

(** C4 (amended): the cutoffs are the 0.75 and 0.25 quantiles (linear
    interpolation) of [risk_score] over the rows of the statistics frame.
    [identify_high_low_risk_communities] puts a row in [high_risk] iff its
    score is at least the high cutoff, in [low_risk] iff it is at most the
    low cutoff, in [medium_risk] iff neither.  The export labels a community
    High iff its score is at least the high cutoff, Low iff it is at most
    the low cutoff and below the high one, Medium otherwise; a node takes
    the label of its community's row, Medium when there is none. *)
Theorem C4_risk_tiers (G : Graph) (cs : CommunityResult)
    (df : list CommunityStats) (now : Z) (doc : ExportDoc) :
  df ≠ [] →
  export_for_d3js G cs df now = Some doc →
  ∃ high low,
    quantile (risk_score <$> df) (3 # 4) = Some high ∧
    quantile (risk_score <$> df) (1 # 4) = Some low ∧
    risk_thresholds df true = (Some high, Some low) ∧
    threshold_high (metadata doc) = Some high ∧
    threshold_low (metadata doc) = Some low ∧
    (∀ c, c ∈ high_risk (identify_high_low_risk_communities df true) ↔
          c ∈ df ∧ (high <= risk_score c)%Q) ∧
    (∀ c, c ∈ low_risk (identify_high_low_risk_communities df true) ↔
          c ∈ df ∧ (risk_score c <= low)%Q) ∧
    (∀ c, c ∈ medium_risk (identify_high_low_risk_communities df true) ↔
          c ∈ df ∧ ¬ (high <= risk_score c)%Q ∧ ¬ (risk_score c <= low)%Q) ∧
    c_risk_score <$> export_communities doc = risk_score <$> df ∧
    (∀ ec, ec ∈ export_communities doc →
       (c_risk_level ec = High ↔ (high <= c_risk_score ec)%Q) ∧
       (c_risk_level ec = Low ↔
          (c_risk_score ec <= low)%Q ∧ ¬ (high <= c_risk_score ec)%Q) ∧
       (c_risk_level ec = Medium ↔
          ¬ (high <= c_risk_score ec)%Q ∧ ¬ (c_risk_score ec <= low)%Q)) ∧
    (∀ en, en ∈ export_nodes doc →
       (∃ row, row ∈ df ∧ community_id row = n_community en ∧
          n_risk_level en = risk_level_of (risk_score row) (Some high) (Some low)) ∨
       ((n_community en < 0 ∨
         ∀ row, row ∈ df → community_id row ≠ n_community en) ∧
        n_risk_level en = Medium)).
Proof.
  intros Hdf Hexp.
  assert (risk_score <$> df ≠ []) as Hscores by by destruct df.
  destruct (quantile_is_Some _ (3 # 4) Hscores) as [high Hhigh].
  destruct (quantile_is_Some _ (1 # 4) Hscores) as [low Hlow].
  exists high, low.
  unfold export_for_d3js in Hexp. rewrite Hhigh, Hlow in Hexp.
  destruct (mapM _ _) as [d3_nodes|] eqn:Hnodes; simpl in Hexp; [|done].
  injection Hexp as <-. simpl.
  unfold identify_high_low_risk_communities, risk_thresholds.
  rewrite Hhigh, Hlow. simpl.
  do 5 (split; [done|]).
  split; [|split; [|split; [|split; [|split]]]].
  - intros c. rewrite elem_of_List_filter. by rewrite Qle_bool_iff.
  - intros c. rewrite elem_of_List_filter. by rewrite Qle_bool_iff.
  - intros c. rewrite elem_of_List_filter. unfold Qgtb, Qltb.
    rewrite andb_true_iff, !negb_true_iff, !Qle_bool_false. tauto.
  - rewrite <- list_fmap_compose. done.
  - intros ec (row & -> & _)%list_elem_of_fmap. simpl.
    apply risk_level_of_spec.
  - intros en Hen. apply list_elem_of_lookup in Hen as [i Hi].
    apply mapM_Some_1 in Hnodes.
    destruct (Forall2_lookup_r _ _ _ _ _ Hnodes Hi) as (n & _ & Hn).
    by apply export_node_level in Hn.
Qed.

Lemma C4_witness :
  df_ABC_site ≠ [] ∧
  is_Some (export_for_d3js G_ABC communities_ABC_site df_ABC_site 0) ∧
  ∃ t, risk_thresholds df_ABC_site true = (Some t, Some t) ∧ (t == 38 # 100)%Q.
Proof.
  assert (df_ABC_site ≠ []) as Hdf by (vm_compute; discriminate).
  destruct (export_for_d3js G_ABC communities_ABC_site df_ABC_site 0)
    as [doc|] eqn:Hdoc; [|by vm_compute in Hdoc].
  destruct (C4_risk_tiers G_ABC communities_ABC_site df_ABC_site 0 doc Hdf Hdoc)
    as (high & low & Hh & Hl & Hthr & _).
  split; [done|]. split; [by eexists|].
  exists high. split.
  - rewrite Hthr. do 2 f_equal. vm_compute in Hh, Hl. congruence.
  - vm_compute in Hh. injection Hh as <-. by vm_compute.
Defined.

(** C4 as stated fails on the export's label: with one community its score
    is both cutoffs, so it is at most the low cutoff, and its label is High,
    not Low. *)
Lemma C4_counterexample :
  ∃ doc ec low,
    export_for_d3js G_ABC communities_ABC df_ABC 0 = Some doc ∧
    export_communities doc = [ec] ∧
    threshold_low (metadata doc) = Some low ∧
    (c_risk_score ec <= low)%Q ∧
    c_risk_level ec = High ∧ c_risk_level ec ≠ Low.
Proof.
  destruct (export_for_d3js G_ABC communities_ABC df_ABC 0) as [doc|] eqn:Hdoc;
    [|by vm_compute in Hdoc].
  vm_compute in Hdoc. injection Hdoc as <-.
  eexists _, _, _. split; [reflexivity|]. split; [reflexivity|].
  split; [reflexivity|]. split; [by vm_compute|]. by split.
Qed.

(** On that document the count of Medium communities, computed as the rest
    after High and Low, is negative. *)
Example export_medium_count_single_community :
  medium_risk_communities <$>
    (metadata <$> export_for_d3js G_ABC communities_ABC df_ABC 0) = Some (-1).
Proof. by vm_compute. Qed.

(** ** One run of the service *)

Lemma detect_communities_leiden_unavailable (entropy : Z) (G : Graph) (m : Z) :
  detect_communities_leiden None entropy G m = None.
Proof. reflexivity. Qed.

Ltac run_unfold :=
  cbv [run_analysis try_except run_pipeline bind set_progress
       load_and_preprocess_data get_world sample_step export_step publish
       lift ret raise fst snd].

(** C6: when the community-detection library is not installed the run ends
    failed: the progress field holds the exception, which for a frame that
    loads and samples is the detection failure, the exception reaches the
    caller of [run_analysis], the export file is as before, the rest of the
    state is as before, and a new request to initialise is accepted. *)
Theorem C6_backend_unavailable (env : Env) (st : AnalysisState) (w : World) :
  algorithms env = None →
  ∃ e st' w',
    run_analysis env (st, w) = (inl e, (st', w')) ∧
    st' = with_progress (error e) st ∧
    export_file w' = export_file w ∧
    data_files w' = data_files w ∧
    (initialized st = false → initialize_analysis st' = analysis_started) ∧
    (∀ df sampled,
       data_files w = inr df →
       (sample_data_for_network env df 20000 42 (np_random_state w)).1
         = Some sampled →
       e = Exception "Community detection failed - check dependencies").
Proof.
  intros Halg. run_unfold.
  destruct (data_files w) as [msg|df] eqn:Hdata.
  { eexists _, _, _. split; [reflexivity|]. split; [reflexivity|].
    split; [reflexivity|]. split; [done|]. split.
    - unfold initialize_analysis. simpl. by intros ->.
    - by intros. }
  destruct (sample_data_for_network env df 20000 42 (np_random_state w))
    as [[sampled|] np'] eqn:Hsample.
  2:{ eexists _, _, _. split; [reflexivity|]. split; [reflexivity|].
      split; [reflexivity|]. split; [done|]. split.
      - unfold initialize_analysis. simpl. by intros ->.
      - intros ?? [= <-] H. by rewrite Hsample in H. }
  destruct (create_enhanced_bipartite_graph_total (clean_for_network sampled))
    as [G ->].
  rewrite Halg, detect_communities_leiden_unavailable.
  eexists _, _, _. split; [reflexivity|]. split; [reflexivity|].
  split; [reflexivity|]. split; [done|]. split.
  - unfold initialize_analysis. simpl. by intros ->.
  - by intros.
Qed.

Lemma C6_witness :
  algorithms env_unavailable = None ∧
  ∃ w',
    run_analysis env_unavailable (initial_state, world_ABC 0 0 0) =
      (inl (Exception "Community detection failed - check dependencies"),
       (with_progress
          (error (Exception "Community detection failed - check dependencies"))
          initial_state,
        w')) ∧
    export_file w' = None.
Proof.
  destruct (C6_backend_unavailable env_unavailable initial_state
              (world_ABC 0 0 0) eq_refl)
    as (e & st' & w' & Hrun & -> & Hfile & _ & _ & He).
  split; [reflexivity|]. exists w'.
  rewrite (He frame_ABC frame_ABC eq_refl eq_refl) in Hrun.
  split; [exact Hrun|exact Hfile].
Defined.

Lemma detect_communities_leiden_deterministic (algs : option Cdlib)
    (e1 e2 : Z) (G : Graph) (m : Z) :
  deterministic algs →
  detect_communities_leiden algs e1 G m = detect_communities_leiden algs e2 G m.
Proof.
  intros Hdet. destruct algs as [lib|]; [|done].
  unfold detect_communities_leiden. by rewrite (Hdet lib eq_refl e1 e2 G).
Qed.

(** The sample depends on the frame, the cap and the seed only. *)
Lemma sample_data_for_network_seeded (env : Env) (df : list Raw.t)
    (max_records seed np1 np2 : Z) :
  (sample_data_for_network env df max_records seed np1).1 =
  (sample_data_for_network env df max_records seed np2).1.
Proof. unfold sample_data_for_network. by destruct (decide _). Qed.

(** The clock only stamps the export document. *)
Lemma export_for_d3js_clock (G : Graph) (cs : CommunityResult)
    (df : list CommunityStats) (now1 now2 : Z) :
  doc_content <$> export_for_d3js G cs df now1 =
  doc_content <$> export_for_d3js G cs df now2.
Proof.
  unfold export_for_d3js. by destruct (mapM _ _).
Qed.

(** C9: two runs with the same input files, cap, seed and minimum community
    size and a deterministic partitioner, started in any two states of the
    service, the clock, numpy's generator and the partitioner's ambient
    state: the sample is the same; the runs end alike; and after a
    successful run the cleaned sample, the statistics frame with its
    [risk_score] values, the three tiers and the export's cutoffs,
    communities and nodes are the same, the cutoffs being those of the
    frame. *)
Theorem C9_repeatable_runs (env : Env) (max_records seed m : Z)
    (st1 st2 : AnalysisState) (w1 w2 : World) :
  data_files w1 = data_files w2 →
  deterministic (algorithms env) →
  let r1 := run_pipeline env max_records seed m (st1, w1) in
  let r2 := run_pipeline env max_records seed m (st2, w2) in
  (∀ df,
     (sample_data_for_network env df max_records seed (np_random_state w1)).1 =
     (sample_data_for_network env df max_records seed (np_random_state w2)).1) ∧
  r1.1 = r2.1 ∧
  (r1.1 = inr true →
   ∃ nd df rc doc1 doc2,
     network_data r1.2.1 = Some nd ∧ network_data r2.2.1 = Some nd ∧
     community_df r1.2.1 = Some df ∧ community_df r2.2.1 = Some df ∧
     risk_communities r1.2.1 = Some rc ∧ risk_communities r2.2.1 = Some rc ∧
     export_file r1.2.2 = Some doc1 ∧ export_file r2.2.2 = Some doc2 ∧
     doc_content doc1 = doc_content doc2 ∧
     risk_thresholds df true =
       (threshold_high (metadata doc1), threshold_low (metadata doc1))).
Proof.
  intros Hdata Hdet r1 r2.
  split; [intros df; apply sample_data_for_network_seeded|].
  subst r1 r2. run_unfold. rewrite Hdata.
  destruct (data_files w2) as [msg|graph_df]; [by split|].
  pose proof (sample_data_for_network_seeded env graph_df max_records seed
                (np_random_state w1) (np_random_state w2)) as Hs.
  destruct (sample_data_for_network env graph_df max_records seed
              (np_random_state w1)) as [s1 np1].
  destruct (sample_data_for_network env graph_df max_records seed
              (np_random_state w2)) as [s2 np2].
  simpl in Hs. subst s2. destruct s1 as [sampled|]; [|by split].
  destruct (create_enhanced_bipartite_graph (clean_for_network sampled))
    as [G|]; [|by split].
  cbn [entropy clock].
  rewrite (detect_communities_leiden_deterministic _ (entropy w1) (entropy w2))
    by done.
  destruct (detect_communities_leiden (algorithms env) (entropy w2) G m)
    as [cs|]; [|by split].
  destruct (analyze_community_dna_patterns G cs) as [df|]; [|by split].
  cbn [clock entropy fst snd].
  pose proof (export_for_d3js_clock G cs df (clock w1) (clock w2)) as Hdoc.
  destruct (export_for_d3js G cs df (clock w1)) as [doc1|] eqn:H1;
    destruct (export_for_d3js G cs df (clock w2)) as [doc2|] eqn:H2;
    try done.
  split; [done|]. intros _.
  exists (clean_for_network sampled), df,
    (identify_high_low_risk_communities df true), doc1, doc2.
  cbn [network_data community_df risk_communities export_file].
  repeat (split; [reflexivity|]).
  split; [simpl in Hdoc; congruence|].
  unfold export_for_d3js in H1. destruct (mapM _ _); [|done].
  simpl in H1. by injection H1 as <-.
Qed.

Lemma C9_witness :
  data_files (world_ABC 100 1 2) = data_files (world_ABC 200 3 4) ∧
  deterministic (algorithms env_ABC) ∧
  (run_pipeline env_ABC 20000 42 2 (initial_state, world_ABC 100 1 2)).1
    = inr true ∧
  (run_pipeline env_ABC 20000 42 2 (initial_state, world_ABC 200 3 4)).1
    = inr true ∧
  community_df
    (run_pipeline env_ABC 20000 42 2 (initial_state, world_ABC 100 1 2)).2.1 =
  community_df
    (run_pipeline env_ABC 20000 42 2 (initial_state, world_ABC 200 3 4)).2.1.
Proof.
  assert (deterministic (algorithms env_ABC)) as Hdet
    by (intros lib [= <-] e1 e2 G; reflexivity).
  destruct (C9_repeatable_runs env_ABC 20000 42 2 initial_state initial_state
              (world_ABC 100 1 2) (world_ABC 200 3 4) eq_refl Hdet)
    as (_ & Hout & Hsame).
  assert ((run_pipeline env_ABC 20000 42 2
             (initial_state, world_ABC 100 1 2)).1 = inr true) as Hok
    by (vm_compute; reflexivity).
  destruct (Hsame Hok) as (nd & df & rc & doc1 & doc2 & _ & _ & H1 & H2 & _).
  split; [reflexivity|]. split; [exact Hdet|]. split; [exact Hok|].
  split; [by rewrite <- Hout|]. by rewrite H1, H2.
Defined.

(** ** Further properties of graph construction *)

Lemma touch_node_present (n : string) (m : gmap string NodeData) :
  is_Some (m !! n) → touch_node n m = m.
Proof. intros [d Hd]. unfold touch_node. by rewrite Hd. Qed.

Lemma add_row_nodes_eq (G : Graph) (r : Net.t) :
  is_Some (nodes G !! patient_id (Net.PATIENT_KEY r)) →
  is_Some (nodes G !! site_id (Net.SITE_CODE_OF_TREATMENT r)) →
  nodes (add_row G r) = nodes G.
Proof.
  intros Hp Hs. unfold add_row. destruct (has_edge G _ _); simpl; [done|].
  rewrite (touch_node_present _ _ Hp). by apply touch_node_present.
Qed.

Lemma edge_loop_nodes (rows : list Net.t) (G : Graph) :
  (∀ r, r ∈ rows →
     is_Some (nodes G !! patient_id (Net.PATIENT_KEY r)) ∧
     is_Some (nodes G !! site_id (Net.SITE_CODE_OF_TREATMENT r))) →
  nodes (foldl add_row G rows) = nodes G.
Proof.
  intros Hrows.
  apply (foldl_invariant (λ G0, nodes G0 = nodes G) add_row rows); [|done].
  intros G0 r Hr HG0. rewrite <- HG0. destruct (Hrows r Hr) as [Hp Hs].
  rewrite <- HG0 in Hp, Hs. by apply add_row_nodes_eq.
Qed.

Lemma patient_loop_lookup (df : list Net.t) (ps : list string) (G G' : Graph)
    (p : string) (first : Net.t) (rest : list Net.t) :
  for_each (add_patient df) ps G = Some G' →
  rows_of_patient df p = first :: rest →
  p ∈ ps ∨ nodes G !! patient_id p
           = Some (PatientNode (patient_attrs first (first :: rest))) →
  nodes G' !! patient_id p
    = Some (PatientNode (patient_attrs first (first :: rest))).
Proof.
  intros Hrun Hrows. revert G Hrun.
  induction ps as [|x t IH]; intros G Hrun Hcase; simpl in Hrun.
  - injection Hrun as <-. destruct Hcase as [?%elem_of_nil|?]; done.
  - destruct (add_patient df G x) as [G1|] eqn:Hx; simpl in Hrun; [|done].
    apply (IH G1 Hrun).
    apply add_patient_spec in Hx as (fx & rx & Hfx & ->). simpl.
    destruct (decide (x = p)) as [->|Hne].
    + right. rewrite lookup_insert_eq. rewrite Hrows in Hfx. by injection Hfx as <- <-.
    + destruct Hcase as [[?|?]%elem_of_cons|HG]; [congruence|by left|right].
      rewrite lookup_insert_ne; [done|]. by intros ?%patient_id_inj.
Qed.

Lemma site_loop_lookup (df : list Net.t) (ss : list string) (G G' : Graph)
    (s : string) (first : Net.t) (rest : list Net.t) :
  for_each (add_site df) ss G = Some G' →
  rows_of_site df s = first :: rest →
  s ∈ ss ∨ nodes G !! site_id s
           = Some (SiteNode (site_attrs first (first :: rest))) →
  nodes G' !! site_id s = Some (SiteNode (site_attrs first (first :: rest))).
Proof.
  intros Hrun Hrows. revert G Hrun.
  induction ss as [|x t IH]; intros G Hrun Hcase; simpl in Hrun.
  - injection Hrun as <-. destruct Hcase as [?%elem_of_nil|?]; done.
  - destruct (add_site df G x) as [G1|] eqn:Hx; simpl in Hrun; [|done].
    apply (IH G1 Hrun).
    apply add_site_spec in Hx as (fx & rx & Hfx & ->). simpl.
    destruct (decide (x = s)) as [->|Hne].
    + right. rewrite lookup_insert_eq. rewrite Hrows in Hfx. by injection Hfx as <- <-.
    + destruct Hcase as [[?|?]%elem_of_cons|HG]; [congruence|by left|right].
      rewrite lookup_insert_ne; [done|]. by intros ?%site_id_inj.
Qed.

Lemma site_loop_keeps_patients (df : list Net.t) (ss : list string)
    (G G' : Graph) (p : string) :
  for_each (add_site df) ss G = Some G' →
  nodes G' !! patient_id p = nodes G !! patient_id p.
Proof.
  intros Hrun.
  apply (for_each_invariant
           (λ G0, nodes G0 !! patient_id p = nodes G !! patient_id p)
           (add_site df) ss) with (s := G); [|done|done].
  intros G0 s G1 _ HG0 (first & rest & _ & ->)%add_site_spec. simpl.
  rewrite lookup_insert_ne; [done|]. intros H.
  by apply eq_sym, patient_id_ne_site_id in H.
Qed.

Lemma rows_of_patient_elem (df : list Net.t) (r : Net.t) :
  r ∈ df → ∃ first rest, rows_of_patient df (Net.PATIENT_KEY r) = first :: rest.
Proof.
  intros Hr. by apply (head_filter_is_Some
    (λ r0, Net.PATIENT_KEY r0 = Net.PATIENT_KEY r) df r).
Qed.

Lemma rows_of_site_elem (df : list Net.t) (r : Net.t) :
  r ∈ df →
  ∃ first rest, rows_of_site df (Net.SITE_CODE_OF_TREATMENT r) = first :: rest.
Proof.
  intros Hr. by apply (head_filter_is_Some
    (λ r0, Net.SITE_CODE_OF_TREATMENT r0 = Net.SITE_CODE_OF_TREATMENT r) df r).
Qed.

Lemma patient_loop_no_bare (df : list Net.t) (ps : list string) (G G' : Graph) :
  for_each (add_patient df) ps G = Some G' →
  (∀ n, nodes G !! n ≠ Some BareNode) → ∀ n, nodes G' !! n ≠ Some BareNode.
Proof.
  intros Hrun HG.
  apply (for_each_invariant (λ G0, ∀ n, nodes G0 !! n ≠ Some BareNode)
           (add_patient df) ps) with (s := G); [|done|done].
  intros Ga x Gb _ HGa (f & t & _ & ->)%add_patient_spec n. simpl.
  rewrite lookup_insert. case_decide; [done|apply HGa].
Qed.

Lemma site_loop_no_bare (df : list Net.t) (ss : list string) (G G' : Graph) :
  for_each (add_site df) ss G = Some G' →
  (∀ n, nodes G !! n ≠ Some BareNode) → ∀ n, nodes G' !! n ≠ Some BareNode.
Proof.
  intros Hrun HG.
  apply (for_each_invariant (λ G0, ∀ n, nodes G0 !! n ≠ Some BareNode)
           (add_site df) ss) with (s := G); [|done|done].
  intros Ga x Gb _ HGa (f & t & _ & ->)%add_site_spec n. simpl.
  rewrite lookup_insert. case_decide; [done|apply HGa].
Qed.

(** The node dictionary of the constructed graph, key by key. *)
Lemma create_nodes_lookup (df : list Net.t) (G : Graph) :
  create_enhanced_bipartite_graph df = Some G →
  (∀ p first rest, rows_of_patient df p = first :: rest →
     nodes G !! patient_id p
       = Some (PatientNode (patient_attrs first (first :: rest)))) ∧
  (∀ s first rest, rows_of_site df s = first :: rest →
     nodes G !! site_id s = Some (SiteNode (site_attrs first (first :: rest)))) ∧
  (∀ n d, nodes G !! n = Some d → d ≠ BareNode).
Proof.
  intros HG. pose proof HG as Hcreate.
  unfold create_enhanced_bipartite_graph in HG.
  destruct (for_each (add_patient df) _ empty_graph) as [G1|] eqn:H1;
    simpl in HG; [|done].
  destruct (for_each (add_site df) _ G1) as [G2|] eqn:H2; simpl in HG; [|done].
  injection HG as <-. simpl.
  assert (∀ p first rest, rows_of_patient df p = first :: rest →
            nodes G2 !! patient_id p
              = Some (PatientNode (patient_attrs first (first :: rest)))) as HP.
  { intros p first rest Hrows.
    rewrite (site_loop_keeps_patients _ _ _ _ _ H2).
    apply (patient_loop_lookup _ _ _ _ _ _ _ H1 Hrows). left.
    apply elem_of_unique, list_elem_of_fmap. exists first. split.
    - assert (first ∈ rows_of_patient df p) as Hin
        by (rewrite Hrows; apply list_elem_of_here).
      by apply list_elem_of_filter in Hin as [-> _].
    - assert (first ∈ rows_of_patient df p) as Hin
        by (rewrite Hrows; apply list_elem_of_here).
      by apply list_elem_of_filter in Hin as [_ ?]. }
  assert (∀ s first rest, rows_of_site df s = first :: rest →
            nodes G2 !! site_id s
              = Some (SiteNode (site_attrs first (first :: rest)))) as HS.
  { intros s first rest Hrows.
    apply (site_loop_lookup _ _ _ _ _ _ _ H2 Hrows). left.
    apply elem_of_unique, list_elem_of_fmap. exists first.
    assert (first ∈ rows_of_site df s) as Hin
      by (rewrite Hrows; apply list_elem_of_here).
    by apply list_elem_of_filter in Hin as [-> ?]. }
  assert (nodes (foldl add_row G2 df) = nodes G2) as Hn.
  { apply edge_loop_nodes. intros r Hr. split.
    - destruct (rows_of_patient_elem df r Hr) as (f & t & Hf).
      rewrite (HP _ _ _ Hf). by eexists.
    - destruct (rows_of_site_elem df r Hr) as (f & t & Hf).
      rewrite (HS _ _ _ Hf). by eexists. }
  rewrite Hn. split; [done|]. split; [done|].
  intros n d Hd ->. revert Hd.
  apply (site_loop_no_bare _ _ _ _ H2).
  apply (patient_loop_no_bare _ _ _ _ H1).
  intros k. simpl. by rewrite lookup_empty.
Qed.

Lemma filter_cons_inv {A} (P : A → Prop) `{∀ x, Decision (P x)}
    (l : list A) (x : A) (k : list A) :
  filter P l = x :: k →
  ∃ l1 l2, l = l1 ++ x :: l2 ∧ Forall (λ y, ¬ P y) l1 ∧ P x ∧ filter P l2 = k.
Proof.
  induction l as [|y t IH]; [done|].
  destruct (decide (P y)) as [Hy|Hy].
  - rewrite filter_cons_True by done. intros [= -> <-].
    by exists [], t.
  - rewrite filter_cons_False by done. intros (l1 & l2 & -> & ? & ? & ?)%IH.
    exists (y :: l1), l2. split; [done|]. split; [by constructor|done].
Qed.

Lemma edge_loop_keys (rows : list Net.t) (G : Graph) :
  (∀ k, is_Some (adj G !! k) →
     ∃ r, r ∈ rows ∧
       (k = (patient_id (Net.PATIENT_KEY r), site_id (Net.SITE_CODE_OF_TREATMENT r)) ∨
        k = (site_id (Net.SITE_CODE_OF_TREATMENT r), patient_id (Net.PATIENT_KEY r)))) →
  ∀ k, is_Some (adj (foldl add_row G rows) !! k) →
     ∃ r, r ∈ rows ∧
       (k = (patient_id (Net.PATIENT_KEY r), site_id (Net.SITE_CODE_OF_TREATMENT r)) ∨
        k = (site_id (Net.SITE_CODE_OF_TREATMENT r), patient_id (Net.PATIENT_KEY r))).
Proof.
  apply (foldl_invariant (λ G0, ∀ k, is_Some (adj G0 !! k) →
     ∃ r, r ∈ rows ∧
       (k = (patient_id (Net.PATIENT_KEY r), site_id (Net.SITE_CODE_OF_TREATMENT r)) ∨
        k = (site_id (Net.SITE_CODE_OF_TREATMENT r), patient_id (Net.PATIENT_KEY r))))).
  intros G0 r Hr HG0 k. unfold add_row.
  destruct (has_edge G0 _ _); simpl.
  - rewrite !lookup_alter_is_Some. apply HG0.
  - rewrite !lookup_insert_is_Some.
    intros [<-|[_ [<-|[_ Hk]]]]; [exists r; auto..|by apply HG0].
Qed.

(** The adjacency of the constructed graph, key by key. *)
Lemma create_adj_lookup (df : list Net.t) (G : Graph) (u v : string)
    (e : EdgeData) :
  create_enhanced_bipartite_graph df = Some G →
  adj G !! (u, v) = Some e ↔
  ∃ p s first rest,
    ((u, v) = (patient_id p, site_id s) ∨ (u, v) = (site_id s, patient_id p)) ∧
    rows_of_pair df p s = first :: rest ∧
    e = set_edge_rate (edge_of_rows first rest).
Proof.
  intros [_ Hadj]%create_enhanced_bipartite_graph_inv.
  assert (symmetric (adj (foldl add_row empty_graph df))) as Hsym
    by (apply edge_loop_symmetric; by intros ??).
  assert (∀ p s, adj G !! (patient_id p, site_id s) =
            match rows_of_pair df p s with
            | [] => None
            | first :: rest => Some (set_edge_rate (edge_of_rows first rest))
            end) as Hps.
  { intros p s. rewrite Hadj, lookup_fmap, edge_loop_lookup. simpl.
    rewrite lookup_empty. by destruct (rows_of_pair df p s). }
  assert (∀ p s, adj G !! (site_id s, patient_id p)
                 = adj G !! (patient_id p, site_id s)) as Hsp.
  { intros p s. by rewrite Hadj, !lookup_fmap, (Hsym (site_id s) (patient_id p)). }
  split.
  - intros He.
    destruct (edge_loop_keys df empty_graph) with (k := (u, v))
      as (r & Hr & Hk).
    { intros k. simpl. rewrite lookup_empty. by intros [? ?]. }
    { rewrite Hadj, lookup_fmap in He.
      destruct (adj (foldl add_row empty_graph df) !! (u, v)); [by eexists|done]. }
    exists (Net.PATIENT_KEY r), (Net.SITE_CODE_OF_TREATMENT r).
    assert (adj G !! (patient_id (Net.PATIENT_KEY r),
                      site_id (Net.SITE_CODE_OF_TREATMENT r)) = Some e) as He'.
    { destruct Hk as [Hk|Hk]; injection Hk as -> ->; [done|by rewrite <- Hsp]. }
    rewrite Hps in He'.
    destruct (rows_of_pair df _ _) as [|first rest]; [done|].
    exists first, rest. injection He' as <-. done.
  - intros (p & s & first & rest & Hk & Hrows & ->).
    destruct Hk as [Hk|Hk]; injection Hk as -> ->.
    + by rewrite Hps, Hrows.
    + by rewrite Hsp, Hps, Hrows.
Qed.

(** X1: The nodes of the constructed graph are exactly one patient node per
    patient key of the frame and one site node per site code, each with the
    attributes computed from its rows; no node is left without attributes. *)
Theorem create_graph_nodes_exact (df : list Net.t) (G : Graph) (n : string)
    (d : NodeData) :
  create_enhanced_bipartite_graph df = Some G →
  nodes G !! n = Some d ↔
  (∃ p first rest, n = patient_id p ∧ rows_of_patient df p = first :: rest ∧
       d = PatientNode (patient_attrs first (first :: rest))) ∨
  (∃ s first rest, n = site_id s ∧ rows_of_site df s = first :: rest ∧
       d = SiteNode (site_attrs first (first :: rest))).
Proof.
  intros HG. destruct (create_nodes_lookup df G HG) as (HP & HS & Hbare).
  destruct (create_enhanced_bipartite_graph_inv df G HG) as [Hok _].
  split.
  - intros Hn. pose proof (Hok n d Hn) as Hd. pose proof (Hbare n d Hn).
    destruct d as [a|a|]; [left|right|done];
      destruct Hd as (k & first & rest & ? & ? & ->); by exists k, first, rest.
  - intros [(p & first & rest & -> & Hrows & ->)|(s & first & rest & -> & Hrows & ->)].
    + by apply HP.
    + by apply HS.
Qed.

Lemma create_graph_nodes_exact_witness :
  create_enhanced_bipartite_graph net_P1 = Some G_P1 ∧
  (nodes G_P1 !! patient_id "P1" = Some (PatientNode attrs_P1) ↔
   (∃ p first rest, patient_id "P1" = patient_id p ∧
        rows_of_patient net_P1 p = first :: rest ∧
        PatientNode attrs_P1 = PatientNode (patient_attrs first (first :: rest))) ∨
   (∃ s first rest, patient_id "P1" = site_id s ∧
        rows_of_site net_P1 s = first :: rest ∧
        PatientNode attrs_P1 = SiteNode (site_attrs first (first :: rest)))).
Proof.
  assert (create_enhanced_bipartite_graph net_P1 = Some G_P1) as HG
    by (vm_compute; reflexivity).
  split; [exact HG|].
  exact (create_graph_nodes_exact net_P1 G_P1 (patient_id "P1")
           (PatientNode attrs_P1) HG).
Defined.

Lemma filter_none {A} (P : A → Prop) `{∀ x, Decision (P x)} (l : list A) :
  (∀ x, x ∈ l → ¬ P x) → filter P l = [].
Proof.
  induction l as [|x t IH]; intros Hl; [done|].
  rewrite filter_cons_False by (apply Hl, list_elem_of_here).
  apply IH. intros y Hy. apply Hl. by apply list_elem_of_further.
Qed.

(** X2: A patient's node takes its age, age group, postcode and organisation
    code from the first row of the frame that carries the patient's key, and
    its counts from all the rows that do. *)
Theorem patient_node_first_row (df : list Net.t) (G : Graph) (p : string)
    (pre post : list Net.t) (first : Net.t) :
  create_enhanced_bipartite_graph df = Some G →
  df = pre ++ first :: post →
  Net.PATIENT_KEY first = p →
  (∀ r, r ∈ pre → Net.PATIENT_KEY r ≠ p) →
  ∃ a, nodes G !! patient_id p = Some (PatientNode a) ∧
       age a = Net.AGE first ∧
       age_group a = classify_age (Net.AGE first) ∧
       postcode a = Net.POSTCODE_SECTOR_OF_USUAL_ADDRESS first ∧
       org_code a = Net.ORG_CODE_LOCAL_PATIENT_IDENTIFIER first ∧
       total_appointments a = len (rows_of_patient df p) ∧
       total_dnas a = sum_Z (Net.DNA_FLAG <$> rows_of_patient df p) ∧
       1 ≤ total_appointments a.
Proof.
  intros HG -> Hp Hpre.
  destruct (create_nodes_lookup _ G HG) as (HP & _ & _).
  assert (rows_of_patient (pre ++ first :: post) p =
          first :: rows_of_patient post p) as Hrows.
  { unfold rows_of_patient. rewrite filter_app, filter_cons_True by done.
    by rewrite (filter_none _ pre Hpre). }
  eexists. split; [by apply HP|].
  cbn [age age_group postcode org_code total_appointments total_dnas patient_attrs].
  rewrite Hrows. fold (len (first :: rows_of_patient post p)).
  repeat split; try done. rewrite len_cons.
  pose proof (len_nonneg (rows_of_patient post p)). lia.
Qed.

Lemma patient_node_first_row_witness :
  create_enhanced_bipartite_graph net_P1 = Some G_P1 ∧
  net_P1 = [] ++ first_row_P1 :: List.tl net_P1 ∧
  ∃ a, nodes G_P1 !! patient_id "P1" = Some (PatientNode a) ∧
       age a = Some 40%Q ∧ total_appointments a = 3.
Proof.
  assert (create_enhanced_bipartite_graph net_P1 = Some G_P1) as HG
    by (vm_compute; reflexivity).
  assert (net_P1 = [] ++ first_row_P1 :: List.tl net_P1) as Hdf
    by (vm_compute; reflexivity).
  destruct (patient_node_first_row net_P1 G_P1 "P1" [] (List.tl net_P1)
              first_row_P1 HG Hdf eq_refl)
    as (a & Ha & Hage & _ & _ & _ & Hn & _).
  { intros r Hr. apply elem_of_nil in Hr. destruct Hr. }
  split; [exact HG|]. split; [exact Hdf|]. exists a.
  split; [exact Ha|]. split; [exact Hage|]. rewrite Hn. vm_compute. reflexivity.
Defined.

(** X3: Sites are smoothed like patients: on a cleaned frame every site node
    has at least one appointment, between none and all of them missed, and
    [site_dna_rate = (dnas + 1) / (appointments + 5)] strictly inside (0, 1). *)
Theorem site_node_rate (df : list Raw.t) (G : Graph) (n : string)
    (a : SiteAttrs) :
  create_enhanced_bipartite_graph (clean_for_network df) = Some G →
  nodes G !! n = Some (SiteNode a) →
  1 ≤ site_total_appointments a ∧
  0 ≤ site_total_dnas a ≤ site_total_appointments a ∧
  (site_dna_rate a ==
     inject_Z (site_total_dnas a + 1) / inject_Z (site_total_appointments a + 5))%Q ∧
  (0 < site_dna_rate a)%Q ∧ (site_dna_rate a < 1)%Q.
Proof.
  intros HG Hn.
  destruct (create_enhanced_bipartite_graph_inv _ G HG) as [Hok _].
  destruct (Hok n _ Hn) as (s & first & rest & _ & Hrows & ->).
  cbn [site_total_appointments site_total_dnas site_dna_rate site_attrs].
  fold (len (first :: rest)).
  assert (1 ≤ len (first :: rest)) as Ha
    by (rewrite len_cons; pose proof (len_nonneg rest); lia).
  assert (0 ≤ sum_Z (Net.DNA_FLAG <$> first :: rest) ≤ len (first :: rest)) as Hd.
  { apply sum_flags_bounds. rewrite <- Hrows. unfold rows_of_site.
    apply Forall_forall. intros r [_ Hr]%list_elem_of_filter.
    by eapply Forall_forall in Hr; [|apply clean_for_network_flags]. }
  destruct (smoothed_rate_bounds _ _ Ha Hd) as [H0 H1].
  split; [done|]. split; [done|]. split; [reflexivity|]. by split.
Qed.

Lemma site_node_rate_witness :
  create_enhanced_bipartite_graph (clean_for_network frame_ABC) = Some G_ABC ∧
  nodes G_ABC !! site_id "S1" = Some (SiteNode site_S1) ∧
  (0 < site_dna_rate site_S1)%Q ∧ (site_dna_rate site_S1 < 1)%Q.
Proof.
  assert (create_enhanced_bipartite_graph (clean_for_network frame_ABC)
          = Some G_ABC) as HG by (vm_compute; reflexivity).
  assert (nodes G_ABC !! site_id "S1" = Some (SiteNode site_S1)) as Hn
    by (vm_compute; reflexivity).
  destruct (site_node_rate frame_ABC G_ABC _ site_S1 HG Hn)
    as (_ & _ & _ & H0 & H1).
  split; [exact HG|]. split; [exact Hn|]. split; [exact H0|exact H1].
Defined.

(** X4: The constructed graph is bipartite and well formed: an edge joins a
    patient node and a site node of the graph that share a row of the frame,
    never a node with itself; both ends show the same dictionary, whose
    weight is the number of rows of the pair.  Every row's patient and site
    are joined. *)
Theorem create_graph_bipartite (df : list Net.t) (G : Graph) :
  create_enhanced_bipartite_graph df = Some G →
  (∀ u v e, adj G !! (u, v) = Some e →
     u ≠ v ∧ adj G !! (v, u) = Some e ∧
     ∃ p s, ((u, v) = (patient_id p, site_id s) ∨
             (u, v) = (site_id s, patient_id p)) ∧
            node_type G (patient_id p) = Some patient ∧
            node_type G (site_id s) = Some site ∧
            weight e = len (rows_of_pair df p s) ∧ 1 ≤ weight e ∧
            dna_count e = sum_Z (Net.DNA_FLAG <$> rows_of_pair df p s)) ∧
  (∀ r, r ∈ df →
     is_Some (adj G !! (patient_id (Net.PATIENT_KEY r),
                        site_id (Net.SITE_CODE_OF_TREATMENT r)))).
Proof.
  intros HG. destruct (create_nodes_lookup df G HG) as (HP & HS & _). split.
  - intros u v e He.
    pose proof (proj1 (create_adj_lookup df G u v e HG) He)
      as (p & s & first & rest & Hk & Hrows & ->).
    assert (first ∈ rows_of_pair df p s) as Hin
      by (rewrite Hrows; apply list_elem_of_here).
    apply list_elem_of_filter in Hin as [[Hfp Hfs] Hin].
    split; [|split].
    + destruct Hk as [Hk|Hk]; injection Hk as -> ->; intros Heq;
        [|symmetry in Heq]; by apply patient_id_ne_site_id in Heq.
    + apply (create_adj_lookup df G v u _ HG). exists p, s, first, rest.
      split; [|done]. destruct Hk as [Hk|Hk]; injection Hk as -> ->; auto.
    + exists p, s. split; [done|].
      destruct (rows_of_patient_elem df first Hin) as (f1 & t1 & H1).
      destruct (rows_of_site_elem df first Hin) as (f2 & t2 & H2).
      rewrite Hfp in H1. rewrite Hfs in H2.
      unfold node_type. rewrite (HP _ _ _ H1), (HS _ _ _ H2).
      rewrite Hrows. cbn [weight dna_count set_edge_rate edge_of_rows].
      rewrite len_cons, fmap_cons, sum_Z_cons.
      pose proof (len_nonneg rest). repeat split; try done. lia.
  - intros r Hr.
    destruct (head_filter_is_Some
                (λ r0, Net.PATIENT_KEY r0 = Net.PATIENT_KEY r ∧
                       Net.SITE_CODE_OF_TREATMENT r0 = Net.SITE_CODE_OF_TREATMENT r)
                df r Hr) as (first & rest & Hrows); [done|].
    eexists. apply (create_adj_lookup df G _ _ _ HG).
    exists (Net.PATIENT_KEY r), (Net.SITE_CODE_OF_TREATMENT r), first, rest.
    split; [by left|]. by split.
Qed.

Lemma create_graph_bipartite_witness :
  create_enhanced_bipartite_graph net_P1 = Some G_P1 ∧
  adj G_P1 !! (site_id "S1", patient_id "P1") = Some edge_P1 ∧
  adj G_P1 !! (patient_id "P1", site_id "S1") = Some edge_P1.
Proof.
  assert (create_enhanced_bipartite_graph net_P1 = Some G_P1) as HG
    by (vm_compute; reflexivity).
  assert (adj G_P1 !! (site_id "S1", patient_id "P1") = Some edge_P1) as He
    by (vm_compute; reflexivity).
  destruct (create_graph_bipartite net_P1 G_P1 HG) as [H _].
  destruct (H _ _ _ He) as (_ & Hsym & _).
  split; [exact HG|]. split; [exact He|exact Hsym].
Defined.

(** ** Node totals against edge totals *)

Lemma NoDup_unique (l : list string) : NoDup (unique l).
Proof.
  induction l as [|x t IH]; simpl; [constructor|].
  constructor.
  - rewrite list_elem_of_filter. by intros [? _].
  - by apply NoDup_filter.
Qed.

Lemma sum_Z_ext {A} (g h : A → Z) (l : list A) :
  (∀ x, x ∈ l → g x = h x) → sum_Z (g <$> l) = sum_Z (h <$> l).
Proof.
  induction l as [|x t IH]; intros Hl; [done|].
  rewrite !fmap_cons, !sum_Z_cons, IH.
  - f_equal. apply Hl, list_elem_of_here.
  - intros y Hy. apply Hl. by apply list_elem_of_further.
Qed.

Lemma sum_Z_perm (l k : list Z) : l ≡ₚ k → sum_Z l = sum_Z k.
Proof.
  induction 1 as [|x l k _ IH|x y l|l k m _ IH1 _ IH2];
    rewrite ?sum_Z_cons; lia.
Qed.

Lemma sum_Z_split_key (g : string → Z) (U : list string) (k0 : string) :
  NoDup U →
  sum_Z (g <$> U) =
  (if decide (k0 ∈ U) then g k0 else 0) + sum_Z (g <$> filter (λ k, k ≠ k0) U).
Proof.
  induction 1 as [|k U Hk _ IH]; [by rewrite decide_False by apply not_elem_of_nil|].
  rewrite fmap_cons, sum_Z_cons, IH.
  destruct (decide (k = k0)) as [->|Hne].
  - rewrite filter_cons_False by (by intros ?).
    rewrite (decide_True (P := k0 ∈ k0 :: U)) by apply list_elem_of_here.
    rewrite decide_False by done. lia.
  - rewrite filter_cons_True by done. rewrite fmap_cons, sum_Z_cons.
    destruct (decide (k0 ∈ U)) as [Hin|Hin].
    + rewrite decide_True by (by apply list_elem_of_further). lia.
    + rewrite decide_False; [lia|].
      intros [?|?]%elem_of_cons; congruence.
Qed.

(** Grouping a list by a key and adding up per group gives the total. *)
Lemma sum_by_key {A} (key : A → string) (f : A → Z) (l : list A) :
  sum_Z ((λ k, sum_Z (f <$> filter (λ x, key x = k) l)) <$> unique (key <$> l))
  = sum_Z (f <$> l).
Proof.
  induction l as [|x t IH]; [done|].
  rewrite !fmap_cons. cbn [unique]. rewrite !fmap_cons, !sum_Z_cons.
  rewrite filter_cons_True by done. rewrite fmap_cons, sum_Z_cons.
  rewrite <- IH.
  rewrite (sum_Z_split_key
             (λ k, sum_Z (f <$> filter (λ x0, key x0 = k) t))
             (unique (key <$> t)) (key x) (NoDup_unique _)).
  rewrite (sum_Z_ext
             (λ k, sum_Z (f <$> filter (λ x0, key x0 = k) (x :: t)))
             (λ k, sum_Z (f <$> filter (λ x0, key x0 = k) t))).
  2:{ intros k [Hk _]%list_elem_of_filter. by rewrite filter_cons_False. }
  destruct (decide (key x ∈ unique (key <$> t))) as [Hin|Hin]; [lia|].
  rewrite (filter_none (λ x0, key x0 = key x) t); [simpl; lia|].
  intros y Hy Heq. apply Hin, elem_of_unique, list_elem_of_fmap. eauto.
Qed.

Lemma rows_of_pair_patient (df : list Net.t) (p s : string) :
  rows_of_pair df p s =
  filter (λ r, Net.SITE_CODE_OF_TREATMENT r = s) (rows_of_patient df p).
Proof.
  unfold rows_of_pair, rows_of_patient.
  induction df as [|r t IH]; [done|].
  destruct (decide (Net.PATIENT_KEY r = p)) as [Hp|Hp];
    destruct (decide (Net.SITE_CODE_OF_TREATMENT r = s)) as [Hs|Hs].
  - rewrite filter_cons_True by done. rewrite (filter_cons_True _ r t) by done.
    rewrite filter_cons_True by done. by rewrite IH.
  - rewrite filter_cons_False by (by intros [? ?]).
    rewrite (filter_cons_True _ r t) by done.
    by rewrite filter_cons_False.
  - rewrite filter_cons_False by (by intros [? ?]).
    by rewrite (filter_cons_False _ r t).
  - rewrite filter_cons_False by (by intros [? ?]).
    by rewrite (filter_cons_False _ r t).
Qed.

(** The neighbours of a patient node are the site nodes of the patient's
    rows, each once. *)
Lemma neighbors_patient (df : list Net.t) (G : Graph) (p : string) :
  create_enhanced_bipartite_graph df = Some G →
  neighbors G (patient_id p) ≡ₚ
  site_id <$> unique (Net.SITE_CODE_OF_TREATMENT <$> rows_of_patient df p).
Proof.
  intros HG. apply NoDup_Permutation.
  - unfold neighbors. apply NoDup_fmap_2_strong.
    + intros [u1 v1] [u2 v2] [H1 _]%list_elem_of_filter
        [H2 _]%list_elem_of_filter Hv. simpl in *. congruence.
    + apply NoDup_filter, NoDup_fst_map_to_list.
  - apply NoDup_fmap_2; [intros ??; apply site_id_inj|apply NoDup_unique].
  - intros v. unfold neighbors. rewrite list_elem_of_fmap. split.
    + intros ([u v'] & -> & [Hu Hin]%list_elem_of_filter). simpl in *. subst u.
      apply list_elem_of_fmap in Hin as ([k e] & Hk & Hin). simpl in Hk. subst k.
      apply elem_of_map_to_list in Hin.
      apply (create_adj_lookup df G _ _ _ HG) in Hin
        as (p' & s & first & rest & Hk & Hrows & _).
      destruct Hk as [Hk|Hk].
      2:{ apply (f_equal fst) in Hk. simpl in Hk.
          by apply patient_id_ne_site_id in Hk. }
      pose proof (f_equal fst Hk) as Hp. pose proof (f_equal snd Hk) as Hv.
      simpl in Hp, Hv. apply patient_id_inj in Hp as <-. subst v'.
      apply list_elem_of_fmap. exists s. split; [done|].
      apply elem_of_unique, list_elem_of_fmap. exists first.
      assert (first ∈ rows_of_pair df p s) as Hin
        by (rewrite Hrows; apply list_elem_of_here).
      rewrite rows_of_pair_patient in Hin.
      by apply list_elem_of_filter in Hin as [-> ?].
    + intros (s & -> & (r & -> & Hr)%elem_of_unique%list_elem_of_fmap)%list_elem_of_fmap.
      assert (r ∈ rows_of_pair df p (Net.SITE_CODE_OF_TREATMENT r)) as Hin.
      { rewrite rows_of_pair_patient. by apply list_elem_of_filter. }
      destruct (rows_of_pair df p (Net.SITE_CODE_OF_TREATMENT r))
        as [|first rest] eqn:Hrows; [by apply elem_of_nil in Hin|].
      exists (patient_id p, site_id (Net.SITE_CODE_OF_TREATMENT r)).
      split; [done|]. apply list_elem_of_filter. split; [done|].
      apply list_elem_of_fmap.
      exists (patient_id p, site_id (Net.SITE_CODE_OF_TREATMENT r),
              set_edge_rate (edge_of_rows first rest)).
      split; [done|]. apply elem_of_map_to_list.
      apply (create_adj_lookup df G _ _ _ HG).
      exists p, (Net.SITE_CODE_OF_TREATMENT r), first, rest. auto.
Qed.

Lemma edge_of_pair (df : list Net.t) (G : Graph) (p s : string) :
  create_enhanced_bipartite_graph df = Some G →
  edge_weight G (patient_id p) (site_id s) = len (rows_of_pair df p s) ∧
  edge_dna_count G (patient_id p) (site_id s)
    = sum_Z (Net.DNA_FLAG <$> rows_of_pair df p s).
Proof.
  intros HG. unfold edge_weight, edge_dna_count.
  destruct (adj G !! (patient_id p, site_id s)) as [e|] eqn:He.
  - apply (create_adj_lookup df G _ _ _ HG) in He
      as (p' & s' & first & rest & Hk & Hrows & ->).
    destruct Hk as [Hk|Hk].
    2:{ apply (f_equal fst) in Hk. simpl in Hk.
        by apply patient_id_ne_site_id in Hk. }
    pose proof (f_equal fst Hk) as Hp. pose proof (f_equal snd Hk) as Hs.
    simpl in Hp, Hs. apply patient_id_inj in Hp as <-.
    apply site_id_inj in Hs as <-. rewrite Hrows.
    cbn [from_option weight dna_count set_edge_rate edge_of_rows].
    by rewrite len_cons, fmap_cons, sum_Z_cons.
  - destruct (rows_of_pair df p s) as [|first rest] eqn:Hrows; [done|].
    assert (adj G !! (patient_id p, site_id s)
            = Some (set_edge_rate (edge_of_rows first rest))) as He';
      [|congruence].
    apply (create_adj_lookup df G _ _ _ HG). exists p, s, first, rest. auto.
Qed.

Lemma len_sum_ones {A} (l : list A) : len l = sum_Z ((λ _, 1) <$> l).
Proof.
  induction l as [|x t IH]; [done|].
  by rewrite len_cons, fmap_cons, sum_Z_cons, IH.
Qed.

(** X5: A patient node agrees with its edges: [unique_sites] is the number of
    its neighbours, [total_appointments] the sum of the weights of its
    edges, [total_dnas] the sum of their [dna_count]. *)
Theorem patient_totals_from_edges (df : list Net.t) (G : Graph) (p : string)
    (a : PatientAttrs) :
  create_enhanced_bipartite_graph df = Some G →
  nodes G !! patient_id p = Some (PatientNode a) →
  unique_sites a = len (neighbors G (patient_id p)) ∧
  total_appointments a
    = sum_Z (edge_weight G (patient_id p) <$> neighbors G (patient_id p)) ∧
  total_dnas a
    = sum_Z (edge_dna_count G (patient_id p) <$> neighbors G (patient_id p)).
Proof.
  intros HG Hn.
  destruct (create_enhanced_bipartite_graph_inv _ G HG) as [Hok _].
  destruct (Hok _ _ Hn) as (p' & first & rest & Hp & Hrows & ->).
  apply patient_id_inj in Hp as <-.
  pose proof (neighbors_patient df G p HG) as Hperm.
  rewrite Hrows in Hperm.
  cbn [unique_sites total_appointments total_dnas patient_attrs].
  fold (len (first :: rest)).
  split; [|split].
  - unfold len. f_equal. rewrite Hperm. by rewrite length_fmap.
  - rewrite (sum_Z_perm _ _ (fmap_Permutation _ _ _ Hperm)).
    rewrite <- list_fmap_compose.
    rewrite (sum_Z_ext _ (λ s, sum_Z ((λ _, 1) <$>
               filter (λ r, Net.SITE_CODE_OF_TREATMENT r = s) (first :: rest)))).
    + by rewrite (sum_by_key Net.SITE_CODE_OF_TREATMENT (λ _, 1)), <- len_sum_ones.
    + intros s _. simpl. rewrite (proj1 (edge_of_pair df G p s HG)).
      by rewrite rows_of_pair_patient, Hrows, len_sum_ones.
  - rewrite (sum_Z_perm _ _ (fmap_Permutation _ _ _ Hperm)).
    rewrite <- list_fmap_compose.
    rewrite (sum_Z_ext _ (λ s, sum_Z (Net.DNA_FLAG <$>
               filter (λ r, Net.SITE_CODE_OF_TREATMENT r = s) (first :: rest)))).
    + by rewrite (sum_by_key Net.SITE_CODE_OF_TREATMENT Net.DNA_FLAG).
    + intros s _. simpl. rewrite (proj2 (edge_of_pair df G p s HG)).
      by rewrite rows_of_pair_patient, Hrows.
Qed.

Lemma patient_totals_from_edges_witness :
  create_enhanced_bipartite_graph net_P1 = Some G_P1 ∧
  nodes G_P1 !! patient_id "P1" = Some (PatientNode attrs_P1) ∧
  neighbors G_P1 (patient_id "P1") = [site_id "S1"] ∧
  total_appointments attrs_P1
    = sum_Z (edge_weight G_P1 (patient_id "P1") <$> [site_id "S1"]).
Proof.
  assert (create_enhanced_bipartite_graph net_P1 = Some G_P1) as HG
    by (vm_compute; reflexivity).
  assert (nodes G_P1 !! patient_id "P1" = Some (PatientNode attrs_P1)) as Hn
    by (vm_compute; reflexivity).
  assert (neighbors G_P1 (patient_id "P1") = [site_id "S1"]) as Hnb
    by (vm_compute; reflexivity).
  destruct (patient_totals_from_edges net_P1 G_P1 "P1" attrs_P1 HG Hn)
    as (_ & Hw & _).
  split; [exact HG|]. split; [exact Hn|]. split; [exact Hnb|].
  rewrite Hnb in Hw. exact Hw.
Defined.

(** ** Cleaning *)


(** ** Minimum-size filter: what comes out *)

Lemma concat_filter_split (P : list string → Prop) `{∀ c, Decision (P c)}
    (cs : list (list string)) :
  concat (filter P cs) ++ concat (filter (λ c, ¬ P c) cs) ≡ₚ concat cs.
Proof.
  induction cs as [|c t IH]; [done|].
  destruct (decide (P c)).
  - rewrite filter_cons_True by done. rewrite filter_cons_False by tauto.
    simpl. by rewrite <- app_assoc, IH.
  - rewrite filter_cons_False by done. rewrite filter_cons_True by done.
    simpl. rewrite <- IH.
    rewrite !app_assoc. apply Permutation_app_tail, Permutation_app_comm.
Qed.

Lemma kept_pooled_perm (cs : list (list string)) (m : Z) :
  concat (kept cs m) ++ pooled cs m ≡ₚ concat cs.
Proof.
  unfold kept, pooled. rewrite <- (concat_filter_split (λ c, m ≤ len c) cs).
  apply Permutation_app_head.
  replace (filter (λ c, len c < m) cs) with (filter (λ c, ¬ m ≤ len c) cs);
    [done|].
  apply list_filter_iff. intros c. lia.
Qed.

Lemma concat_alter_app (l : list (list string)) (i : nat) (c small : list string) :
  l !! i = Some c →
  concat (alter (λ x, x ++ small) i l) ≡ₚ concat l ++ small.
Proof.
  revert i. induction l as [|x t IH]; intros [|i] Hi; simplify_eq/=.
  - rewrite <- !app_assoc. apply Permutation_app_head, Permutation_app_comm.
  - rewrite (IH i Hi). by rewrite app_assoc.
Qed.

Lemma merge_small_perm (large : list (list string)) (small : list string) :
  large ≠ [] → concat (merge_small large small) ≡ₚ concat large ++ small.
Proof.
  intros Hl. destruct (largest_idx_spec large Hl) as (i & Hi & Hfl).
  unfold merge_small. rewrite Hi.
  destruct (lookup_lt_is_Some_2 large i) as [c Hc]; [apply Hfl|].
  by apply (concat_alter_app large i c small).
Qed.

Lemma merge_small_sizes (large : list (list string)) (small : list string) (m : Z) :
  (∀ c, c ∈ large → m ≤ len c) →
  ∀ c, c ∈ merge_small large small → m ≤ len c.
Proof.
  intros Hl c Hc. unfold merge_small in Hc.
  destruct (largest_idx large) as [i|]; [|by apply Hl].
  apply list_elem_of_lookup in Hc as [j Hj].
  rewrite list_lookup_alter in Hj.
  destruct (decide (i = j)) as [->|]; [|apply Hl, list_elem_of_lookup; eauto].
  destruct (large !! j) as [c0|] eqn:Hc0; simplify_eq/=.
  assert (m ≤ len c0) by (apply Hl, list_elem_of_lookup; eauto).
  unfold len in *. rewrite length_app. lia.
Qed.

Lemma kept_sizes (cs : list (list string)) (m : Z) :
  ∀ c, c ∈ kept cs m → m ≤ len c.
Proof. intros c Hc. by apply list_elem_of_filter in Hc as [? _]. Qed.

(** X8: Every community that [filter_communities_by_size] returns has at least
    [min_size] members.  When a community is kept, or the pooled nodes reach
    the minimum, the result holds every node of the partition as often as
    the partition did; otherwise it holds none. *)
Theorem filter_communities_by_size_output (r : CommunityResult) (m : Z) :
  let out := communities (filter_communities_by_size r m) in
  (∀ c, c ∈ out → m ≤ len c) ∧
  (kept (communities r) m ≠ [] ∨ m ≤ len (pooled (communities r) m) →
     concat out ≡ₚ concat (communities r)) ∧
  (kept (communities r) m = [] → len (pooled (communities r) m) < m →
     out = []) ∧
  (length out ≤ length (communities r))%nat.
Proof.
  intros out.
  assert (out =
          if truthy (pooled (communities r) m) && truthy (kept (communities r) m)
          then merge_small (kept (communities r) m) (pooled (communities r) m)
          else if truthy (pooled (communities r) m)
                  && bool_decide (m ≤ len (pooled (communities r) m))
               then kept (communities r) m ++ [pooled (communities r) m]
               else kept (communities r) m) as Hout.
  { unfold out, filter_communities_by_size. by rewrite split_by_size_spec. }
  pose proof (kept_pooled_perm (communities r) m) as Hperm.
  pose proof (kept_sizes (communities r) m) as Hsizes.
  assert (length (kept (communities r) m) ≤ length (communities r))%nat as Hlen
    by apply length_filter.
  destruct (truthy (pooled (communities r) m)) eqn:HS;
    destruct (truthy (kept (communities r) m)) eqn:HL; simpl in Hout.
  - apply truthy_true in HL.
    destruct (merge_small_spec _ (pooled (communities r) m) HL)
      as (i & c & _ & _ & Hlen' & _).
    rewrite Hout. split; [by apply merge_small_sizes|].
    split; [intros _; by rewrite merge_small_perm|].
    split; [by intros ?|]. lia.
  - apply truthy_false in HL. rewrite HL in *. simpl in *.
    destruct (decide (m ≤ len (pooled (communities r) m))) as [Hm|Hm].
    + rewrite bool_decide_eq_true_2 in Hout by done. rewrite Hout.
      split; [by intros c ->%list_elem_of_singleton|].
      split; [intros _; simpl; by rewrite app_nil_r|].
      split; [lia|]. simpl.
      destruct (communities r); [by apply truthy_true in HS|simpl; lia].
    + rewrite bool_decide_eq_false_2 in Hout by done. rewrite Hout.
      split; [by intros c ?%elem_of_nil|].
      split; [by intros [?|?]|]. split; [done|]. simpl. lia.
  - apply truthy_false in HS. rewrite HS in *. rewrite app_nil_r in Hperm.
    rewrite Hout. split; [done|]. split; [done|].
    split; [intros Hk; by rewrite Hk in HL|done].
  - apply truthy_false in HS. apply truthy_false in HL.
    rewrite HS, HL in *. rewrite Hout.
    split; [by intros c ?%elem_of_nil|]. split; [done|]. split; [done|].
    simpl. lia.
Qed.

(** X9: [detect_communities_leiden] returns nothing exactly when the library is
    missing, one of its two calls raises, or the partition is empty.  A
    result it returns is named 'leiden_filtered', has only communities of at
    least the minimum size, holds every node of the partition as often as
    the partition did when a community was kept, and no community when none
    was. *)
Theorem detect_communities_leiden_result (algs : option Cdlib) (e : Z)
    (G : Graph) (m : Z) :
  (detect_communities_leiden algs e G m = None ↔
     algs = None ∨
     ∃ lib, algs = Some lib ∧
       (leiden lib e G = None ∨
        ∃ cs, leiden lib e G = Some cs ∧
              (newman_girvan_modularity lib G cs = None ∨ cs = []))) ∧
  (∀ r, detect_communities_leiden algs e G m = Some r →
     method_name r = "leiden_filtered"%string ∧
     (∀ c, c ∈ communities r → m ≤ len c) ∧
     ∃ lib cs, algs = Some lib ∧ leiden lib e G = Some cs ∧ cs ≠ [] ∧
       (kept cs m ≠ [] → concat (communities r) ≡ₚ concat cs) ∧
       (kept cs m = [] → communities r = [])).
Proof.
  destruct algs as [lib|]; simpl; [|split; [by split; auto|done]].
  destruct (leiden lib e G) as [cs|] eqn:Hl; simpl.
  2:{ split; [|done]. split; [|done]. intros _. right. exists lib. auto. }
  destruct (newman_girvan_modularity lib G cs) as [q|] eqn:Hq; simpl.
  2:{ split; [|done]. split; [|done]. intros _. right. exists lib.
      split; [done|]. right. exists cs. auto. }
  destruct (truthy cs) eqn:Hcs.
  2:{ apply truthy_false in Hcs. split; [|done]. split; [|done]. intros _.
      right. exists lib. split; [done|]. right. exists cs. auto. }
  apply truthy_true in Hcs. rewrite split_by_size_spec. split.
  - split; [done|]. intros [?|(lib' & Hlib & Hcase)]; [done|].
    injection Hlib as <-. destruct Hcase as [?|(cs' & Hcs' & Hbad)]; [congruence|].
    rewrite Hl in Hcs'. injection Hcs' as <-. destruct Hbad; congruence.
  - intros r [= <-]. simpl. split; [done|].
    pose proof (kept_pooled_perm cs m) as Hperm.
    pose proof (kept_sizes cs m) as Hsizes.
    destruct (truthy (pooled cs m)) eqn:HS; destruct (truthy (kept cs m)) eqn:HL;
      simpl.
    + apply truthy_true in HL.
      split; [by apply merge_small_sizes|].
      exists lib, cs. repeat split; try done.
      intros _. by rewrite merge_small_perm.
    + apply truthy_false in HL. rewrite HL.
      split; [by intros c ?%elem_of_nil|]. exists lib, cs. by repeat split.
    + apply truthy_false in HS. rewrite HS, app_nil_r in Hperm.
      split; [done|]. exists lib, cs. by repeat split.
    + apply truthy_false in HL. rewrite HL.
      split; [by intros c ?%elem_of_nil|]. exists lib, cs. by repeat split.
Qed.

(** ** Statistics frame: invariants *)

Lemma insert_desc_sorted (row : CommunityStats) (l : list CommunityStats) :
  StronglySorted (λ a b, (risk_score b <= risk_score a)%Q) l →
  StronglySorted (λ a b, (risk_score b <= risk_score a)%Q) (insert_desc row l).
Proof.
  induction 1 as [|x t Ht IH Hx]; simpl; [by repeat constructor|].
  unfold Qltb. destruct (Qle_bool (risk_score x) (risk_score row)) eqn:Hle; simpl.
  - apply Qle_bool_iff in Hle.
    constructor; [by constructor|]. constructor; [done|].
    eapply Forall_impl; [exact Hx|]. intros y Hy. simpl in Hy. lra.
  - apply Qle_bool_false in Hle. constructor; [done|].
    rewrite insert_desc_perm. constructor; [lra|done].
Qed.

Lemma sort_values_desc_sorted (l : list CommunityStats) :
  StronglySorted (λ a b, (risk_score b <= risk_score a)%Q) (sort_values_desc l).
Proof.
  induction l as [|x t IH]; simpl; [constructor|]. by apply insert_desc_sorted.
Qed.

Lemma community_rows_ids (G : Graph) (cs : list (list string)) (i : nat)
    (rows : list CommunityStats) :
  community_rows G i cs = Some rows →
  StronglySorted Z.lt (community_id <$> rows) ∧
  Forall (λ row, Z.of_nat i ≤ community_id row) rows.
Proof.
  revert i rows. induction cs as [|c t IH]; intros i rows; simpl.
  - intros [= <-]. split; constructor.
  - destruct (community_row G i c) as [r|] eqn:Hr; simpl; [|done].
    destruct (community_rows G (S i) t) as [rest|] eqn:Hrest; simpl; [|done].
    intros [= <-]. destruct (IH _ _ Hrest) as [Hs Hge].
    assert (Forall (λ row, Z.of_nat i ≤ community_id row) rest) as Hge'.
    { eapply Forall_impl; [exact Hge|]. intros y Hy. simpl in Hy. lia. }
    destruct r as [row|]; [|done].
    apply community_row_Some in Hr as (_ & Hid & _).
    split.
    + rewrite fmap_cons. constructor; [done|].
      apply Forall_fmap. eapply Forall_impl; [exact Hge|].
      intros y Hy. simpl in *. lia.
    + constructor; [lia|done].
Qed.

Lemma StronglySorted_lt_NoDup (l : list Z) : StronglySorted Z.lt l → NoDup l.
Proof.
  induction 1 as [|x t _ IH Hx]; constructor; [|done].
  intros Hin. eapply Forall_forall in Hx; [|exact Hin]. lia.
Qed.

Lemma typed_split (G : Graph) (c : list string) :
  is_Some (mapM (node_type G) c) →
  len c = len (patients_in G c) + len (sites_in G c).
Proof.
  intros Hty%mapM_is_Some. unfold patients_in, sites_in.
  induction Hty as [|n t Hn _ IH]; [done|].
  cbn [omap list_omap]. rewrite len_cons, IH.
  destruct Hn as [ty Hty]. unfold node_type, patient_of, site_of in *. simpl in Hty.
  destruct (nodes G !! n) as [[a|a|]|]; simplify_eq; rewrite ?len_cons; lia.
Qed.

Lemma three_way_count (l : list RiskCategory) :
  len (filter (λ x, x = High) l) + len (filter (λ x, x = Medium) l) +
  len (filter (λ x, x = Low) l) = len l.
Proof.
  induction l as [|x t IH]; [done|]. rewrite len_cons, <- IH.
  destruct x;
    repeat (first [rewrite filter_cons_True by done
                  |rewrite filter_cons_False by done]);
    rewrite ?len_cons; lia.
Qed.

Lemma community_row_counts (G : Graph) (i : nat) (c : list string)
    (row : CommunityStats) :
  community_row G i c = Some (Some row) →
  community_size row = patients_count row + sites_count row ∧
  community_size row = len c ∧
  high_risk_patients row + medium_risk_patients row + low_risk_patients row
    = patients_count row ∧
  1 ≤ patients_count row.
Proof.
  intros Hrow. pose proof Hrow as Hrow'. unfold community_row in Hrow.
  destruct (mapM (node_type G) c) as [tys|] eqn:Hty; simpl in Hrow; [|done].
  destruct (truthy (patients_in G c)) eqn:Hp; [|done].
  injection Hrow as <-. simpl.
  split; [apply typed_split; by rewrite Hty|]. split; [done|]. split.
  - destruct (Counter_spec (risk_category <$> patients_in G c) High) as [-> _].
    destruct (Counter_spec (risk_category <$> patients_in G c) Medium) as [-> _].
    destruct (Counter_spec (risk_category <$> patients_in G c) Low) as [-> _].
    rewrite three_way_count. unfold len. by rewrite length_fmap.
  - destruct (patients_in G c); [done|]. rewrite len_cons.
    pose proof (len_nonneg l). lia.
Qed.

(** X10: The statistics frame is never empty, is ordered by [risk_score] with the
    highest first, and has one row per community that has a patient: the
    rows' ids are distinct positions of the partition, every row counts at
    least one patient, its size is its patients plus its sites, and its
    High, Medium and Low counts add up to its patients. *)
Theorem analyze_frame_invariants (G : Graph) (cs : CommunityResult)
    (df : list CommunityStats) :
  analyze_community_dna_patterns G cs = Some df →
  df ≠ [] ∧
  StronglySorted (λ a b, (risk_score b <= risk_score a)%Q) df ∧
  NoDup (community_id <$> df) ∧
  (length df ≤ length (communities cs))%nat ∧
  ∀ row, row ∈ df →
    (∃ c, communities cs !! Z.to_nat (community_id row) = Some c ∧
          0 ≤ community_id row ∧ community_size row = len c) ∧
    1 ≤ patients_count row ∧
    community_size row = patients_count row + sites_count row ∧
    high_risk_patients row + medium_risk_patients row + low_risk_patients row
      = patients_count row.
Proof.
  intros Hdf. pose proof (analyze_rows G cs df Hdf) as Hrows.
  unfold analyze_community_dna_patterns in Hdf.
  destruct (community_rows G 0 (communities cs)) as [rows|] eqn:Hr;
    simpl in Hdf; [|done].
  destruct (truthy rows) eqn:Htr; [|done]. injection Hdf as <-.
  destruct (community_rows_ids _ _ _ _ Hr) as [Hids _].
  assert (NoDup (community_id <$> rows)) as Hnd
    by by apply StronglySorted_lt_NoDup.
  split; [|split; [|split; [|split]]].
  - intros Hnil. apply (f_equal length) in Hnil.
    rewrite (Permutation_length (sort_values_desc_perm rows)) in Hnil.
    by destruct rows.
  - apply sort_values_desc_sorted.
  - by rewrite (sort_values_desc_perm rows).
  - rewrite (Permutation_length (sort_values_desc_perm rows)).
    rewrite <- (length_fmap community_id).
    assert (NoDup (community_id <$> rows) →
            (∀ z, z ∈ community_id <$> rows →
                  0 ≤ z < Z.of_nat (length (communities cs))) →
            (length (community_id <$> rows) ≤ length (communities cs))%nat) as Hcount.
    { generalize (community_id <$> rows), (length (communities cs)).
      intros l n Hl Hrange.
      assert (Z.to_nat <$> l ⊆ seq 0 n) as Hsub.
      { intros k (z & -> & Hz)%list_elem_of_fmap. apply elem_of_seq.
        specialize (Hrange z Hz). lia. }
      assert (NoDup (Z.to_nat <$> l)) as Hnd'.
      { apply NoDup_fmap_2_strong; [|done].
        intros x y Hx Hy Hxy. apply Hrange in Hx. apply Hrange in Hy. lia. }
      pose proof (submseteq_length _ _ (NoDup_submseteq _ _ Hnd' Hsub)) as Hle.
      by rewrite length_fmap, length_seq in Hle. }
    apply Hcount; [done|].
    intros z (row & -> & Hrow)%list_elem_of_fmap.
    assert (row ∈ sort_values_desc rows) as Hin
      by by rewrite (sort_values_desc_perm rows).
    apply Hrows in Hin as (j & c & Hj & Hrowj).
    apply community_row_Some in Hrowj as (_ & -> & _).
    apply lookup_lt_Some in Hj. lia.
  - intros row (j & c & Hj & Hrowj)%Hrows.
    pose proof (community_row_counts _ _ _ _ Hrowj) as (H1 & H2 & H3 & H4).
    apply community_row_Some in Hrowj as (_ & Hid & _).
    split; [|done]. exists c. rewrite Hid, Nat2Z.id. split; [done|]. split; [lia|done].
Qed.

Lemma analyze_frame_invariants_witness :
  analyze_community_dna_patterns G_ABC communities_ABC_site = Some df_ABC_site ∧
  df_ABC_site ≠ [] ∧ NoDup (community_id <$> df_ABC_site).
Proof.
  assert (analyze_community_dna_patterns G_ABC communities_ABC_site
          = Some df_ABC_site) as Hdf by (vm_compute; reflexivity).
  destruct (analyze_frame_invariants G_ABC communities_ABC_site df_ABC_site Hdf)
    as (H1 & _ & H2 & _).
  split; [exact Hdf|]. split; [exact H1|exact H2].
Defined.

Lemma patients_in_elem (G : Graph) (c : list string) (a : PatientAttrs) :
  a ∈ patients_in G c → ∃ n, n ∈ c ∧ nodes G !! n = Some (PatientNode a).
Proof.
  intros (n & Hn & Ha)%list_elem_of_omap. exists n. split; [done|].
  unfold patient_of in Ha. by destruct (nodes G !! n) as [[?|?|]|]; simplify_eq.
Qed.

Lemma sum_Q_bounds (l : list Q) :
  (∀ x, x ∈ l → (0 < x)%Q ∧ (x < 1)%Q) →
  (0 <= sum_Q l)%Q ∧ (sum_Q l <= inject_Z (len l))%Q ∧
  (l ≠ [] → (0 < sum_Q l)%Q ∧ (sum_Q l < inject_Z (len l))%Q).
Proof.
  induction l as [|x t IH]; intros Hl.
  - change (inject_Z (len [])) with 0%Q. change (sum_Q []) with 0%Q.
    split; [lra|]. split; [lra|]. intros Hne. by destruct Hne.
  - destruct IH as (H0 & H1 & _).
    { intros y Hy. apply Hl. by apply list_elem_of_further. }
    destruct (Hl x (list_elem_of_here _ _)) as [Hx0 Hx1].
    rewrite len_cons, inject_Z_plus. change (inject_Z 1) with 1%Q.
    cbn [sum_Q foldr]. fold (sum_Q t).
    repeat split; intros; lra.
Qed.

Lemma mean_bounds (l : list Q) :
  l ≠ [] → (∀ x, x ∈ l → (0 < x)%Q ∧ (x < 1)%Q) →
  (0 < sum_Q l / inject_Z (len l))%Q ∧ (sum_Q l / inject_Z (len l) < 1)%Q.
Proof.
  intros Hne Hl. destruct (sum_Q_bounds l Hl) as (_ & _ & H). destruct (H Hne) as [H0 H1].
  assert (0 < inject_Z (len l))%Q as Hn by lra.
  split.
  - apply Qlt_shift_div_l; [done|]. lra.
  - apply Qlt_shift_div_r; [done|]. lra.
Qed.

Lemma share_bounds (h n : Z) :
  0 ≤ h ≤ n → 0 < n →
  (0 <= inject_Z h / inject_Z n)%Q ∧ (inject_Z h / inject_Z n <= 1)%Q.
Proof.
  intros Hh Hn.
  assert (0 < inject_Z n)%Q as Hpos.
  { change 0%Q with (inject_Z 0). rewrite <- Zlt_Qlt. lia. }
  split.
  - apply Qle_shift_div_l; [done|]. rewrite Qmult_0_l.
    change 0%Q with (inject_Z 0). rewrite <- Zle_Qle. lia.
  - apply Qle_shift_div_r; [done|]. rewrite Qmult_1_l.
    rewrite <- Zle_Qle. lia.
Qed.

Lemma len_filter_le {A} (P : A → Prop) `{∀ x, Decision (P x)} (l : list A) :
  0 ≤ len (filter P l) ≤ len l.
Proof. unfold len. pose proof (length_filter P l). lia. Qed.

Lemma head_Some_elem {A} (l : list A) (x : A) : head l = Some x → x ∈ l.
Proof. destruct l; intros [= ->]. apply list_elem_of_here. Qed.

(** X11: On a graph built from a cleaned frame the composite score keeps to its
    scale: every row of the statistics frame has [risk_score] and
    [avg_dna_rate] strictly between 0 and 1. *)
Theorem risk_score_unit_interval (raw : list Raw.t) (G : Graph)
    (cs : CommunityResult) (df : list CommunityStats) (row : CommunityStats) :
  create_enhanced_bipartite_graph (clean_for_network raw) = Some G →
  analyze_community_dna_patterns G cs = Some df →
  row ∈ df →
  (0 < risk_score row)%Q ∧ (risk_score row < 1)%Q ∧
  (0 < avg_dna_rate row)%Q ∧ (avg_dna_rate row < 1)%Q.
Proof.
  intros HG Hdf (j & c & Hj & Hrow)%(analyze_rows _ _ _ Hdf).
  apply community_row_Some in Hrow as (Hne & _ & Hscore & Havg & _).
  assert (∀ x, x ∈ dna_rate <$> patients_in G c → (0 < x)%Q ∧ (x < 1)%Q) as Hrates.
  { intros x (a & -> & (n & _ & Hn)%patients_in_elem)%list_elem_of_fmap.
    destruct (clean_patient_counts raw G n a HG Hn) as [Ha Hd].
    destruct (create_patient_node _ G n a HG Hn) as (p & first & rest & _ & _ & ->).
    cbn [dna_rate patient_attrs]. cbn [total_appointments total_dnas patient_attrs] in Ha, Hd.
    by apply smoothed_rate_bounds. }
  assert (dna_rate <$> patients_in G c ≠ []) as Hne' by by destruct (patients_in G c).
  destruct (mean_bounds _ Hne' Hrates) as [Hm0 Hm1].
  assert (len (dna_rate <$> patients_in G c) = len (patients_in G c)) as Hlen
    by (unfold len; by rewrite length_fmap).
  rewrite Hlen in Hm0, Hm1.
  assert (0 < len (patients_in G c)) as Hn.
  { destruct (patients_in G c); [done|]. rewrite len_cons.
    pose proof (len_nonneg l). lia. }
  destruct (share_bounds
              (len (filter (λ p, risk_category p = High) (patients_in G c)))
              (len (patients_in G c))) as [Hs0 Hs1]; [apply len_filter_le|done|].
  pose proof (risk_score_formula (patients_in G c) Hne) as Hf.
  rewrite <- Hscore in Hf. rewrite Havg. unfold mean. rewrite Hlen.
  rewrite Hf. repeat split; lra.
Qed.

Lemma risk_score_unit_interval_witness :
  create_enhanced_bipartite_graph (clean_for_network frame_ABC) = Some G_ABC ∧
  analyze_community_dna_patterns G_ABC communities_ABC = Some df_ABC ∧
  ∃ row, head df_ABC = Some row ∧
         (0 < risk_score row)%Q ∧ (risk_score row < 1)%Q.
Proof.
  assert (create_enhanced_bipartite_graph (clean_for_network frame_ABC)
          = Some G_ABC) as HG by (vm_compute; reflexivity).
  assert (analyze_community_dna_patterns G_ABC communities_ABC = Some df_ABC)
    as Hdf by (vm_compute; reflexivity).
  split; [exact HG|]. split; [exact Hdf|].
  destruct (head df_ABC) as [row|] eqn:Hhd; [|vm_compute in Hhd; discriminate].
  exists row. split; [reflexivity|].
  destruct (risk_score_unit_interval frame_ABC G_ABC communities_ABC df_ABC row
              HG Hdf (head_Some_elem _ _ Hhd)) as (H0 & H1 & _).
  split; [exact H0|exact H1].
Defined.
(** ** Order statistics and the percentile tiers *)

Lemma insert_asc_perm (x : Q) (l : list Q) : insert_asc x l ≡ₚ x :: l.
Proof.
  induction l as [|y t IH]; simpl; [done|].
  destruct (Qle_bool x y); [done|].
  rewrite IH. apply Permutation_swap.
Qed.

Lemma sort_asc_perm (l : list Q) : sort_asc l ≡ₚ l.
Proof.
  induction l as [|x t IH]; simpl; [done|].
  by rewrite insert_asc_perm, IH.
Qed.

Lemma insert_asc_sorted (x : Q) (l : list Q) :
  StronglySorted Qle l → StronglySorted Qle (insert_asc x l).
Proof.
  induction 1 as [|y t Ht IH Hy]; simpl.
  - constructor; [constructor|constructor].
  - destruct (Qle_bool x y) eqn:Hxy.
    + apply Qle_bool_iff in Hxy. constructor; [by constructor|].
      constructor; [done|].
      eapply Forall_impl; [exact Hy|]. intros z Hz. simpl in Hz. lra.
    + apply Qle_bool_false in Hxy. constructor; [done|].
      rewrite insert_asc_perm. constructor; [lra|done].
Qed.

Lemma sort_asc_sorted (l : list Q) : StronglySorted Qle (sort_asc l).
Proof.
  induction l as [|x t IH]; simpl; [constructor|by apply insert_asc_sorted].
Qed.

Lemma sorted_lookup_le (s : list Q) (i j : nat) (a b : Q) :
  StronglySorted Qle s → (i ≤ j)%nat →
  s !! i = Some a → s !! j = Some b → (a <= b)%Q.
Proof.
  intros Hs. revert i j. induction Hs as [|y t Ht IH Hy]; intros i j Hij Hi Hj.
  - done.
  - destruct i as [|i], j as [|j]; simpl in *; simplify_eq.
    + lra.
    + rewrite Forall_forall in Hy. apply Hy. by eapply list_elem_of_lookup_2.
    + lia.
    + apply (IH i j); [lia|done..].
Qed.

(** The two order statistics that [quantile] interpolates between. *)
Lemma order_stats_spec (s : list Q) (x0 : Q) (i j : nat) :
  StronglySorted Qle s → s !! 0%nat = Some x0 → (i ≤ j)%nat →
  let a := default x0 (s !! i) in
  let b := default a (s !! j) in
  (a <= b)%Q ∧ a ∈ s ∧ b ∈ s.
Proof.
  intros Hs H0 Hij a b. subst a b.
  destruct (s !! i) as [a|] eqn:Hi; simpl.
  - destruct (s !! j) as [b|] eqn:Hj; simpl.
    + split; [by apply (sorted_lookup_le s i j)|].
      split; by eapply list_elem_of_lookup_2.
    + split; [lra|]. split; by eapply list_elem_of_lookup_2.
  - assert (s !! j = None) as ->.
    { apply lookup_ge_None. apply lookup_ge_None in Hi. lia. }
    simpl. split; [lra|]. split; by eapply list_elem_of_lookup_2.
Qed.

Lemma frac_bounds (x : Q) :
  (0 <= x - inject_Z (Qfloor x))%Q ∧ (x - inject_Z (Qfloor x) <= 1)%Q.
Proof.
  pose proof (Qfloor_le x). pose proof (Qlt_floor x) as Hlt.
  rewrite inject_Z_plus in Hlt. change (inject_Z 1) with 1%Q in Hlt.
  split; lra.
Qed.

Lemma interp_bounds (a b f : Q) :
  (a <= b)%Q → (0 <= f)%Q → (f <= 1)%Q →
  (a <= a + (b - a) * f)%Q ∧ (a + (b - a) * f <= b)%Q.
Proof.
  intros Hab Hf0 Hf1.
  assert (0 <= (b - a) * f)%Q as H1 by (apply Qmult_le_0_compat; lra).
  assert (0 <= (b - a) * (1 - f))%Q as H2 by (apply Qmult_le_0_compat; lra).
  split; lra.
Qed.

(** [quantile] of a non-empty series, whatever [q]: a number between two
    members of the series. *)
Lemma quantile_between (l : list Q) (q : Q) :
  l ≠ [] →
  ∃ v a b, quantile l q = Some v ∧ a ∈ l ∧ b ∈ l ∧ (a <= v)%Q ∧ (v <= b)%Q.
Proof.
  intros Hl. unfold quantile.
  pose proof (sort_asc_sorted l) as Hs. pose proof (sort_asc_perm l) as Hp.
  destruct (sort_asc l) as [|x0 s] eqn:Heq.
  { apply Permutation_nil_l in Hp. by subst. }
  set (pos := (q * inject_Z (len l - 1))%Q).
  destruct (order_stats_spec (x0 :: s) x0 (Z.to_nat (Qfloor pos))
              (Z.to_nat (Qfloor pos + 1)) Hs eq_refl ltac:(lia))
    as (Hab & Ha & Hb).
  destruct (frac_bounds pos) as [Hf0 Hf1].
  eexists _, _, _. split; [reflexivity|].
  split; [rewrite <- Hp; exact Ha|]. split; [rewrite <- Hp; exact Hb|].
  by apply interp_bounds.
Qed.

(** [quantile] grows with [q] on [0, 1]. *)
Lemma quantile_mono (l : list Q) (q1 q2 v1 v2 : Q) :
  (0 <= q1)%Q → (q1 <= q2)%Q → (q2 <= 1)%Q →
  quantile l q1 = Some v1 → quantile l q2 = Some v2 → (v1 <= v2)%Q.
Proof.
  intros Hq0 Hq12 Hq1. unfold quantile.
  pose proof (sort_asc_sorted l) as Hs. pose proof (sort_asc_length l) as Hlen.
  destruct (sort_asc l) as [|x0 s] eqn:Heq; [done|].
  set (n1 := inject_Z (len l - 1)).
  assert (0 <= n1)%Q as Hn.
  { unfold n1, len. rewrite <- Hlen. simpl length.
    change 0%Q with (inject_Z 0). rewrite <- Zle_Qle. lia. }
  set (pos1 := (q1 * n1)%Q). set (pos2 := (q2 * n1)%Q).
  intros H1 H2. apply (inj Some) in H1, H2. subst v1 v2.
  assert (0 <= pos1)%Q as Hp0 by (apply Qmult_le_0_compat; lra).
  assert (pos1 <= pos2)%Q as Hp12.
  { unfold pos1, pos2. apply Qmult_le_compat_r; lra. }
  assert (pos2 <= n1)%Q as Hp2.
  { unfold pos2. rewrite <- (Qmult_1_l n1) at 2. apply Qmult_le_compat_r; lra. }
  assert (0 ≤ Qfloor pos1) as Hlo0.
  { change 0 with (Qfloor 0). by apply Qfloor_resp_le. }
  assert (Qfloor pos1 ≤ Qfloor pos2) as Hlo12 by by apply Qfloor_resp_le.
  assert (Qfloor pos2 ≤ len l - 1) as Hlo2.
  { rewrite <- (Qfloor_Z (len l - 1)). by apply Qfloor_resp_le. }
  destruct (order_stats_spec (x0 :: s) x0 (Z.to_nat (Qfloor pos1))
              (Z.to_nat (Qfloor pos1 + 1)) Hs eq_refl ltac:(lia))
    as (Hab1 & _ & _).
  destruct (order_stats_spec (x0 :: s) x0 (Z.to_nat (Qfloor pos2))
              (Z.to_nat (Qfloor pos2 + 1)) Hs eq_refl ltac:(lia))
    as (Hab2 & _ & _).
  destruct (frac_bounds pos1) as [Hf10 Hf11].
  destruct (frac_bounds pos2) as [Hf20 Hf21].
  destruct (decide (Qfloor pos1 = Qfloor pos2)) as [Hlo|Hlo].
  - rewrite <- Hlo in *.
    set (a := default x0 ((x0 :: s) !! Z.to_nat (Qfloor pos1))) in *.
    set (b := default a ((x0 :: s) !! Z.to_nat (Qfloor pos1 + 1))) in *.
    assert (0 <= (b - a) * (pos2 - pos1))%Q as H
      by (apply Qmult_le_0_compat; lra).
    lra.
  - set (a1 := default x0 ((x0 :: s) !! Z.to_nat (Qfloor pos1))) in *.
    set (b1 := default a1 ((x0 :: s) !! Z.to_nat (Qfloor pos1 + 1))) in *.
    set (a2 := default x0 ((x0 :: s) !! Z.to_nat (Qfloor pos2))) in *.
    set (b2 := default a2 ((x0 :: s) !! Z.to_nat (Qfloor pos2 + 1))) in *.
    destruct (interp_bounds a1 b1 (pos1 - inject_Z (Qfloor pos1)) Hab1 Hf10 Hf11)
      as [_ Hv1].
    destruct (interp_bounds a2 b2 (pos2 - inject_Z (Qfloor pos2)) Hab2 Hf20 Hf21)
      as [Hv2 _].
    assert (b1 <= a2)%Q as Hb; [|lra].
    assert (Z.to_nat (Qfloor pos2) < length (x0 :: s))%nat as Hin2.
    { rewrite Hlen. unfold len in Hlo2. lia. }
    assert (Z.to_nat (Qfloor pos1 + 1) < length (x0 :: s))%nat as Hin1 by lia.
    apply lookup_lt_is_Some_2 in Hin1 as [y1 Hy1].
    apply lookup_lt_is_Some_2 in Hin2 as [y2 Hy2].
    unfold b1, a2. rewrite Hy1, Hy2. simpl.
    apply (sorted_lookup_le (x0 :: s) (Z.to_nat (Qfloor pos1 + 1))
             (Z.to_nat (Qfloor pos2))); [done|lia|done..].
Qed.

Lemma List_filter_nonempty {A} (f : A → bool) (l : list A) (x : A) :
  x ∈ l → f x = true → List.filter f l ≠ [].
Proof.
  intros Hx Hf Hnil.
  assert (x ∈ List.filter f l) as Hin by by apply elem_of_List_filter.
  rewrite Hnil in Hin. by apply elem_of_nil in Hin.
Qed.

(** The two percentile cutoffs of a frame that has rows: numbers, the low
    one at most the high one, with a row at or above the high cutoff and a
    row at or below the low one. *)
Lemma percentile_cutoffs (df : list CommunityStats) :
  df ≠ [] →
  ∃ h l rh rl,
    quantile (risk_score <$> df) (3 # 4) = Some h ∧
    quantile (risk_score <$> df) (1 # 4) = Some l ∧ (l <= h)%Q ∧
    rh ∈ df ∧ (h <= risk_score rh)%Q ∧ rl ∈ df ∧ (risk_score rl <= l)%Q.
Proof.
  intros Hdf.
  assert (risk_score <$> df ≠ []) as Hne by by destruct df.
  destruct (quantile_between (risk_score <$> df) (3 # 4) Hne)
    as (h & _ & bh & Hh & _ & Hbh & _ & Hhb).
  destruct (quantile_between (risk_score <$> df) (1 # 4) Hne)
    as (l & al & _ & Hl & Hal & _ & Hla & _).
  apply list_elem_of_fmap in Hbh as (rh & -> & Hrh).
  apply list_elem_of_fmap in Hal as (rl & -> & Hrl).
  exists h, l, rh, rl. repeat (split; [done|]). split; [|done].
  apply (quantile_mono (risk_score <$> df) (1 # 4) (3 # 4)); [lra..|done|done].
Qed.

(** X13: With percentile cutoffs a statistics frame that has rows always has a
    high-risk and a low-risk community: the two cutoffs are numbers, the low
    one is at most the high one, and neither of the two groups is empty. *)
Theorem percentile_tiers_nonempty (df : list CommunityStats) :
  df ≠ [] →
  ∃ h l, risk_thresholds df true = (Some h, Some l) ∧ (l <= h)%Q ∧
         high_risk (identify_high_low_risk_communities df true) ≠ [] ∧
         low_risk (identify_high_low_risk_communities df true) ≠ [].
Proof.
  intros (h & l & rh & rl & Hh & Hl & Hlh & Hrh & Hhr & Hrl & Hlr)%percentile_cutoffs.
  exists h, l. unfold identify_high_low_risk_communities, risk_thresholds.
  rewrite Hh, Hl. cbn [high_risk low_risk].
  split; [done|]. split; [done|]. split.
  - apply (List_filter_nonempty _ _ rh Hrh). simpl. by apply Qle_bool_iff.
  - apply (List_filter_nonempty _ _ rl Hrl). simpl. by apply Qle_bool_iff.
Qed.

Lemma percentile_tiers_nonempty_witness :
  ∃ h l, risk_thresholds df_ABC true = (Some h, Some l) ∧ (l <= h)%Q ∧
         high_risk (identify_high_low_risk_communities df_ABC true) ≠ [] ∧
         low_risk (identify_high_low_risk_communities df_ABC true) ≠ [].
Proof.
  assert (df_ABC ≠ []) as Hne by (vm_compute; discriminate).
  exact (percentile_tiers_nonempty df_ABC Hne).
Defined.

(** X14: In either mode a row that is in both the high-risk and the low-risk
    group has a score equal to both cutoffs, which are then equal; this
    happens with percentile cutoffs only, never with the fixed cutoffs 0.3
    and 0.1. *)
Theorem tiers_overlap (df : list CommunityStats) (use_percentiles : bool)
    (row : CommunityStats) :
  row ∈ high_risk (identify_high_low_risk_communities df use_percentiles) →
  row ∈ low_risk (identify_high_low_risk_communities df use_percentiles) →
  use_percentiles = true ∧
  ∃ h l, risk_thresholds df true = (Some h, Some l) ∧
         (h == l)%Q ∧ (risk_score row == h)%Q.
Proof.
  unfold identify_high_low_risk_communities.
  destruct (risk_thresholds df use_percentiles) as [h l] eqn:Hthr.
  cbn [high_risk medium_risk low_risk]. rewrite !elem_of_List_filter.
  unfold ge_thr, le_thr. intros [Hrow Hh] [_ Hl].
  destruct h as [h|]; [|done]. destruct l as [l|]; [|done].
  apply Qle_bool_iff in Hh, Hl.
  destruct use_percentiles; unfold risk_thresholds in Hthr.
  - split; [done|]. exists h, l. split; [done|].
    injection Hthr as Hqh Hql.
    pose proof (quantile_mono (risk_score <$> df) (1 # 4) (3 # 4) l h
                  ltac:(lra) ltac:(lra) ltac:(lra) Hql Hqh).
    split; lra.
  - injection Hthr as <- <-. lra.
Qed.

Lemma tiers_overlap_witness :
  ∃ row, head df_ABC = Some row ∧
    ∃ h l, risk_thresholds df_ABC true = (Some h, Some l) ∧
           (h == l)%Q ∧ (risk_score row == h)%Q.
Proof.
  destruct (head df_ABC) as [row|] eqn:Hhd; [|vm_compute in Hhd; discriminate].
  assert (head (high_risk (identify_high_low_risk_communities df_ABC true))
          = head df_ABC) as Hh by (vm_compute; reflexivity).
  assert (head (low_risk (identify_high_low_risk_communities df_ABC true))
          = head df_ABC) as Hl by (vm_compute; reflexivity).
  rewrite Hhd in Hh, Hl.
  destruct (tiers_overlap df_ABC true row (head_Some_elem _ _ Hh)
              (head_Some_elem _ _ Hl)) as [_ H].
  exists row. split; [reflexivity|exact H].
Defined.
(** ** The order of the nodes *)

Lemma insert_by_rank_perm (rank : string → nat) (x : string) (l : list string) :
  insert_by_rank rank x l ≡ₚ x :: l.
Proof.
  induction l as [|y t IH]; simpl; [done|].
  destruct (decide (rank x ≤ rank y)%nat); [done|].
  rewrite IH. apply Permutation_swap.
Qed.

Lemma insert_by_rank_sorted (rank : string → nat) (x : string)
    (l : list string) :
  StronglySorted (λ a b, (rank a ≤ rank b)%nat) l →
  StronglySorted (λ a b, (rank a ≤ rank b)%nat) (insert_by_rank rank x l).
Proof.
  induction 1 as [|y t Ht IH Hy]; simpl; [by repeat constructor|].
  destruct (decide (rank x ≤ rank y)%nat) as [Hxy|Hxy].
  - constructor; [by constructor|]. constructor; [done|].
    eapply Forall_impl; [exact Hy|]. intros z Hz. simpl in Hz. lia.
  - constructor; [done|]. rewrite insert_by_rank_perm.
    constructor; [lia|done].
Qed.

(** [G.nodes()] lists every node of the dictionary once. *)
Lemma node_list_perm (G : Graph) : node_list G ≡ₚ (map_to_list (nodes G)).*1.
Proof.
  unfold node_list. induction ((map_to_list (nodes G)).*1) as [|x t IH];
    simpl; [done|].
  by rewrite insert_by_rank_perm, IH.
Qed.

Lemma node_list_NoDup (G : Graph) : NoDup (node_list G).
Proof. rewrite node_list_perm. apply NoDup_fst_map_to_list. Qed.

Lemma node_list_elem (G : Graph) (n : string) :
  n ∈ node_list G ↔ is_Some (nodes G !! n).
Proof.
  rewrite node_list_perm, list_elem_of_fmap. split.
  - intros ([n' d] & -> & Hd). apply elem_of_map_to_list in Hd. by exists d.
  - intros [d Hd]. exists (n, d). split; [done|]. by apply elem_of_map_to_list.
Qed.

Lemma node_list_sorted (G : Graph) :
  StronglySorted
    (λ a b, (default 0%nat (position G !! a)
             ≤ default 0%nat (position G !! b))%nat) (node_list G).
Proof.
  unfold node_list. induction ((map_to_list (nodes G)).*1) as [|x t IH];
    simpl; [constructor|].
  by apply (insert_by_rank_sorted (λ n, default 0%nat (position G !! n))).
Qed.

(** A list has one arrangement by a rank that tells its members apart. *)
Lemma sorted_perm_unique (rank : string → nat) (l k : list string) :
  l ≡ₚ k →
  StronglySorted (λ a b, (rank a ≤ rank b)%nat) l →
  StronglySorted (λ a b, (rank a < rank b)%nat) k →
  l = k.
Proof.
  revert k. induction l as [|x l IH]; intros k Hperm Hl Hk.
  - by apply Permutation_nil_l in Hperm.
  - destruct k as [|y k]; [by apply Permutation_nil_r in Hperm|].
    apply StronglySorted_inv in Hl as [Hl Hx].
    apply StronglySorted_inv in Hk as [Hk Hy].
    rewrite Forall_forall in Hx, Hy.
    assert (x = y) as ->.
    { assert (x ∈ y :: k) as Hxin by (rewrite <- Hperm; apply list_elem_of_here).
      assert (y ∈ x :: l) as Hyin by (rewrite Hperm; apply list_elem_of_here).
      apply elem_of_cons in Hxin as [?|Hxin]; [done|].
      apply elem_of_cons in Hyin as [?|Hyin]; [done|].
      pose proof (Hx y Hyin). pose proof (Hy x Hxin). lia. }
    f_equal. apply IH; [by eapply Permutation_cons_inv|done..].
Qed.

Lemma sorted_by_index {A} (R : A → A → Prop) (k : list A) :
  (∀ i j x y, k !! i = Some x → k !! j = Some y → (i < j)%nat → R x y) →
  StronglySorted R k.
Proof.
  induction k as [|x k IH]; intros Hk; [constructor|].
  constructor.
  - apply IH. intros i j a b Hi Hj Hij. apply (Hk (S i) (S j)); [done..|lia].
  - apply Forall_forall. intros y Hy. apply list_elem_of_lookup in Hy as [j Hj].
    apply (Hk 0%nat (S j)); [done..|lia].
Qed.

Lemma rank_node_new (n : string) (m : gmap string NodeData)
    (p : gmap string nat) :
  m !! n = None → rank_node n m p = <[n := size m]> p.
Proof. intros Hn. unfold rank_node. by rewrite Hn. Qed.

Lemma rank_node_old (n : string) (m : gmap string NodeData)
    (p : gmap string nat) :
  is_Some (m !! n) → rank_node n m p = p.
Proof. intros [d Hd]. unfold rank_node. by rewrite Hd. Qed.

(** A loop that adds one new node per item ranks the nodes in the order of
    the items, after the nodes that were there. *)
Lemma node_loop_positions (body : Graph → string → option Graph)
    (id : string → string) (xs : list string) (G G' : Graph) :
  (∀ G0 x G1, body G0 x = Some G1 → ∃ d, G1 = add_node G0 (id x) d) →
  (∀ x y, id x = id y → x = y) →
  for_each body xs G = Some G' →
  NoDup xs →
  (∀ x, x ∈ xs → nodes G !! id x = None) →
  size (nodes G') = (size (nodes G) + length xs)%nat ∧
  (∀ i x, xs !! i = Some x →
          position G' !! id x = Some (size (nodes G) + i)%nat) ∧
  (∀ n, (∀ x, x ∈ xs → n ≠ id x) → position G' !! n = position G !! n).
Proof.
  intros Hbody Hinj. revert G.
  induction xs as [|x t IH]; intros G Hrun Hnd Hnew; simpl in Hrun.
  - injection Hrun as <-. split; [simpl; lia|]. split; [done|done].
  - destruct (body G x) as [G1|] eqn:Hx; simpl in Hrun; [|done].
    destruct (Hbody _ _ _ Hx) as [d ->].
    apply NoDup_cons in Hnd as [Hxt Hnd].
    assert (nodes G !! id x = None) as Hxnew
      by (apply Hnew, list_elem_of_here).
    destruct (IH _ Hrun Hnd) as (Hsize & Hpos & Hother).
    { intros y Hy. simpl. rewrite lookup_insert_ne.
      - apply Hnew. by apply list_elem_of_further.
      - intros Heq. apply Hinj in Heq. congruence. }
    simpl in Hsize, Hpos, Hother.
    rewrite map_size_insert_None in Hsize, Hpos by done.
    rewrite (rank_node_new _ _ _ Hxnew) in Hother.
    split; [simpl; lia|]. split.
    + intros [|i] y Hy; simpl in Hy.
      * injection Hy as <-. rewrite Hother.
        -- rewrite lookup_insert_eq. f_equal. lia.
        -- intros y Hy Heq. apply Hinj in Heq. congruence.
      * rewrite (Hpos i y Hy). f_equal. lia.
    + intros n Hn. rewrite Hother.
      * rewrite lookup_insert_ne; [done|]. intros Heq.
        by apply (Hn x (list_elem_of_here _ _)).
      * intros y Hy. apply Hn. by apply list_elem_of_further.
Qed.

Lemma add_row_position (G : Graph) (r : Net.t) :
  is_Some (nodes G !! patient_id (Net.PATIENT_KEY r)) →
  is_Some (nodes G !! site_id (Net.SITE_CODE_OF_TREATMENT r)) →
  position (add_row G r) = position G.
Proof.
  intros Hp Hs. unfold add_row. destruct (has_edge G _ _); simpl; [done|].
  rewrite (touch_node_present _ _ Hp).
  by rewrite (rank_node_old _ _ _ Hp), (rank_node_old _ _ _ Hs).
Qed.

Lemma edge_loop_position (rows : list Net.t) (G : Graph) :
  (∀ r, r ∈ rows →
     is_Some (nodes G !! patient_id (Net.PATIENT_KEY r)) ∧
     is_Some (nodes G !! site_id (Net.SITE_CODE_OF_TREATMENT r))) →
  position (foldl add_row G rows) = position G.
Proof.
  intros Hrows.
  apply (foldl_invariant
           (λ G0, nodes G0 = nodes G ∧ position G0 = position G) add_row rows);
    [|done].
  intros G0 r Hr [HG0 HP0]. destruct (Hrows r Hr) as [Hp Hs].
  rewrite <- HG0 in Hp, Hs.
  split; [by rewrite add_row_nodes_eq|by rewrite add_row_position].
Qed.

(** The ranks in a graph built from a frame: the patients in the order of
    their first rows, then the sites in the order of theirs. *)
Lemma create_positions (df : list Net.t) (G : Graph) :
  create_enhanced_bipartite_graph df = Some G →
  let patients := unique (Net.PATIENT_KEY <$> df) in
  let sites := unique (Net.SITE_CODE_OF_TREATMENT <$> df) in
  (∀ i p, patients !! i = Some p → position G !! patient_id p = Some i) ∧
  (∀ j s, sites !! j = Some s →
          position G !! site_id s = Some (length patients + j)%nat).
Proof.
  intros HG patients sites.
  unfold create_enhanced_bipartite_graph in HG. fold patients sites in HG.
  destruct (for_each (add_patient df) patients empty_graph) as [G1|] eqn:H1;
    simpl in HG; [|done].
  destruct (for_each (add_site df) sites G1) as [G2|] eqn:H2;
    simpl in HG; [|done].
  injection HG as <-. cbn [position].
  destruct (node_loop_positions (add_patient df) patient_id patients
              empty_graph G1) as (Hsize1 & Hpos1 & Hother1);
    [|apply patient_id_inj|done|apply NoDup_unique|done|].
  { intros G0 x G' (f & t & _ & ->)%add_patient_spec. eauto. }
  assert (∀ n d, nodes G1 !! n = Some d → ∃ p, n = patient_id p) as Hkeys1.
  { apply (for_each_invariant
             (λ G0, ∀ n d, nodes G0 !! n = Some d → ∃ p, n = patient_id p)
             (add_patient df) patients) with (s := empty_graph); [|done|done].
    intros G0 x G' _ HG0 (f & t & _ & ->)%add_patient_spec n d. simpl.
    rewrite lookup_insert. case_decide; [intros _; eauto|apply HG0]. }
  destruct (node_loop_positions (add_site df) site_id sites G1 G2)
    as (Hsize2 & Hpos2 & Hother2);
    [|apply site_id_inj|done|apply NoDup_unique| |].
  { intros G0 x G' (f & t & _ & ->)%add_site_spec. eauto. }
  { intros s _. destruct (nodes G1 !! site_id s) as [d|] eqn:Hd; [|done].
    destruct (Hkeys1 _ _ Hd) as [p Hp]. symmetry in Hp.
    by apply patient_id_ne_site_id in Hp. }
  simpl in Hsize1, Hpos1. rewrite map_size_empty in Hsize1, Hpos1.
  simpl in Hsize1.
  assert (position (foldl add_row G2 df) = position G2) as ->.
  { apply edge_loop_position. intros r Hr.
    destruct (rows_of_patient_elem df r Hr) as (f1 & t1 & Hr1).
    destruct (rows_of_site_elem df r Hr) as (f2 & t2 & Hr2).
    split.
    - rewrite (site_loop_keeps_patients df sites G1 G2 _ H2).
      rewrite (patient_loop_lookup df patients empty_graph G1 _ f1 t1 H1 Hr1).
      + by eexists.
      + left. apply elem_of_unique, list_elem_of_fmap. by exists r.
    - rewrite (site_loop_lookup df sites G1 G2 _ f2 t2 H2 Hr2).
      + by eexists.
      + left. apply elem_of_unique, list_elem_of_fmap. by exists r. }
  split.
  - intros i p Hi. rewrite Hother2.
    + by rewrite (Hpos1 i p Hi).
    + intros s _ Heq. by apply patient_id_ne_site_id in Heq.
  - intros j s Hj. rewrite (Hpos2 j s Hj). by rewrite Hsize1.
Qed.

(** [G.nodes()] of a graph built from a frame: the patient nodes in the
    order in which the patients first occur in the frame, then the site
    nodes in the order in which the sites first occur. *)
Lemma create_node_list (df : list Net.t) (G : Graph) :
  create_enhanced_bipartite_graph df = Some G →
  node_list G
  = (patient_id <$> unique (Net.PATIENT_KEY <$> df))
    ++ (site_id <$> unique (Net.SITE_CODE_OF_TREATMENT <$> df)).
Proof.
  intros HG. destruct (create_positions df G HG) as [Hpos1 Hpos2].
  cbn zeta in Hpos1, Hpos2.
  destruct (create_nodes_lookup df G HG) as (HP & HS & Hbare).
  destruct (create_enhanced_bipartite_graph_inv df G HG) as [Hok _].
  set (patients := unique (Net.PATIENT_KEY <$> df)) in *.
  set (sites := unique (Net.SITE_CODE_OF_TREATMENT <$> df)) in *.
  apply (sorted_perm_unique (λ n, default 0%nat (position G !! n))).
  - apply NoDup_Permutation.
    + apply node_list_NoDup.
    + apply NoDup_app. split; [|split].
      * apply NoDup_fmap_2; [intros ??; apply patient_id_inj|].
        apply NoDup_unique.
      * intros n (p & -> & _)%list_elem_of_fmap (s & Hs & _)%list_elem_of_fmap.
        by apply patient_id_ne_site_id in Hs.
      * apply NoDup_fmap_2; [intros ??; apply site_id_inj|].
        apply NoDup_unique.
    + intros n. rewrite node_list_elem, elem_of_app, !list_elem_of_fmap. split.
      * intros [d Hd]. pose proof (Hok _ _ Hd) as Hnode.
        pose proof (Hbare _ _ Hd).
        destruct d as [a|a|]; [left|right|done];
          destruct Hnode as (k & first & rest & -> & Hrows & _);
          exists k; (split; [done|]); apply elem_of_unique.
        -- assert (first ∈ rows_of_patient df k) as Hin
             by (rewrite Hrows; apply list_elem_of_here).
           apply list_elem_of_filter in Hin as [<- Hin].
           apply list_elem_of_fmap. by exists first.
        -- assert (first ∈ rows_of_site df k) as Hin
             by (rewrite Hrows; apply list_elem_of_here).
           apply list_elem_of_filter in Hin as [<- Hin].
           apply list_elem_of_fmap. by exists first.
      * intros [(p & -> & Hp)|(s & -> & Hs)].
        -- apply elem_of_unique, list_elem_of_fmap in Hp as (r & -> & Hr).
           destruct (rows_of_patient_elem df r Hr) as (f1 & t1 & Hr1).
           rewrite (HP _ _ _ Hr1). by eexists.
        -- apply elem_of_unique, list_elem_of_fmap in Hs as (r & -> & Hr).
           destruct (rows_of_site_elem df r Hr) as (f2 & t2 & Hr2).
           rewrite (HS _ _ _ Hr2). by eexists.
  - apply node_list_sorted.
  - apply sorted_by_index. intros i j x y Hi Hj Hij.
    assert (∀ k n, ((patient_id <$> patients) ++ (site_id <$> sites)) !! k
                   = Some n → position G !! n = Some k) as Hrank.
    { intros k n Hk. apply lookup_app_Some in Hk as [Hk|[Hge Hk]].
      - apply list_lookup_fmap_Some in Hk as (p & -> & Hp). by apply Hpos1.
      - apply list_lookup_fmap_Some in Hk as (s & -> & Hs).
        rewrite length_fmap in Hge, Hs. rewrite (Hpos2 _ s Hs).
        f_equal. lia. }
    rewrite (Hrank i x Hi), (Hrank j y Hj). simpl. lia.
Qed.
(** ** The export document *)

Lemma foldl_insert_lookup (v : Z) (c : list string) (m : gmap string Z)
    (n : string) :
  foldl (λ m node, <[node := v]> m) m c !! n
  = if decide (n ∈ c) then Some v else m !! n.
Proof.
  revert m. induction c as [|x t IH]; intros m; simpl.
  - destruct (decide (n ∈ [])) as [H|H]; [by apply elem_of_nil in H|done].
  - rewrite IH. destruct (decide (n ∈ t)) as [Ht|Ht].
    + rewrite decide_True; [done|by apply list_elem_of_further].
    + destruct (decide (n = x)) as [->|Hx].
      * rewrite decide_True by apply list_elem_of_here. by rewrite lookup_insert_eq.
      * rewrite decide_False.
        -- by rewrite lookup_insert_ne.
        -- intros [?|?]%elem_of_cons; done.
Qed.

Lemma node_to_community_acc (cs : list (list string)) :
  (foldl (λ acc community,
            (S acc.1,
             foldl (λ m node, <[node := Z.of_nat acc.1]> m) acc.2 community))
         (0%nat, (∅ : gmap string Z)) cs).1 = length cs.
Proof.
  induction cs as [|c cs IH] using rev_ind; [done|].
  rewrite foldl_app, length_app. simpl. rewrite IH. lia.
Qed.

Lemma node_to_community_snoc (cs : list (list string)) (c : list string)
    (n : string) :
  node_to_community (cs ++ [c]) !! n
  = if decide (n ∈ c) then Some (Z.of_nat (length cs))
    else node_to_community cs !! n.
Proof.
  unfold node_to_community. rewrite foldl_app. simpl.
  rewrite node_to_community_acc. apply foldl_insert_lookup.
Qed.

(** [node_to_community]: a node is mapped to the position of the last
    community that lists it, and a node that no community lists has no
    entry. *)
Lemma node_to_community_spec (cs : list (list string)) (n : string) (i : Z) :
  node_to_community cs !! n = Some i ↔
  ∃ k c, i = Z.of_nat k ∧ cs !! k = Some c ∧ n ∈ c ∧
         ∀ k' c', cs !! k' = Some c' → n ∈ c' → (k' ≤ k)%nat.
Proof.
  revert i. induction cs as [|c cs IH] using rev_ind; intros i.
  - split; [done|]. by intros (k & c & _ & Hk & _).
  - rewrite node_to_community_snoc. destruct (decide (n ∈ c)) as [Hc|Hc].
    + split.
      * intros [= <-]. exists (length cs), c. split; [done|].
        split; [by apply list_lookup_middle|]. split; [done|].
        intros k' c' Hk' _. apply lookup_lt_Some in Hk'.
        rewrite length_app in Hk'. simpl in Hk'. lia.
      * intros (k & c0 & -> & Hk & _ & Hmax).
        pose proof (Hmax (length cs) c (list_lookup_middle _ _ _ _ eq_refl) Hc).
        apply lookup_lt_Some in Hk. rewrite length_app in Hk. simpl in Hk.
        do 2 f_equal. lia.
    + rewrite IH. split.
      * intros (k & c0 & -> & Hk & Hn & Hmax). exists k, c0. split; [done|].
        split; [by apply lookup_app_l_Some|]. split; [done|].
        intros k' c' Hk' Hn'.
        apply lookup_app_Some in Hk' as [Hk'|[_ Hk']]; [by eapply Hmax|].
        apply list_lookup_singleton_Some in Hk' as [_ <-]. done.
      * intros (k & c0 & -> & Hk & Hn & Hmax). exists k, c0. split; [done|].
        apply lookup_app_Some in Hk as [Hk|[_ Hk]].
        -- split; [done|]. split; [done|]. intros k' c' Hk' Hn'.
           apply (Hmax k' c'); [by apply lookup_app_l_Some|done].
        -- apply list_lookup_singleton_Some in Hk as [_ <-]. done.
Qed.

Lemma node_to_community_None (cs : list (list string)) (n : string) :
  node_to_community cs !! n = None ↔ ∀ c, c ∈ cs → n ∉ c.
Proof.
  induction cs as [|c cs IH] using rev_ind.
  - split; [|done]. intros _ c Hc. by apply elem_of_nil in Hc.
  - rewrite node_to_community_snoc. destruct (decide (n ∈ c)) as [Hc|Hc].
    + split; [done|]. intros H. destruct (H c); [|done].
      apply elem_of_app. right. apply list_elem_of_here.
    + rewrite IH. split.
      * intros H c' [Hc'|Hc']%elem_of_app; [by apply H|].
        apply list_elem_of_singleton in Hc' as ->. done.
      * intros H c' Hc'. apply H. apply elem_of_app. by left.
Qed.

Lemma export_node_fields (G : Graph) (ntc : gmap string Z)
    (df : list CommunityStats) (h l : option Q) (n : string) (en : ExportNode) :
  export_node G ntc df h l n = Some en →
  n_id en = n ∧ node_type G n = Some (n_type en) ∧
  n_community en = default (-1) (ntc !! n).
Proof.
  unfold export_node. destruct (node_type G n) as [ty|]; simpl; [|done].
  by intros [= <-].
Qed.

Lemma mapM_ids {A B} (f : A → option B) (g : B → A) (l : list A) (k : list B) :
  (∀ x y, f x = Some y → g y = x) → mapM f l = Some k → g <$> k = l.
Proof.
  intros Hfg Hk. apply mapM_Some_1 in Hk.
  induction Hk as [|x y l k Hxy _ IH]; [done|].
  rewrite fmap_cons, IH. f_equal. by apply Hfg.
Qed.

(** X16: On a graph built by [create_enhanced_bipartite_graph] the export never
    meets a node without ['node_type']: it returns a document that has one
    entry per graph node, in the order of [G.nodes()], which is the order in
    which the nodes were added: the patient nodes in the order in which the
    patients first occur in the frame, then the site nodes in the order in
    which the sites first occur.  Each entry carries the node's kind and, as
    its community, the position of the last community that lists the node,
    or -1 when none does. *)
Theorem export_for_d3js_nodes (df : list Net.t) (G : Graph)
    (cs : CommunityResult) (community_df : list CommunityStats) (now : Z) :
  create_enhanced_bipartite_graph df = Some G →
  ∃ doc, export_for_d3js G cs community_df now = Some doc ∧
    n_id <$> export_nodes doc
    = (patient_id <$> unique (Net.PATIENT_KEY <$> df))
      ++ (site_id <$> unique (Net.SITE_CODE_OF_TREATMENT <$> df)) ∧
    total_nodes (metadata doc) = len (export_nodes doc) ∧
    ∀ en, en ∈ export_nodes doc →
      node_type G (n_id en) = Some (n_type en) ∧
      -1 ≤ n_community en < len (communities cs) ∧
      (n_community en = -1 ↔ ∀ c, c ∈ communities cs → n_id en ∉ c) ∧
      (n_community en ≠ -1 →
       ∃ c, communities cs !! Z.to_nat (n_community en) = Some c ∧
            n_id en ∈ c ∧
            ∀ k' c', communities cs !! k' = Some c' → n_id en ∈ c' →
                     Z.of_nat k' ≤ n_community en).
Proof.
  intros HG. destruct (create_nodes_lookup df G HG) as (_ & _ & Hbare).
  unfold export_for_d3js.
  set (ntc := node_to_community (communities cs)).
  set (h := quantile (risk_score <$> community_df) (3 # 4)).
  set (l := quantile (risk_score <$> community_df) (1 # 4)).
  destruct (mapM (export_node G ntc community_df h l) (node_list G))
    as [d3_nodes|] eqn:Hnodes; simpl.
  - eexists. split; [reflexivity|]. cbn [export_nodes metadata total_nodes].
    assert (n_id <$> d3_nodes = node_list G) as Hids.
    { apply (mapM_ids _ _ _ _ (λ x y H, proj1 (export_node_fields _ _ _ _ _ _ _ H))
               Hnodes). }
    split; [by rewrite Hids, (create_node_list df G HG)|]. split.
    { unfold len. rewrite <- (length_fmap n_id d3_nodes), Hids.
      rewrite (Permutation_length (node_list_perm G)), length_fmap.
      by rewrite length_map_to_list. }
    intros en Hen. apply list_elem_of_lookup in Hen as [i Hi].
    apply mapM_Some_1 in Hnodes.
    destruct (Forall2_lookup_r _ _ _ _ _ Hnodes Hi) as (n & _ & Hn).
    apply export_node_fields in Hn as (<- & Hty & Hcomm).
    split; [done|]. rewrite Hcomm. fold ntc.
    destruct (ntc !! n_id en) as [c|] eqn:Hntc; simpl.
    + unfold ntc in Hntc.
      apply node_to_community_spec in Hntc as (k & c0 & -> & Hk & Hin & Hmax).
      pose proof (lookup_lt_Some _ _ _ Hk) as Hlt.
      split; [unfold len; lia|]. split.
      * split; [lia|]. intros Hnone. destruct (Hnone c0); [|done].
        by eapply list_elem_of_lookup_2.
      * intros _. exists c0. rewrite Nat2Z.id. split; [done|]. split; [done|].
        intros k' c' Hk' Hn'. apply inj_le. by eapply Hmax.
    + unfold ntc in Hntc.
      pose proof (proj1 (node_to_community_None _ _) Hntc) as Hnone.
      split; [pose proof (len_nonneg (communities cs)); lia|].
      split; [by split|]. by intros [].
  - exfalso. apply mapM_None_1 in Hnodes.
    apply Exists_exists in Hnodes as (n & Hn & Hex).
    apply node_list_elem in Hn as [d Hd].
    unfold export_node, node_type in Hex. rewrite Hd in Hex.
    pose proof (Hbare _ _ Hd). by destruct d.
Qed.

Lemma export_for_d3js_nodes_witness :
  create_enhanced_bipartite_graph (clean_for_network frame_ABC) = Some G_ABC ∧
  ∃ doc, export_for_d3js G_ABC communities_ABC df_ABC 0 = Some doc ∧
         n_id <$> export_nodes doc = ["P_A"; "P_B"; "P_C"; "S_S1"] ∧
         total_nodes (metadata doc) = len (export_nodes doc).
Proof.
  assert (create_enhanced_bipartite_graph (clean_for_network frame_ABC)
          = Some G_ABC) as HG by (vm_compute; reflexivity).
  split; [exact HG|].
  destruct (export_for_d3js_nodes (clean_for_network frame_ABC) G_ABC
              communities_ABC df_ABC 0 HG) as (doc & Hdoc & Hids & Hn & _).
  exists doc. split; [exact Hdoc|]. split; [|exact Hn].
  rewrite Hids. vm_compute. reflexivity.
Defined.

Lemma label_counts (h l : option Q) (df : list CommunityStats) :
  let both := len (List.filter (λ c, ge_thr (risk_score c) h
                                     && le_thr (risk_score c) l) df) in
  let high := len (List.filter (λ c, ge_thr (risk_score c) h) df) in
  let low := len (List.filter (λ c, le_thr (risk_score c) l) df) in
  len (filter (λ ec, c_risk_level ec = High) (export_community h l <$> df)) = high ∧
  len (filter (λ ec, c_risk_level ec = Low) (export_community h l <$> df))
    = low - both ∧
  len (filter (λ ec, c_risk_level ec = Medium) (export_community h l <$> df))
    = len df - high - low + both.
Proof.
  induction df as [|row t IH]; [done|].
  cbn zeta in *. destruct IH as (IH1 & IH2 & IH3).
  rewrite fmap_cons, !filter_cons. cbn [List.filter].
  cbn [c_risk_level export_community]. unfold risk_level_of.
  destruct (ge_thr (risk_score row) h), (le_thr (risk_score row) l);
    cbn [andb]; repeat case_decide; try done;
    rewrite ?len_cons, ?IH1, ?IH2, ?IH3; repeat split; lia.
Qed.

(** X17: The counts in the export's metadata against the labels of its community
    entries: as many entries are labelled High as [high_risk_communities]
    says; a row whose score is both at least the high cutoff and at most
    the low one is counted in both metadata groups but labelled High, so
    the Low labels fall short of [low_risk_communities] by the number of
    such rows and the Medium labels exceed [medium_risk_communities] by it. *)
Theorem export_label_counts (G : Graph) (cs : CommunityResult)
    (community_df : list CommunityStats) (now : Z) (doc : ExportDoc) :
  export_for_d3js G cs community_df now = Some doc →
  let md := metadata doc in
  let both :=
    len (List.filter (λ c, ge_thr (risk_score c) (threshold_high md)
                           && le_thr (risk_score c) (threshold_low md))
           community_df) in
  let labelled r :=
    len (filter (λ ec, c_risk_level ec = r) (export_communities doc)) in
  len (export_communities doc) = len community_df ∧
  labelled High = high_risk_communities md ∧
  labelled Low = low_risk_communities md - both ∧
  labelled Medium = medium_risk_communities md + both ∧
  high_risk_communities md + medium_risk_communities md
    + low_risk_communities md = len community_df.
Proof.
  unfold export_for_d3js.
  destruct (mapM _ _) as [d3_nodes|]; simpl; [|done].
  intros [= <-]. cbn zeta.
  cbn [metadata export_communities threshold_high threshold_low
       high_risk_communities low_risk_communities medium_risk_communities].
  destruct (label_counts (quantile (risk_score <$> community_df) (3 # 4))
              (quantile (risk_score <$> community_df) (1 # 4)) community_df)
    as (H1 & H2 & H3).
  cbn zeta in H1, H2, H3.
  split; [unfold len; by rewrite length_fmap|].
  split; [exact H1|]. split; [exact H2|]. split; [rewrite H3; lia|lia].
Qed.

Lemma export_label_counts_witness :
  ∃ doc, export_for_d3js G_ABC communities_ABC df_ABC 0 = Some doc ∧
    len (filter (λ ec, c_risk_level ec = Medium) (export_communities doc))
    = medium_risk_communities (metadata doc) + 1.
Proof.
  destruct (export_for_d3js G_ABC communities_ABC df_ABC 0) as [doc|] eqn:Hdoc;
    [|vm_compute in Hdoc; discriminate].
  destruct (export_label_counts G_ABC communities_ABC df_ABC 0 doc Hdoc)
    as (_ & _ & _ & H & _).
  exists doc. split; [reflexivity|].
  assert (len (List.filter
                 (λ c, ge_thr (risk_score c) (threshold_high (metadata doc))
                       && le_thr (risk_score c) (threshold_low (metadata doc)))
                 df_ABC) = 1) as Hboth.
  { vm_compute in Hdoc. injection Hdoc as <-. vm_compute. reflexivity. }
  rewrite Hboth in H. exact H.
Defined.
(** ** Insights *)

Lemma age_groups_sorted_all (g : AgeGroup) : g ∈ age_groups_sorted.
Proof. destruct g; unfold age_groups_sorted; set_solver. Qed.

(** [groupby(...).mean()]: one entry per age group that some row has, with
    the mean score of the rows of that group. *)
Lemma groupby_mean_spec (df : list CommunityStats) (g : AgeGroup) (m : Q) :
  (g, m) ∈ groupby_mean df ↔
  (∃ row, row ∈ df ∧ dominant_age_group row = g) ∧
  m = mean (risk_score <$> filter (λ c, dominant_age_group c = g) df).
Proof.
  unfold groupby_mean. rewrite list_elem_of_omap. split.
  - intros (g' & _ & Hg').
    destruct (filter (λ c, dominant_age_group c = g') df) as [|row t] eqn:Hf;
      [done|].
    simpl in Hg'. injection Hg' as -> <-. rewrite Hf. split; [|done].
    exists row.
    assert (row ∈ filter (λ c, dominant_age_group c = g) df) as Hin
      by (rewrite Hf; apply list_elem_of_here).
    by apply list_elem_of_filter in Hin as [? ?].
  - intros [(row & Hrow & Hg) ->]. exists g. split; [apply age_groups_sorted_all|].
    assert (row ∈ filter (λ c, dominant_age_group c = g) df) as Hin
      by by apply list_elem_of_filter.
    by destruct (filter (λ c, dominant_age_group c = g) df);
      [apply elem_of_nil in Hin|].
Qed.

Lemma first_desc_acc (t : list (AgeGroup * Q)) (x : AgeGroup * Q) :
  let best := foldl (λ best y, if Qltb best.2 y.2 then y else best) x t in
  best ∈ x :: t ∧ ∀ y, y ∈ x :: t → (y.2 <= best.2)%Q.
Proof.
  revert x. induction t as [|y t IH]; intros x; cbn zeta; simpl.
  - split; [apply list_elem_of_here|].
    intros y ->%list_elem_of_singleton. lra.
  - destruct (IH (if Qltb x.2 y.2 then y else x)) as [Hin Hmax].
    cbn zeta in Hin, Hmax. split.
    + apply elem_of_cons in Hin as [->|Hin].
      * destruct (Qltb x.2 y.2);
          [apply list_elem_of_further, list_elem_of_here|apply list_elem_of_here].
      * by do 2 apply list_elem_of_further.
    + intros z Hz.
      assert ((x.2 <= (if Qltb x.2 y.2 then y else x).2)%Q ∧
              (y.2 <= (if Qltb x.2 y.2 then y else x).2)%Q) as [Hx Hy].
      { unfold Qltb. destruct (Qle_bool y.2 x.2) eqn:Hle; simpl.
        - apply Qle_bool_iff in Hle. split; lra.
        - apply Qle_bool_false in Hle. split; lra. }
      pose proof (Hmax _ (list_elem_of_here _ _)) as Hb.
      apply elem_of_cons in Hz as [->|[->|Hz]%elem_of_cons].
      * lra.
      * lra.
      * apply Hmax. by apply list_elem_of_further.
Qed.

Lemma first_desc_spec (l : list (AgeGroup * Q)) :
  l ≠ [] →
  ∃ x, first_desc l = Some x ∧ x ∈ l ∧ ∀ y, y ∈ l → (y.2 <= x.2)%Q.
Proof.
  destruct l as [|x t]; [done|]. intros _. eexists. split; [reflexivity|].
  apply first_desc_acc.
Qed.

(** X18: The insights for a frame that has rows, with its percentile tiers: the
    list opens with one urgent entry per high-risk community, of which
    there is at least one, each naming a row whose score is at least the
    high cutoff.  Then comes the site entry exactly when the mean of
    ['avg_site_dna_rate'] over the high-risk communities is more than 0.2,
    and the entry carries that mean; there is no site entry when the mean
    is 0.2 or less.  The list closes with the one demographic entry, whose
    age group is the dominant group of some community and has the greatest
    mean risk score among the groups that occur. *)
Theorem insights_of_percentile_tiers (df : list CommunityStats) :
  df ≠ [] →
  let rc := identify_high_low_risk_communities df true in
  let insights := generate_community_insights df rc in
  let group_mean g :=
    mean (risk_score <$> filter (λ c, dominant_age_group c = g) df) in
  let site_rate := mean (avg_site_dna_rate <$> high_risk rc) in
  ∃ g urgent rest,
    insights = urgent ++ rest ++ [DemographicPattern g] ∧
    urgent = (λ comm, HighRiskInsight (community_id comm) (patients_count comm)
                        (avg_dna_rate comm) (dominant_age_group comm))
               <$> high_risk rc ∧
    urgent ≠ [] ∧
    (((1 # 5 < site_rate)%Q ∧ rest = [SitePerformance site_rate]) ∨
     ((site_rate <= 1 # 5)%Q ∧ rest = [])) ∧
    (∃ row, row ∈ df ∧ dominant_age_group row = g) ∧
    ∀ row, row ∈ df → (group_mean (dominant_age_group row) <= group_mean g)%Q.
Proof.
  intros Hdf rc insights group_mean site_rate.
  destruct (percentile_cutoffs df Hdf)
    as (h & l & rh & rl & Hh & Hl & _ & Hrh & Hhr & _).
  assert (high_risk rc ≠ []) as Hhigh.
  { unfold rc, identify_high_low_risk_communities, risk_thresholds.
    rewrite Hh, Hl. cbn [high_risk].
    apply (List_filter_nonempty _ _ rh Hrh). simpl. by apply Qle_bool_iff. }
  assert (groupby_mean df ≠ []) as Hgroups.
  { destruct df as [|row t]; [done|]. intros Hnil.
    assert ((dominant_age_group row,
             mean (risk_score <$> filter
                     (λ c, dominant_age_group c = dominant_age_group row)
                     (row :: t))) ∈ groupby_mean (row :: t)) as Hin.
    { apply groupby_mean_spec. split; [|done]. exists row.
      split; [apply list_elem_of_here|done]. }
    rewrite Hnil in Hin. by apply elem_of_nil in Hin. }
  destruct (first_desc_spec _ Hgroups) as ([g m] & Hfirst & Hin & Hmax).
  apply groupby_mean_spec in Hin as [Hg Hm].
  subst insights. unfold generate_community_insights. rewrite Hfirst.
  fold rc.
  set (urgent := (λ comm, HighRiskInsight (community_id comm)
                            (patients_count comm) (avg_dna_rate comm)
                            (dominant_age_group comm)) <$> high_risk rc).
  assert (urgent ≠ []) as Hurgent by (unfold urgent; by destruct (high_risk rc)).
  assert (0 < len (high_risk rc)) as Hlen.
  { destruct (high_risk rc) as [|x t]; [done|]. rewrite len_cons.
    pose proof (len_nonneg t). lia. }
  rewrite decide_True by done.
  assert (∀ row, row ∈ df →
            (group_mean (dominant_age_group row) <= group_mean g)%Q) as Hbest.
  { intros row Hrow.
    assert ((dominant_age_group row, group_mean (dominant_age_group row))
              ∈ groupby_mean df) as Hrow'.
    { apply groupby_mean_spec. split; [by exists row|done]. }
    apply Hmax in Hrow'. simpl in Hrow'. unfold group_mean at 2.
    by rewrite <- Hm. }
  fold site_rate.
  unfold Qgtb. destruct (Qle_bool site_rate (1 # 5)) eqn:Hr; simpl.
  - apply Qle_bool_iff in Hr.
    exists g, urgent, []. split; [by rewrite app_nil_l|].
    split; [done|]. split; [done|]. split; [by right|]. by split.
  - apply Qle_bool_false in Hr.
    exists g, urgent, [SitePerformance site_rate].
    split; [by rewrite <- app_assoc|].
    split; [done|]. split; [done|]. split; [|by split].
    left. split; [lra|done].
Qed.

Lemma insights_of_percentile_tiers_witness :
  ∃ g urgent rest,
    generate_community_insights df_ABC
      (identify_high_low_risk_communities df_ABC true)
    = urgent ++ rest ++ [DemographicPattern g] ∧ urgent ≠ [] ∧
    let site_rate :=
      mean (avg_site_dna_rate
              <$> high_risk (identify_high_low_risk_communities df_ABC true)) in
    ((1 # 5 < site_rate)%Q ∧ rest = [SitePerformance site_rate]) ∨
    ((site_rate <= 1 # 5)%Q ∧ rest = []).
Proof.
  assert (df_ABC ≠ []) as Hne by (vm_compute; discriminate).
  destruct (insights_of_percentile_tiers df_ABC Hne)
    as (g & urgent & rest & H & _ & Hu & Hs & _).
  exists g, urgent, rest. split; [exact H|]. split; [exact Hu|exact Hs].
Defined.
(** ** The service after a run *)

(** The two ways a run can end. *)
Lemma run_analysis_cases (env : Env) (st : AnalysisState) (w : World) :
  (∃ e w',
     run_analysis env (st, w) = (inl e, (with_progress (error e) st, w')) ∧
     export_file w' = export_file w) ∨
  (∃ raw sampled G cs df doc w',
     data_files w = inr raw ∧
     (sample_data_for_network env raw 20000 42 (np_random_state w)).1
       = Some sampled ∧
     create_enhanced_bipartite_graph (clean_for_network sampled) = Some G ∧
     detect_communities_leiden (algorithms env) (entropy w) G 10 = Some cs ∧
     analyze_community_dna_patterns G cs = Some df ∧
     export_for_d3js G cs df (clock w) = Some doc ∧
     export_file w' = Some doc ∧
     run_analysis env (st, w) =
       (inr true,
        ({| graph := Some G; state_communities := Some cs;
            community_df := Some df;
            network_data := Some (clean_for_network sampled);
            risk_communities :=
              Some (identify_high_low_risk_communities df true);
            initialized := true; last_updated := Some (clock w);
            analysis_progress := completed |}, w'))).
Proof.
  run_unfold.
  destruct (data_files w) as [msg|raw] eqn:Hdata.
  { left. eexists _, _. split; [reflexivity|done]. }
  destruct (sample_data_for_network env raw 20000 42 (np_random_state w))
    as [[sampled|] np'] eqn:Hsample.
  2:{ left. eexists _, _. split; [reflexivity|done]. }
  destruct (create_enhanced_bipartite_graph (clean_for_network sampled))
    as [G|] eqn:HG.
  2:{ left. eexists _, _. split; [reflexivity|done]. }
  cbn [entropy clock fst snd].
  destruct (detect_communities_leiden (algorithms env) (entropy w) G 10)
    as [cs|] eqn:Hcs.
  2:{ left. eexists _, _. split; [reflexivity|done]. }
  destruct (analyze_community_dna_patterns G cs) as [df|] eqn:Hdf.
  2:{ left. eexists _, _. split; [reflexivity|done]. }
  cbn [entropy clock fst snd].
  destruct (export_for_d3js G cs df (clock w)) as [doc|] eqn:Hdoc.
  2:{ left. eexists _, _. split; [reflexivity|done]. }
  right. exists raw, sampled, G, cs, df, doc. eexists.
  split; [done|]. split; [by rewrite Hsample|].
  repeat (split; [done|]). split; [|reflexivity]. done.
Qed.

(** X19: A run that fails changes nothing but the progress field, which then
    holds the exception that reaches the caller: the results of an earlier
    run and the export file stay as they were, so every read endpoint
    answers as before, and a new request to initialise is accepted exactly
    when no earlier run had succeeded. *)
Theorem run_failure_keeps_results (env : Env) (st st' : AnalysisState)
    (w w' : World) (e : PyError) :
  run_analysis env (st, w) = (inl e, (st', w')) →
  st' = with_progress (error e) st ∧
  export_file w' = export_file w ∧
  get_graph_data st' w' = get_graph_data st w ∧
  (∀ id, get_community_details st' w' id = get_community_details st w id) ∧
  get_insights st' = get_insights st ∧
  initialize_analysis st'
    = if initialized st then already_completed else analysis_started.
Proof.
  intros Hrun.
  destruct (run_analysis_cases env st w)
    as [(e0 & w0 & Hrun0 & Hfile)|(? & ? & ? & ? & ? & ? & ? & Hrun0)].
  - rewrite Hrun in Hrun0. injection Hrun0 as -> -> ->.
    split; [done|]. split; [done|].
    unfold get_graph_data, get_community_details, get_insights,
      initialize_analysis.
    cbn [initialized with_progress community_df risk_communities
         analysis_progress in_progress].
    rewrite Hfile. done.
  - destruct Hrun0 as (_ & _ & _ & _ & _ & _ & _ & Hrun0).
    rewrite Hrun in Hrun0.
    discriminate.
Qed.

Lemma run_failure_keeps_results_witness :
  ∃ e st' w',
    run_analysis env_unavailable (initial_state, world_ABC 0 0 0)
      = (inl e, (st', w')) ∧
    st' = with_progress (error e) initial_state ∧
    initialize_analysis st' = analysis_started.
Proof.
  destruct (run_analysis env_unavailable (initial_state, world_ABC 0 0 0))
    as [[e|b] [st' w']] eqn:Hrun; [|vm_compute in Hrun; discriminate].
  destruct (run_failure_keeps_results env_unavailable initial_state st'
              (world_ABC 0 0 0) w' e Hrun) as (Hst & _ & _ & _ & _ & Hinit).
  exists e, st', w'. split; [reflexivity|]. split; [exact Hst|exact Hinit].
Defined.

Lemma analyze_graph_nonempty (G : Graph) (cs : CommunityResult)
    (df : list CommunityStats) :
  analyze_community_dna_patterns G cs = Some df → df ≠ [] ∧ nodes G ≠ ∅.
Proof.
  intros Hdf. pose proof (analyze_rows G cs df Hdf) as Hrows.
  assert (df ≠ []) as Hne.
  { unfold analyze_community_dna_patterns in Hdf.
    destruct (community_rows G 0 (communities cs)) as [rows|];
      simpl in Hdf; [|done].
    destruct (truthy rows) eqn:Htr; [|done]. injection Hdf as <-.
    intros Hnil. pose proof (sort_values_desc_perm rows) as Hp.
    rewrite Hnil in Hp. apply Permutation_nil_l in Hp. by subst rows. }
  split; [done|]. destruct df as [|row t]; [done|].
  destruct (proj1 (Hrows row) (list_elem_of_here _ _)) as (j & c & _ & Hrow).
  apply community_row_Some in Hrow as (Hp & _).
  destruct (patients_in G c) as [|a l] eqn:Hpat; [done|].
  assert (a ∈ patients_in G c) as Ha by (rewrite Hpat; apply list_elem_of_here).
  apply patients_in_elem in Ha as (n & _ & Hn).
  intros Hempty. rewrite Hempty in Hn. by rewrite lookup_empty in Hn.
Qed.

(** X20: After a run that succeeds the read endpoints agree with the document
    the run exported: [GET /graph/data] serves that document, [GET /status]
    reports it initialised and completed with the node, edge and community
    counts of the document's metadata, of which the node count is positive,
    [GET /insights] serves the insights of the published frame with its
    percentile tiers, and a new request to initialise is answered as
    already completed. *)
Theorem service_after_success (env : Env) (st st' : AnalysisState)
    (w w' : World) (b : bool) :
  run_analysis env (st, w) = (inr b, (st', w')) →
  ∃ doc df,
    export_file w' = Some doc ∧ community_df st' = Some df ∧
    get_graph_data st' w' = inr doc ∧
    status_initialized (get_status st') = true ∧
    progress (get_status st') = completed ∧
    node_count (get_status st') = Some (total_nodes (metadata doc)) ∧
    edge_count (get_status st') = Some (total_edges (metadata doc)) ∧
    community_count (get_status st')
      = Some (total_communities (metadata doc)) ∧
    0 < total_nodes (metadata doc) ∧
    get_insights st'
      = inr (generate_community_insights df
               (identify_high_low_risk_communities df true)) ∧
    initialize_analysis st' = already_completed.
Proof.
  intros Hrun.
  destruct (run_analysis_cases env st w)
    as [(e0 & w0 & Hrun0 & _)|
        (raw & sampled & G & cs & df & doc & w0 & _ & _ & HG & _ & Hdf & Hdoc
           & Hfile & Hrun0)].
  { rewrite Hrun in Hrun0. discriminate. }
  rewrite Hrun in Hrun0. injection Hrun0 as -> -> ->.
  destruct (analyze_graph_nonempty G cs df Hdf) as [_ Hnodes].
  exists doc, df. split; [done|]. split; [done|].
  unfold get_graph_data, get_status, get_insights, initialize_analysis,
    graph_truthy.
  cbn [initialized graph state_communities community_df risk_communities
       analysis_progress in_progress negb status_initialized progress
       node_count edge_count community_count].
  rewrite Hfile. rewrite bool_decide_eq_true_2 by done.
  unfold export_for_d3js in Hdoc. destruct (mapM _ _); [|done].
  simpl in Hdoc. injection Hdoc as <-.
  cbn [metadata total_nodes total_edges total_communities].
  repeat (split; [done|]). split; [|done].
  destruct (decide (size (nodes G) = 0%nat)) as [H0|H0]; [|lia].
  by apply map_size_empty_inv in H0.
Qed.

Lemma service_after_success_witness :
  ∃ st' w' doc,
    run_analysis env_ward (initial_state, world_ward 7) = (inr true, (st', w')) ∧
    get_graph_data st' w' = inr doc ∧
    node_count (get_status st') = Some (total_nodes (metadata doc)) ∧
    initialize_analysis st' = already_completed.
Proof.
  destruct (run_analysis env_ward (initial_state, world_ward 7))
    as [[e|b] [st' w']] eqn:Hrun; [vm_compute in Hrun; discriminate|].
  assert (b = true) as Hb by (vm_compute in Hrun; congruence).
  destruct (service_after_success env_ward initial_state st' (world_ward 7) w' b
              Hrun) as (doc & df & _ & _ & Hdata & _ & _ & Hn & _ & _ & _ & _ & Hi).
  exists st', w', doc. rewrite Hb.
  split; [reflexivity|]. split; [exact Hdata|]. split; [exact Hn|exact Hi].
Defined.
(** ** Community details *)

Lemma export_nodes_fields (G : Graph) (cs : CommunityResult)
    (df : list CommunityStats) (now : Z) (doc : ExportDoc) :
  export_for_d3js G cs df now = Some doc →
  n_id <$> export_nodes doc = node_list G ∧
  export_communities doc
    = export_community (threshold_high (metadata doc))
        (threshold_low (metadata doc)) <$> df ∧
  ∀ en, en ∈ export_nodes doc →
    node_type G (n_id en) = Some (n_type en) ∧
    n_community en
      = default (-1) (node_to_community (communities cs) !! n_id en).
Proof.
  unfold export_for_d3js.
  destruct (mapM _ _) as [d3_nodes|] eqn:Hnodes; simpl; [|done].
  intros [= <-]. cbn [export_nodes export_communities metadata threshold_high
                      threshold_low].
  split; [|split; [done|]].
  - apply (mapM_ids _ _ _ _ (λ x y H, proj1 (export_node_fields _ _ _ _ _ _ _ H))
             Hnodes).
  - intros en Hen. apply list_elem_of_lookup in Hen as [i Hi].
    apply mapM_Some_1 in Hnodes.
    destruct (Forall2_lookup_r _ _ _ _ _ Hnodes Hi) as (n & _ & Hn).
    by apply export_node_fields in Hn as (<- & Hty & Hcomm).
Qed.

Lemma NoDup_fmap_filter {A B} (f : A → B) (P : A → Prop)
    `{∀ x, Decision (P x)} (l : list A) :
  NoDup (f <$> l) → NoDup (f <$> filter P l).
Proof.
  induction l as [|x t IH]; [done|].
  rewrite fmap_cons, NoDup_cons. intros [Hx Ht].
  rewrite filter_cons. destruct (decide (P x)); [|by apply IH].
  rewrite fmap_cons, NoDup_cons. split; [|by apply IH].
  intros (y & Hy & [_ Hin]%list_elem_of_filter)%list_elem_of_fmap.
  apply Hx. apply list_elem_of_fmap. by exists y.
Qed.

Lemma elem_of_concat_intro {A} (l : list (list A)) (a : list A) (x : A) :
  x ∈ a → a ∈ l → x ∈ concat l.
Proof.
  intros Hx. induction l as [|c l IH]; intros Ha; [by apply elem_of_nil in Ha|].
  simpl. apply elem_of_app. apply elem_of_cons in Ha as [<-|Ha]; [by left|].
  right. by apply IH.
Qed.

(** In a partition a node is listed by one community only. *)
Lemma concat_NoDup_lookup {A} (l : list (list A)) (i j : nat) (a b : list A)
    (x : A) :
  NoDup (concat l) → l !! i = Some a → l !! j = Some b → x ∈ a → x ∈ b →
  i = j.
Proof.
  revert i j. induction l as [|c l IH]; intros i j Hnd Hi Hj Ha Hb; [done|].
  simpl in Hnd. apply NoDup_app in Hnd as (_ & Hdisj & Hl).
  destruct i as [|i], j as [|j]; simpl in *; simplify_eq.
  - done.
  - destruct (Hdisj x Ha). apply (elem_of_concat_intro _ b); [done|].
    by eapply list_elem_of_lookup_2.
  - destruct (Hdisj x Hb). apply (elem_of_concat_intro _ a); [done|].
    by eapply list_elem_of_lookup_2.
  - f_equal. by apply IH.
Qed.

Lemma concat_NoDup_member {A} (l : list (list A)) (i : nat) (a : list A) :
  NoDup (concat l) → l !! i = Some a → NoDup a.
Proof.
  revert i. induction l as [|c l IH]; intros i Hnd Hi; [done|].
  simpl in Hnd. apply NoDup_app in Hnd as (Hc & _ & Hl).
  destruct i as [|i]; simpl in Hi; [by simplify_eq|by eapply IH].
Qed.

Lemma patients_in_length (G : Graph) (c : list string) :
  len (patients_in G c) = len (filter (λ n, node_type G n = Some patient) c).
Proof.
  unfold len, patients_in. f_equal. induction c as [|n t IH]; [done|].
  rewrite filter_cons.
  destruct (decide (node_type G n = Some patient)) as [Hd|Hd];
    cbn [omap list_omap]; unfold patient_of at 1; unfold node_type in Hd;
    destruct (nodes G !! n) as [[?|?|]|]; try congruence; simpl;
    by rewrite IH.
Qed.

Lemma sites_in_length (G : Graph) (c : list string) :
  len (sites_in G c) = len (filter (λ n, node_type G n = Some site) c).
Proof.
  unfold len, sites_in. f_equal. induction c as [|n t IH]; [done|].
  rewrite filter_cons.
  destruct (decide (node_type G n = Some site)) as [Hd|Hd];
    cbn [omap list_omap]; unfold site_of at 1; unfold node_type in Hd;
    destruct (nodes G !! n) as [[?|?|]|]; try congruence; simpl;
    by rewrite IH.
Qed.

(** The export's nodes of one kind in one community of a partition are the
    community's members of that kind. *)
Lemma details_count (G : Graph) (cs : CommunityResult)
    (df : list CommunityStats) (now : Z) (doc : ExportDoc) (j : nat)
    (c : list string) (ty : NodeType) :
  export_for_d3js G cs df now = Some doc →
  NoDup (concat (communities cs)) →
  communities cs !! j = Some c →
  len (filter (λ n, n_type n = ty)
         (filter (λ n, n_community n = Z.of_nat j) (export_nodes doc)))
  = len (filter (λ n, node_type G n = Some ty) c).
Proof.
  intros (Hids & _ & Hfields)%export_nodes_fields Hnd Hc.
  unfold len. f_equal.
  rewrite <- (length_fmap n_id). apply Permutation_length.
  apply NoDup_Permutation.
  - do 2 apply NoDup_fmap_filter. rewrite Hids. apply node_list_NoDup.
  - apply NoDup_filter. by eapply concat_NoDup_member.
  - intros x. rewrite list_elem_of_fmap. split.
    + intros (en & -> & [Hty [Hcomm Hen]%list_elem_of_filter]%list_elem_of_filter).
      destruct (Hfields en Hen) as [Htype Hntc].
      apply list_elem_of_filter. split; [by rewrite Htype, Hty|].
      rewrite Hcomm in Hntc.
      destruct (node_to_community (communities cs) !! n_id en) as [i|] eqn:Hi;
        simpl in Hntc; [|lia].
      subst i. apply node_to_community_spec in Hi
        as (k & c0 & Hk & Hc0 & Hin & _).
      apply Nat2Z.inj in Hk as <-. by simplify_eq.
    + intros [Hty Hin]%list_elem_of_filter.
      assert (x ∈ node_list G) as Hkey.
      { unfold node_type in Hty. apply node_list_elem.
        destruct (nodes G !! x) as [d|] eqn:Hd; [by eexists|done]. }
      rewrite <- Hids in Hkey.
      apply list_elem_of_fmap in Hkey as (en & -> & Hen).
      exists en. split; [done|].
      destruct (Hfields en Hen) as [Htype Hntc].
      apply list_elem_of_filter. split; [congruence|].
      apply list_elem_of_filter. split; [|done].
      rewrite Hntc.
      assert (node_to_community (communities cs) !! n_id en
              = Some (Z.of_nat j)) as ->; [|done].
      apply node_to_community_spec. exists j, c. split; [done|].
      split; [done|]. split; [done|]. intros k' c' Hk' Hin'.
      by rewrite (concat_NoDup_lookup _ k' j c' c (n_id en) Hnd Hk' Hc Hin' Hin).
Qed.

Lemma analyze_ids_NoDup (G : Graph) (cs : CommunityResult)
    (df : list CommunityStats) :
  analyze_community_dna_patterns G cs = Some df → NoDup (community_id <$> df).
Proof.
  unfold analyze_community_dna_patterns.
  destruct (community_rows G 0 (communities cs)) as [rows|] eqn:Hr;
    simpl; [|done].
  destruct (truthy rows); [|done]. intros [= <-].
  destruct (community_rows_ids _ _ _ _ Hr) as [Hids _].
  rewrite sort_values_desc_perm. by apply StronglySorted_lt_NoDup.
Qed.

Lemma head_filter_key {A B} `{EqDecision B} (f : A → B) (l : list A) (x : A) :
  NoDup (f <$> l) → x ∈ l → head (filter (λ y, f y = f x) l) = Some x.
Proof.
  induction l as [|y t IH]; intros Hnd Hx; [by apply elem_of_nil in Hx|].
  rewrite fmap_cons, NoDup_cons in Hnd. destruct Hnd as [Hy Ht].
  rewrite filter_cons. apply elem_of_cons in Hx as [->|Hx].
  - by rewrite decide_True.
  - rewrite decide_False; [by apply IH|].
    intros Heq. apply Hy. rewrite Heq. apply list_elem_of_fmap. by exists x.
Qed.

Lemma typed_count (l : list ExportNode) :
  len l = len (filter (λ n, n_type n = patient) l)
          + len (filter (λ n, n_type n = site) l).
Proof.
  induction l as [|n t IH]; [done|].
  rewrite !filter_cons. destruct (n_type n) eqn:Hty.
  - rewrite decide_True, decide_False by done. rewrite !len_cons. lia.
  - rewrite decide_False, decide_True by done. rewrite !len_cons. lia.
Qed.

(** X21: [GET /communities/{id}] on the document exported for a partition: the
    endpoint answers 404 exactly for the ids that no row of the statistics
    frame has, among them every community without a patient; for the id of
    a row it returns the entry of that row, and the patient, site and node
    counts of its [stats] are the [patients_count], the [sites_count] and
    the [size] of the row. *)
Theorem community_details_consistent (G : Graph) (cs : CommunityResult)
    (df : list CommunityStats) (now : Z) (doc : ExportDoc)
    (st : AnalysisState) (w : World) (id : Z) :
  analyze_community_dna_patterns G cs = Some df →
  export_for_d3js G cs df now = Some doc →
  NoDup (concat (communities cs)) →
  initialized st = true → export_file w = Some doc →
  ((∀ row, row ∈ df → community_id row ≠ id) →
   get_community_details st w id
     = inl (HTTPException 404 ("Community " +:+ pretty id +:+ " not found"))) ∧
  (∀ row, row ∈ df → community_id row = id →
   ∃ d, get_community_details st w id = inr d ∧
        details_community d
          = export_community (threshold_high (metadata doc))
              (threshold_low (metadata doc)) row ∧
        details_patients d = patients_count row ∧
        details_sites d = sites_count row ∧
        details_node_count d = community_size row).
Proof.
  intros Hdf Hdoc Hnd Hinit Hfile.
  pose proof (export_nodes_fields G cs df now doc Hdoc) as (_ & Hcomms & _).
  unfold get_community_details. rewrite Hinit, Hfile. cbn [negb].
  rewrite Hcomms.
  set (h := threshold_high (metadata doc)).
  set (l := threshold_low (metadata doc)).
  split.
  - intros Hnone.
    destruct (filter (λ c, c_id c = id) (export_community h l <$> df))
      as [|ec t] eqn:Hf; [done|].
    assert (ec ∈ filter (λ c, c_id c = id) (export_community h l <$> df))
      as Hin by (rewrite Hf; apply list_elem_of_here).
    apply list_elem_of_filter in Hin as [Hid Hin].
    apply list_elem_of_fmap in Hin as (row & -> & Hrow).
    by destruct (Hnone row Hrow).
  - intros row Hrow Hid.
    assert (head (filter (λ c, c_id c = id) (export_community h l <$> df))
            = Some (export_community h l row)) as ->.
    { rewrite <- Hid.
      change (community_id row) with (c_id (export_community h l row)).
      apply head_filter_key.
      - rewrite <- list_fmap_compose. by eapply analyze_ids_NoDup.
      - apply list_elem_of_fmap. by exists row. }
    eexists. split; [reflexivity|].
    cbn [details_community details_patients details_sites details_node_count].
    split; [done|].
    destruct (proj1 (analyze_rows G cs df Hdf row) Hrow) as (j & c & Hc & Hr).
    pose proof (community_row_Some _ _ _ _ Hr) as (_ & Hj & _).
    pose proof (community_row_counts _ _ _ _ Hr) as (Hsize & _ & _ & _).
    assert (patients_count row = len (patients_in G c) ∧
            sites_count row = len (sites_in G c)) as [Hp Hs].
    { unfold community_row in Hr. destruct (mapM _ _); simpl in Hr; [|done].
      destruct (truthy (patients_in G c)); [|done]. by simplify_eq. }
    rewrite <- Hid, Hj.
    rewrite (typed_count (filter _ (export_nodes doc))).
    rewrite !(details_count G cs df now doc j c) by done.
    rewrite <- patients_in_length, <- sites_in_length. lia.
Qed.

Lemma community_details_consistent_witness :
  ∃ doc d,
    export_for_d3js G_ABC communities_ABC df_ABC 0 = Some doc ∧
    get_community_details
      {| graph := Some G_ABC; state_communities := Some communities_ABC;
         community_df := Some df_ABC; network_data := None;
         risk_communities := None; initialized := true;
         last_updated := Some 0; analysis_progress := completed |}
      {| data_files := inr frame_ABC; export_file := Some doc; clock := 0;
         np_random_state := 0; entropy := 0 |} 0 = inr d ∧
    details_patients d = 3 ∧ details_sites d = 1.
Proof.
  assert (analyze_community_dna_patterns G_ABC communities_ABC = Some df_ABC)
    as Hdf by (vm_compute; reflexivity).
  destruct (export_for_d3js G_ABC communities_ABC df_ABC 0) as [doc|] eqn:Hdoc;
    [|vm_compute in Hdoc; discriminate].
  assert (NoDup (concat (communities communities_ABC))) as Hnd.
  { apply NoDup_ListNoDup.
    repeat (constructor; [vm_compute; intuition discriminate|]). constructor. }
  destruct (head df_ABC) as [row|] eqn:Hrow; [|vm_compute in Hrow; discriminate].
  assert (community_id row = 0 ∧ patients_count row = 3 ∧ sites_count row = 1)
    as (Hid & Hp & Hs).
  { vm_compute in Hrow. injection Hrow as <-. repeat split; reflexivity. }
  destruct (community_details_consistent G_ABC communities_ABC df_ABC 0 doc
              {| graph := Some G_ABC; state_communities := Some communities_ABC;
                 community_df := Some df_ABC; network_data := None;
                 risk_communities := None; initialized := true;
                 last_updated := Some 0; analysis_progress := completed |}
              {| data_files := inr frame_ABC; export_file := Some doc;
                 clock := 0; np_random_state := 0; entropy := 0 |}
              0 Hdf Hdoc Hnd eq_refl eq_refl) as [_ H].
  destruct (H row (head_Some_elem _ _ Hrow) Hid) as (d & Hd & _ & Hdp & Hds & _).
  exists doc, d. split; [reflexivity|]. split; [exact Hd|].
  split; [rewrite Hdp; exact Hp|rewrite Hds; exact Hs].
Defined.
(** ** Fixed cutoffs ([data_prep.py]) *)

Lemma three_filters_perm {A} (f g h : A → bool) (l : list A) :
  (∀ x, x ∈ l →
     (f x = true ∧ g x = false ∧ h x = false) ∨
     (f x = false ∧ g x = true ∧ h x = false) ∨
     (f x = false ∧ g x = false ∧ h x = true)) →
  l ≡ₚ List.filter f l ++ List.filter g l ++ List.filter h l.
Proof.
  induction l as [|x t IH]; intros Hl; [done|].
  assert (t ≡ₚ List.filter f t ++ List.filter g t ++ List.filter h t) as IH'.
  { apply IH. intros y Hy. apply Hl. by apply list_elem_of_further. }
  cbn [List.filter].
  destruct (Hl x (list_elem_of_here _ _))
    as [(-> & -> & ->)|[(-> & -> & ->)|(-> & -> & ->)]].
  - cbn [app]. by rewrite <- IH'.
  - cbn [app]. rewrite <- Permutation_middle. by rewrite <- IH'.
  - rewrite app_assoc, <- Permutation_middle, <- app_assoc. by rewrite <- IH'.
Qed.

(** X15: With fixed cutoffs of which the low one is below the high one the three
    groups split the frame: every row is in exactly one of them.  The
    cutoffs 0.3 and 0.1 give the groups that the Leiden module computes
    without percentiles. *)
Theorem fixed_tiers_partition (df : list CommunityStats) (high low : Q) :
  (low < high)%Q →
  let rc := data_prep.identify_high_low_risk_communities df high low in
  df ≡ₚ high_risk rc ++ medium_risk rc ++ low_risk rc ∧
  identify_high_low_risk_communities df false
    = data_prep.identify_high_low_risk_communities df (3 # 10) (1 # 10).
Proof.
  intros Hlh rc. split; [|done].
  unfold rc, data_prep.identify_high_low_risk_communities.
  cbn [high_risk medium_risk low_risk].
  apply three_filters_perm. intros row _. unfold Qgtb, Qltb.
  destruct (Qle_bool high (risk_score row)) eqn:Hh;
    [apply Qle_bool_iff in Hh|apply Qle_bool_false in Hh];
    (destruct (Qle_bool (risk_score row) low) eqn:Hl;
     [apply Qle_bool_iff in Hl|apply Qle_bool_false in Hl]); simpl.
  - lra.
  - left. done.
  - right. right. done.
  - right. left. done.
Qed.

Lemma fixed_tiers_partition_witness :
  df_ABC ≡ₚ
    high_risk (data_prep.identify_high_low_risk_communities df_ABC
                 (3 # 10) (1 # 10)) ++
    medium_risk (data_prep.identify_high_low_risk_communities df_ABC
                   (3 # 10) (1 # 10)) ++
    low_risk (data_prep.identify_high_low_risk_communities df_ABC
                (3 # 10) (1 # 10)).
Proof.
  assert (1 # 10 < 3 # 10)%Q as Hlt by reflexivity.
  destruct (fixed_tiers_partition df_ABC (3 # 10) (1 # 10) Hlt) as [H _].
  exact H.
Defined.
(** ** The backbone ([create_backbone]) *)

Lemma neighbors_elem (G : Graph) (u v : string) :
  v ∈ neighbors G u ↔ is_Some (adj G !! (u, v)).
Proof.
  unfold neighbors. rewrite list_elem_of_fmap. split.
  - intros ([u' v'] & -> & [Hu Hin]%list_elem_of_filter). simpl in *. subst u'.
    apply list_elem_of_fmap in Hin as ([k e] & -> & Hin).
    apply elem_of_map_to_list in Hin. by exists e.
  - intros [e He]. exists (u, v). split; [done|].
    apply list_elem_of_filter. split; [done|].
    apply list_elem_of_fmap. exists ((u, v), e). split; [done|].
    by apply elem_of_map_to_list.
Qed.

Lemma foldl_remove_edge_lookup (l : list (string * string))
    (m : gmap (string * string) EdgeData) (u v : string) :
  foldl data_prep.remove_edge m l !! (u, v)
  = if decide ((u, v) ∈ l ∨ (v, u) ∈ l) then None else m !! (u, v).
Proof.
  revert m. induction l as [|[a b] l IH]; intros m.
  - destruct (decide ((u, v) ∈ [] ∨ (v, u) ∈ [])) as [[H|H]|H]; [..|done];
      by apply elem_of_nil in H.
  - cbn [foldl]. rewrite IH. unfold data_prep.remove_edge. cbn [fst snd].
    destruct (decide ((u, v) ∈ l ∨ (v, u) ∈ l)) as [Hl|Hl].
    + rewrite decide_True; [done|].
      destruct Hl; [left|right]; by apply list_elem_of_further.
    + rewrite !lookup_delete.
      destruct (decide ((b, a) = (u, v))) as [Hba|Hba].
      * rewrite decide_True; [done|]. right. injection Hba as -> ->.
        apply list_elem_of_here.
      * destruct (decide ((a, b) = (u, v))) as [Hab|Hab].
        -- rewrite decide_True; [done|]. left. rewrite Hab.
           apply list_elem_of_here.
        -- rewrite decide_False; [done|].
           intros [[?|?]%elem_of_cons|[?|?]%elem_of_cons]; try tauto.
           ++ congruence.
           ++ apply Hba. congruence.
Qed.

Lemma node_removals_elem (G : Graph) (alpha : Q) (n : string)
    (r : list (string * string)) (u v : string) :
  data_prep.node_removals G alpha n = Some r →
  (u, v) ∈ r ↔
  u = n ∧ 1 < data_prep.degree G n ∧ v ∈ neighbors G n ∧
  Qltb (data_prep.p_value G n v) alpha = false.
Proof.
  unfold data_prep.node_removals.
  destruct (decide (1 < data_prep.degree G n)) as [Hd|Hd].
  - destruct (decide _) as [|Ht]; [done|]. intros [= <-].
    rewrite list_elem_of_fmap. split.
    + intros (nb & [= -> ->] & [Hp Hin]%list_elem_of_filter). done.
    + intros (-> & _ & Hin & Hp). exists v. split; [done|].
      by apply list_elem_of_filter.
  - intros [= <-]. split; [by intros ?%elem_of_nil|]. by intros (_ & ? & _).
Qed.

Lemma mapM_concat_elem {A B} (f : A → option (list B)) (l : list A)
    (k : list (list B)) (x : B) :
  mapM f l = Some k →
  x ∈ concat k ↔ ∃ a r, a ∈ l ∧ f a = Some r ∧ x ∈ r.
Proof.
  intros Hk%mapM_Some_1. induction Hk as [|a r l k Har _ IH]; simpl.
  - split; [by intros ?%elem_of_nil|]. by intros (? & ? & ?%elem_of_nil & _).
  - rewrite elem_of_app, IH. split.
    + intros [Hx|(a' & r' & Ha' & Hr' & Hx)].
      * exists a, r. split; [apply list_elem_of_here|done].
      * exists a', r'. split; [by apply list_elem_of_further|done].
    + intros (a' & r' & [->|Ha']%elem_of_cons & Hr' & Hx).
      * left. congruence.
      * right. by exists a', r'.
Qed.

(** The adjacency of the backbone, edge by edge. *)
Lemma backbone_lookup (G B : Graph) (alpha : Q) :
  data_prep.create_backbone G alpha = Some B →
  (∀ u v, is_Some (adj G !! (u, v)) → is_Some (nodes G !! u)) →
  symmetric (adj G) →
  nodes B = nodes G ∧
  ∀ u v e, adj B !! (u, v) = Some e ↔
    adj G !! (u, v) = Some e ∧ passes_at G alpha u v ∧ passes_at G alpha v u.
Proof.
  unfold data_prep.create_backbone.
  destruct (mapM _ _) as [rem|] eqn:Hrem; simpl; [|done].
  intros [= <-] Hnodes Hsym. split; [done|]. intros u v e. simpl.
  assert (∀ a b, is_Some (adj G !! (a, b)) →
            ((a, b) ∈ concat rem ↔ ¬ passes_at G alpha a b)) as Hin.
  { intros a b Hab. rewrite (mapM_concat_elem _ _ _ _ Hrem). split.
    - intros (n & r & _ & Hr & Hx).
      apply (node_removals_elem _ _ _ _ _ _ Hr) in Hx as (-> & Hd & _ & Hp).
      intros [?|Hp']; [lia|congruence].
    - intros Hnot.
      destruct (data_prep.node_removals G alpha a) as [r|] eqn:Hr.
      + exists a, r. split.
        * apply node_list_elem. apply (Hnodes a b Hab).
        * split; [done|]. apply (node_removals_elem _ _ _ _ _ _ Hr).
          split; [done|]. unfold passes_at in Hnot.
          split; [|split].
          -- destruct (decide (1 < data_prep.degree G a)); [done|].
             destruct Hnot. left. lia.
          -- by apply neighbors_elem.
          -- destruct (Qltb (data_prep.p_value G a b) alpha); [|done].
             destruct Hnot. by right.
      + exfalso. apply mapM_Some_1 in Hrem.
        destruct (Hnodes a b Hab) as [d Hd].
        assert (a ∈ node_list G) as Ha by (apply node_list_elem; by exists d).
        apply list_elem_of_lookup in Ha as [i Hi].
        destruct (Forall2_lookup_l _ _ _ _ _ Hrem Hi) as (r & _ & Hr').
        congruence. }
  rewrite foldl_remove_edge_lookup.
  destruct (adj G !! (u, v)) as [e'|] eqn:He.
  2:{ split; [by destruct (decide _)|]. by intros [? _]. }
  assert (is_Some (adj G !! (v, u))) as Hvu by (rewrite <- Hsym, He; by eexists).
  assert (is_Some (adj G !! (u, v))) as Huv by (rewrite He; by eexists).
  destruct (decide _) as [Hd|Hd].
  - split; [done|]. intros (_ & H1 & H2).
    destruct Hd as [Hd|Hd]; [by apply (Hin u v Huv) in Hd|
                             by apply (Hin v u Hvu) in Hd].
  - split; [|by intros [? _]]. intros Heq. split; [done|].
    assert (∀ a b, is_Some (adj G !! (a, b)) → (a, b) ∉ concat rem →
              passes_at G alpha a b) as Hpass.
    { intros a b Hab Hnin. unfold passes_at.
      destruct (decide (1 < data_prep.degree G a)); [|left; lia].
      destruct (Qltb (data_prep.p_value G a b) alpha) eqn:Hp; [by right|].
      destruct Hnin. apply (Hin a b Hab). intros [?|?]; [lia|congruence]. }
    split; apply Hpass; try done; intros ?; apply Hd; auto.
Qed.

Lemma built_graph_shape (df : list Net.t) (G : Graph) :
  create_enhanced_bipartite_graph df = Some G →
  symmetric (adj G) ∧
  ∀ u v e, adj G !! (u, v) = Some e →
    u ≠ v ∧ 1 ≤ weight e ∧ is_Some (nodes G !! u).
Proof.
  intros HG. destruct (create_nodes_lookup df G HG) as (HP & HS & _).
  assert (∀ u v e, adj G !! (u, v) = Some e → adj G !! (v, u) = Some e) as Hflip.
  { intros u v e He.
    pose proof (proj1 (create_adj_lookup df G u v e HG) He)
      as (p & s & first & rest & Hk & Hrows & ->).
    apply (create_adj_lookup df G v u _ HG). exists p, s, first, rest.
    split; [|done]. destruct Hk as [Hk|Hk]; injection Hk as -> ->; auto. }
  split.
  - intros u v. destruct (adj G !! (u, v)) as [e|] eqn:He.
    + symmetry. by apply Hflip.
    + destruct (adj G !! (v, u)) as [e|] eqn:He'; [|done].
      apply Hflip in He'. congruence.
  - intros u v e He.
    pose proof (proj1 (create_adj_lookup df G u v e HG) He)
      as (p & s & first & rest & Hk & Hrows & ->).
    assert (first ∈ rows_of_pair df p s) as Hin
      by (rewrite Hrows; apply list_elem_of_here).
    apply list_elem_of_filter in Hin as [[Hfp Hfs] Hin].
    destruct (rows_of_patient_elem df first Hin) as (f1 & t1 & H1).
    destruct (rows_of_site_elem df first Hin) as (f2 & t2 & H2).
    rewrite Hfp in H1. rewrite Hfs in H2.
    split; [|split].
    + destruct Hk as [Hk|Hk]; injection Hk as -> ->; intros Heq;
        [|symmetry in Heq]; by apply patient_id_ne_site_id in Heq.
    + cbn [weight set_edge_rate edge_of_rows]. pose proof (len_nonneg rest). lia.
    + destruct Hk as [Hk|Hk]; injection Hk as -> ->.
      * rewrite (HP _ _ _ H1). by eexists.
      * rewrite (HS _ _ _ H2). by eexists.
Qed.

Lemma sum_Z_lower (f : string → Z) (l : list string) :
  (∀ x, x ∈ l → 1 ≤ f x) → len l ≤ sum_Z (f <$> l).
Proof.
  induction l as [|x t IH]; intros Hl; [done|].
  rewrite fmap_cons, sum_Z_cons, len_cons.
  pose proof (Hl x (list_elem_of_here _ _)).
  assert (len t ≤ sum_Z (f <$> t)).
  { apply IH. intros y Hy. apply Hl. by apply list_elem_of_further. }
  lia.
Qed.

Lemma sum_Z_upper (f : string → Z) (l : list string) (m : Z) :
  (∀ x, x ∈ l → f x ≤ m) → sum_Z (f <$> l) ≤ len l * m.
Proof.
  induction l as [|x t IH]; intros Hl; [done|].
  rewrite fmap_cons, sum_Z_cons, len_cons.
  pose proof (Hl x (list_elem_of_here _ _)).
  assert (sum_Z (f <$> t) ≤ len t * m).
  { apply IH. intros y Hy. apply Hl. by apply list_elem_of_further. }
  lia.
Qed.

(** X22: On a graph built from a frame [create_backbone] returns a graph with
    the same nodes, in which an edge of the graph stays exactly when it
    passes at both of its ends: the end has no other edge, or the edge's
    share of the end's weight, raised to the number of the end's other
    neighbours, is below [alpha]. *)
Theorem create_backbone_spec (df : list Net.t) (G : Graph) (alpha : Q) :
  create_enhanced_bipartite_graph df = Some G →
  ∃ B, data_prep.create_backbone G alpha = Some B ∧
    nodes B = nodes G ∧
    ∀ u v e, adj B !! (u, v) = Some e ↔
      adj G !! (u, v) = Some e ∧ passes_at G alpha u v ∧ passes_at G alpha v u.
Proof.
  intros HG. destruct (built_graph_shape df G HG) as [Hsym Hshape].
  destruct (data_prep.create_backbone G alpha) as [B|] eqn:HB.
  - exists B. split; [done|]. apply (backbone_lookup G B alpha HB); [|done].
    intros u v [e He]. by destruct (Hshape u v e He) as (_ & _ & ?).
  - exfalso. unfold data_prep.create_backbone in HB.
    destruct (mapM _ _) as [rem|] eqn:Hrem; [done|].
    apply mapM_None_1, Exists_exists in Hrem as (n & _ & Hn).
    unfold data_prep.node_removals in Hn.
    destruct (decide (1 < data_prep.degree G n)) as [Hd|]; [|done].
    destruct (decide _) as [Hzero|]; [|done].
    assert (adj G !! (n, n) = None) as Hloop.
    { destruct (adj G !! (n, n)) as [e|] eqn:He; [|done].
      by destruct (Hshape n n e He) as (? & _). }
    unfold data_prep.degree in Hd. rewrite Hloop in Hd.
    rewrite decide_False in Hd by (by intros [? ?]).
    assert (len (neighbors G n) ≤ sum_Z (edge_weight G n <$> neighbors G n))
      as Hlow; [|lia].
    apply sum_Z_lower. intros v [e He]%neighbors_elem.
    destruct (Hshape n v e He) as (_ & Hw & _).
    unfold edge_weight. by rewrite He.
Qed.

Lemma create_backbone_spec_witness :
  create_enhanced_bipartite_graph (clean_for_network frame_two_sites)
    = Some G_two_sites ∧
  ∃ B, data_prep.create_backbone G_two_sites (1 # 20) = Some B ∧
       nodes B = nodes G_two_sites.
Proof.
  assert (create_enhanced_bipartite_graph (clean_for_network frame_two_sites)
          = Some G_two_sites) as HG by (vm_compute; reflexivity).
  split; [exact HG|].
  destruct (create_backbone_spec (clean_for_network frame_two_sites)
              G_two_sites (1 # 20) HG) as (B & HB & Hn & _).
  exists B. split; [exact HB|exact Hn].
Defined.

Lemma heavy_edge_fails (df : list Net.t) (G : Graph) (u v : string) :
  create_enhanced_bipartite_graph df = Some G →
  len (neighbors G u) = 2 ∨ len (neighbors G u) = 3 →
  v ∈ neighbors G u →
  (∀ v', v' ∈ neighbors G u → edge_weight G u v' ≤ edge_weight G u v) →
  ¬ passes_at G (1 # 20) u v.
Proof.
  intros HG Hk Hv Hmax. destruct (built_graph_shape df G HG) as [_ Hshape].
  assert (adj G !! (u, u) = None) as Hloop.
  { destruct (adj G !! (u, u)) as [e|] eqn:He; [|done].
    by destruct (Hshape u u e He) as (? & _). }
  assert (∀ v', v' ∈ neighbors G u → 1 ≤ edge_weight G u v') as Hpos.
  { intros v' [e He]%neighbors_elem. destruct (Hshape u v' e He) as (_ & Hw & _).
    unfold edge_weight. by rewrite He. }
  pose proof (sum_Z_lower (edge_weight G u) (neighbors G u) Hpos) as Hlow.
  pose proof (sum_Z_upper (edge_weight G u) (neighbors G u) _ Hmax) as Hup.
  pose proof (Hpos v Hv) as Hw.
  intros [Hd|Hp].
  { unfold data_prep.degree in Hd. rewrite Hloop in Hd.
    rewrite decide_False in Hd by (by intros [? ?]). lia. }
  unfold Qltb in Hp. apply negb_true_iff, Qle_bool_false in Hp. apply Hp.
  unfold data_prep.p_value.
  set (total := sum_Z (edge_weight G u <$> neighbors G u)) in *.
  set (w := edge_weight G u v) in *.
  assert (0 < inject_Z total)%Q as Ht.
  { change 0%Q with (inject_Z 0). rewrite <- Zlt_Qlt. lia. }
  destruct Hk as [Hk|Hk]; rewrite Hk in *.
  - change (2 - 1) with 1. change (?q ^ 1)%Q with q.
    assert (1 # 2 <= inject_Z w / inject_Z total)%Q as Hs.
    { apply Qle_shift_div_l; [done|].
      assert (inject_Z total <= inject_Z (2 * w))%Q as H
        by (rewrite <- Zle_Qle; lia).
      rewrite inject_Z_mult in H. change (inject_Z 2) with 2%Q in H. lra. }
    lra.
  - change (3 - 1) with 2.
    change (?q ^ 2)%Q with (q * q)%Q.
    assert (1 # 3 <= inject_Z w / inject_Z total)%Q as Hs.
    { apply Qle_shift_div_l; [done|].
      assert (inject_Z total <= inject_Z (3 * w))%Q as H
        by (rewrite <- Zle_Qle; lia).
      rewrite inject_Z_mult in H. change (inject_Z 3) with 3%Q in H. lra. }
    set (s := (inject_Z w / inject_Z total)%Q) in *.
    assert (0 <= (s - (1 # 3)) * (s + (1 # 3)))%Q as Hsq
      by (apply Qmult_le_0_compat; lra).
    lra.
Qed.

(** X23: With the script's [alpha = 0.05], on a graph built from a frame: at a
    node with two or three neighbours the edge of greatest weight is never
    in the backbone, whatever its other end looks like. *)
Theorem create_backbone_drops_heaviest (df : list Net.t) (G B : Graph)
    (u v : string) :
  create_enhanced_bipartite_graph df = Some G →
  data_prep.create_backbone G (1 # 20) = Some B →
  len (neighbors G u) = 2 ∨ len (neighbors G u) = 3 →
  v ∈ neighbors G u →
  (∀ v', v' ∈ neighbors G u → edge_weight G u v' ≤ edge_weight G u v) →
  adj B !! (u, v) = None ∧ adj B !! (v, u) = None.
Proof.
  intros HG HB Hk Hv Hmax.
  pose proof (heavy_edge_fails df G u v HG Hk Hv Hmax) as Hfail.
  destruct (built_graph_shape df G HG) as [Hsym Hshape].
  destruct (backbone_lookup G B (1 # 20) HB) as [_ Hlook]; [|done|].
  { intros a b [e He]. by destruct (Hshape a b e He) as (_ & _ & ?). }
  split.
  - destruct (adj B !! (u, v)) as [e|] eqn:He; [|done].
    apply Hlook in He as (_ & Hp & _). by destruct Hfail.
  - destruct (adj B !! (v, u)) as [e|] eqn:He; [|done].
    apply Hlook in He as (_ & _ & Hp). by destruct Hfail.
Qed.

Lemma create_backbone_drops_heaviest_witness :
  ∃ B, data_prep.create_backbone G_two_sites (1 # 20) = Some B ∧
       adj B !! (patient_id "A", site_id "S1") = None ∧
       adj B !! (site_id "S1", patient_id "A") = None.
Proof.
  assert (create_enhanced_bipartite_graph (clean_for_network frame_two_sites)
          = Some G_two_sites) as HG by (vm_compute; reflexivity).
  destruct (data_prep.create_backbone G_two_sites (1 # 20)) as [B|] eqn:HB;
    [|vm_compute in HB; discriminate].
  assert (len (neighbors G_two_sites (patient_id "A")) = 2
          ∨ len (neighbors G_two_sites (patient_id "A")) = 3) as Hk
    by (left; vm_compute; reflexivity).
  assert (site_id "S1" ∈ neighbors G_two_sites (patient_id "A")) as Hv.
  { apply neighbors_elem. vm_compute. eexists. reflexivity. }
  assert (∀ v', v' ∈ neighbors G_two_sites (patient_id "A") →
            edge_weight G_two_sites (patient_id "A") v'
            ≤ edge_weight G_two_sites (patient_id "A") (site_id "S1")) as Hmax.
  { assert (neighbors G_two_sites (patient_id "A")
            = [site_id "S1"; site_id "S2"]) as Hnb by (vm_compute; reflexivity).
    intros v' Hv'. rewrite Hnb in Hv'.
    apply elem_of_cons in Hv' as [->|Hv']; [vm_compute; discriminate|].
    apply elem_of_cons in Hv' as [->|Hv']; [vm_compute; discriminate|].
    apply elem_of_nil in Hv'. destruct Hv'. }
  destruct (create_backbone_drops_heaviest (clean_for_network frame_two_sites)
              G_two_sites B (patient_id "A") (site_id "S1") HG HB Hk Hv Hmax)
    as [H1 H2].
  exists B. split; [reflexivity|]. split; [exact H1|exact H2].
Defined.
(** ** The web application's copies *)

(** X25: The web application's export against [d3_export.py]'s: both fail on
    the same inputs, and their documents agree on the nodes, the community
    entries, the cutoffs and the totals.  The web application counts labels,
    so its three counts are not negative and add up to the number of rows;
    its High count is [d3_export.py]'s, its Low count is smaller and its
    Medium count greater by the number of rows whose score is both at least
    the high cutoff and at most the low one. *)
Theorem webapp_export_counts (G : Graph) (cs : CommunityResult)
    (community_df : list CommunityStats) (now : Z) (doc' : ExportDoc) :
  webapp.export_for_d3js G cs community_df now = Some doc' →
  ∃ doc, export_for_d3js G cs community_df now = Some doc ∧
    export_nodes doc' = export_nodes doc ∧
    export_communities doc' = export_communities doc ∧
    doc_content doc' = doc_content doc ∧
    total_nodes (metadata doc') = total_nodes (metadata doc) ∧
    total_edges (metadata doc') = total_edges (metadata doc) ∧
    total_communities (metadata doc') = total_communities (metadata doc) ∧
    let both :=
      len (List.filter
             (λ c, ge_thr (risk_score c) (threshold_high (metadata doc))
                   && le_thr (risk_score c) (threshold_low (metadata doc)))
             community_df) in
    high_risk_communities (metadata doc')
      = high_risk_communities (metadata doc) ∧
    medium_risk_communities (metadata doc')
      = medium_risk_communities (metadata doc) + both ∧
    low_risk_communities (metadata doc')
      = low_risk_communities (metadata doc) - both ∧
    0 ≤ high_risk_communities (metadata doc') ∧
    0 ≤ medium_risk_communities (metadata doc') ∧
    0 ≤ low_risk_communities (metadata doc') ∧
    high_risk_communities (metadata doc')
      + medium_risk_communities (metadata doc')
      + low_risk_communities (metadata doc') = len community_df.
Proof.
  unfold webapp.export_for_d3js, export_for_d3js.
  destruct (mapM _ _) as [d3_nodes|]; simpl; [|done].
  intros [= <-]. eexists. split; [reflexivity|].
  cbn [metadata export_nodes export_communities total_nodes total_edges
       total_communities threshold_high threshold_low high_risk_communities
       medium_risk_communities low_risk_communities doc_content].
  destruct (label_counts (quantile (risk_score <$> community_df) (3 # 4))
              (quantile (risk_score <$> community_df) (1 # 4)) community_df)
    as (H1 & H2 & H3).
  cbn zeta in H1, H2, H3.
  repeat (split; [reflexivity|]).
  set (labels := export_community _ _ <$> community_df) in *.
  pose proof (len_nonneg (filter (λ ec, c_risk_level ec = High) labels)).
  pose proof (len_nonneg (filter (λ ec, c_risk_level ec = Medium) labels)).
  pose proof (len_nonneg (filter (λ ec, c_risk_level ec = Low) labels)).
  rewrite H1 in *. rewrite H2 in *. rewrite H3 in *.
  repeat split; lia.
Qed.

Lemma webapp_export_counts_witness :
  ∃ doc', webapp.export_for_d3js G_ABC communities_ABC df_ABC 0 = Some doc' ∧
    high_risk_communities (metadata doc')
      + medium_risk_communities (metadata doc')
      + low_risk_communities (metadata doc') = len df_ABC.
Proof.
  destruct (webapp.export_for_d3js G_ABC communities_ABC df_ABC 0)
    as [doc'|] eqn:Hdoc; [|vm_compute in Hdoc; discriminate].
  destruct (webapp_export_counts G_ABC communities_ABC df_ABC 0 doc' Hdoc)
    as (doc & _ & _ & _ & _ & _ & _ & _ & H).
  cbn zeta in H. destruct H as (_ & _ & _ & _ & _ & _ & Hsum).
  exists doc'. split; [reflexivity|exact Hsum].
Defined.

(** X26: The web application's [detect_communities_leiden] against the Leiden
    module's: whatever the latter returns the former returns too, and the
    former returns more only for an empty partition, which it passes on as
    a result without communities. *)
Theorem webapp_detect_vs_leiden (algs : option Cdlib) (e : Z) (G : Graph)
    (m : Z) :
  (∀ r, detect_communities_leiden algs e G m = Some r →
        webapp.detect_communities_leiden algs e G m = Some r) ∧
  (∀ r, webapp.detect_communities_leiden algs e G m = Some r →
        detect_communities_leiden algs e G m = Some r ∨
        (detect_communities_leiden algs e G m = None ∧ communities r = [] ∧
         ∃ lib, algs = Some lib ∧ leiden lib e G = Some [])).
Proof.
  unfold webapp.detect_communities_leiden, detect_communities_leiden.
  destruct algs as [lib|]; [|by split].
  destruct (leiden lib e G) as [cs|] eqn:Hl; simpl; [|by split].
  destruct (newman_girvan_modularity lib G cs) as [q|]; simpl; [|by split].
  destruct cs as [|c cs]; simpl.
  - split; [done|]. intros r [= <-]. right. split; [done|]. split; [done|].
    by exists lib.
  - split; [done|]. intros r Hr. by left.
Qed.
(** ** A run of the web application *)

(** X27: A run of the web application never raises and keeps the settings.  It
    ends completed at 100 with the exported document as its data, served by
    [GET /graph-data] and written to the export file; or it ends in error
    at the checkpoint it had reached, with its data and the export file as
    before, and [GET /graph-data] then answers that there is no data even
    when an earlier run had left some.  Either way a new request to start
    is accepted. *)
Theorem webapp_run_outcome (env : Env) (st st' : webapp.State) (w w' : World) :
  webapp.run_analysis env (st, w) = (st', w') →
  webapp.settings st' = webapp.settings st ∧
  (webapp.start_analysis st').1 = webapp.analysis_started ∧
  ((webapp.status st' = webapp.completed ∧ webapp.progress st' = 100 ∧
    ∃ doc, webapp.data st' = Some doc ∧ export_file w' = Some doc ∧
           webapp.get_graph_data st' = Some doc ∧
           webapp.message st'
             = webapp.AnalysisComplete (total_communities (metadata doc))) ∨
   (webapp.status st' = webapp.error ∧
    webapp.data st' = webapp.data st ∧ export_file w' = export_file w ∧
    webapp.progress st' ∈ [10; 50; 70; 85; 95] ∧
    webapp.get_graph_data st' = None ∧
    ∃ e, webapp.message st' = webapp.AnalysisFailed e)).
Proof.
  unfold webapp.run_analysis. cbn [fst snd].
  destruct (webapp.load_and_preprocess_data env w _) as [[e|df] w1] eqn:Hload.
  { intros [= <- <-]. split; [done|]. split; [done|]. right.
    assert (export_file w1 = export_file w) as Hfile.
    { unfold webapp.load_and_preprocess_data in Hload.
      destruct (data_files w); [by simplify_eq|].
      destruct (if webapp.use_sample _ then _ else _); [|by simplify_eq].
      destruct (_ && _); [|by simplify_eq].
      destruct (sample_data_for_network _ _ _ _ _) as [[?|] ?];
        by simplify_eq. }
    repeat split; try done; [set_solver|by eexists]. }
  assert (export_file w1 = export_file w) as Hfile.
  { unfold webapp.load_and_preprocess_data in Hload.
    destruct (data_files w); [by simplify_eq|].
    destruct (if webapp.use_sample _ then _ else _); [|by simplify_eq].
    destruct (_ && _); [|by simplify_eq].
    destruct (sample_data_for_network _ _ _ _ _) as [[?|] ?];
      by simplify_eq. }
  destruct (create_enhanced_bipartite_graph (clean_for_network df)) as [G|].
  2:{ intros [= <- <-]. split; [done|]. split; [done|]. right.
      repeat split; try done; [set_solver|by eexists]. }
  destruct (webapp.detect_communities_leiden _ _ _ _) as [cs|].
  2:{ intros [= <- <-]. split; [done|]. split; [done|]. right.
      repeat split; try done; [set_solver|by eexists]. }
  destruct (analyze_community_dna_patterns G cs) as [cdf|].
  2:{ intros [= <- <-]. split; [done|]. split; [done|]. right.
      repeat split; try done; [set_solver|by eexists]. }
  destruct (webapp.export_for_d3js G cs cdf (clock w1)) as [doc|] eqn:Hdoc.
  2:{ intros [= <- <-]. split; [done|]. split; [done|]. right.
      repeat split; try done; [set_solver|by eexists]. }
  intros [= <- <-]. split; [done|]. split; [done|]. left.
  split; [done|]. split; [done|]. exists doc.
  repeat (split; [done|]). simpl.
  unfold webapp.export_for_d3js in Hdoc. destruct (mapM _ _); [|done].
  simpl in Hdoc. by injection Hdoc as <-.
Qed.

Lemma webapp_run_outcome_witness :
  ∃ st' w',
    webapp.run_analysis env_ward (webapp.initial_state, world_ward 7)
      = (st', w') ∧
    webapp.settings st' = webapp.settings webapp.initial_state ∧
    (webapp.start_analysis st').1 = webapp.analysis_started.
Proof.
  destruct (webapp.run_analysis env_ward (webapp.initial_state, world_ward 7))
    as [st' w'] eqn:Hrun.
  destruct (webapp_run_outcome env_ward webapp.initial_state st' (world_ward 7)
              w' Hrun) as (Hs & Hstart & _).
  exists st', w'. split; [reflexivity|]. split; [exact Hs|exact Hstart].
Defined.
(** ** The dominant age group *)

Lemma counter_incr_keys {K} `{EqDecision K} (c : list (K * Z)) (k k' : K) :
  k' ∈ (counter_incr k c).*1 ↔ k' = k ∨ k' ∈ c.*1.
Proof.
  induction c as [|[k0 n] t IH]; simpl.
  - rewrite list_elem_of_singleton. split; [by left|]. intros [?|?%elem_of_nil]; done.
  - destruct (decide (k = k0)) as [->|Hk]; simpl; rewrite !elem_of_cons.
    + tauto.
    + rewrite IH. tauto.
Qed.

Lemma counter_incr_NoDup {K} `{EqDecision K} (c : list (K * Z)) (k : K) :
  NoDup c.*1 → NoDup (counter_incr k c).*1.
Proof.
  induction c as [|[k0 n] t IH]; simpl; intros Hnd.
  - apply NoDup_singleton.
  - apply NoDup_cons in Hnd as [Hk0 Ht].
    destruct (decide (k = k0)) as [->|Hk]; simpl; apply NoDup_cons.
    + done.
    + split; [|by apply IH]. rewrite counter_incr_keys.
      intros [?|?]; [congruence|done].
Qed.

Lemma Counter_keys_acc {K} `{EqDecision K} (l : list K) (c : list (K * Z)) :
  NoDup c.*1 →
  NoDup (foldl (λ c k, counter_incr k c) c l).*1 ∧
  ∀ k, k ∈ (foldl (λ c k, counter_incr k c) c l).*1 ↔ k ∈ l ∨ k ∈ c.*1.
Proof.
  revert c. induction l as [|x t IH]; intros c Hc; cbn [foldl].
  - split; [done|]. intros k. split; [by right|]. by intros [?%elem_of_nil|?].
  - destruct (IH (counter_incr x c) (counter_incr_NoDup c x Hc)) as [Hnd Hk].
    split; [done|]. intros k. rewrite Hk, counter_incr_keys, elem_of_cons. tauto.
Qed.

Lemma counter_get_entry {K} `{EqDecision K} (c : list (K * Z)) (k : K) (n d : Z) :
  NoDup c.*1 → (k, n) ∈ c → counter_get c k d = n.
Proof.
  induction c as [|[k0 n0] t IH]; intros Hnd Hin; [by apply elem_of_nil in Hin|].
  simpl in Hnd. apply NoDup_cons in Hnd as [Hk0 Ht]. simpl.
  apply elem_of_cons in Hin as [[= -> ->]|Hin].
  - by rewrite decide_True.
  - rewrite decide_False; [by apply IH|].
    intros ->. apply Hk0. apply list_elem_of_fmap. by exists (k0, n).
Qed.

Lemma dominant_acc (t : list (AgeGroup * Z)) (x : AgeGroup * Z) :
  let best := foldl (λ best y, if decide (best.2 < y.2) then y else best) x t in
  best ∈ x :: t ∧ ∀ y, y ∈ x :: t → y.2 ≤ best.2.
Proof.
  revert x. induction t as [|y t IH]; intros x; cbn zeta; cbn [foldl].
  - split; [apply list_elem_of_here|].
    intros y ->%list_elem_of_singleton. lia.
  - destruct (IH (if decide (x.2 < y.2) then y else x)) as [Hin Hmax].
    cbn zeta in Hin, Hmax. split.
    + apply elem_of_cons in Hin as [->|Hin].
      * destruct (decide (x.2 < y.2));
          [apply list_elem_of_further, list_elem_of_here|apply list_elem_of_here].
      * by do 2 apply list_elem_of_further.
    + intros z Hz.
      pose proof (Hmax _ (list_elem_of_here _ _)) as Hb.
      apply elem_of_cons in Hz as [->|[->|Hz]%elem_of_cons].
      * destruct (decide (x.2 < y.2)); lia.
      * destruct (decide (x.2 < y.2)); lia.
      * apply Hmax. by apply list_elem_of_further.
Qed.

(** [dominant] of a counter: a most frequent key of the counted list. *)
Lemma dominant_Counter (l : list AgeGroup) :
  l ≠ [] →
  dominant (Counter l) ∈ l ∧
  ∀ g, len (filter (λ x, x = g) l)
       ≤ len (filter (λ x, x = dominant (Counter l)) l).
Proof.
  intros Hl. destruct (Counter_keys_acc l [] (NoDup_nil_2 : NoDup ([] : list (AgeGroup * Z)).*1))
    as [Hnd Hkeys].
  fold (Counter l) in Hnd, Hkeys.
  assert (∀ k n, (k, n) ∈ Counter l → n = len (filter (λ x, x = k) l)) as Hval.
  { intros k n Hin. rewrite <- (counter_get_entry _ k n 0 Hnd Hin).
    by destruct (Counter_spec l k) as [-> _]. }
  unfold dominant. destruct (Counter l) as [|x t] eqn:Hc.
  { destruct l as [|a l']; [done|].
    assert (a ∈ ([] : list (AgeGroup * Z)).*1) as Ha
      by (apply Hkeys; left; apply list_elem_of_here).
    by apply elem_of_nil in Ha. }
  destruct (dominant_acc t x) as [Hin Hmax]. cbn zeta in Hin, Hmax.
  set (best := foldl _ x t) in *. destruct best as [gb nb] eqn:Hbest.
  cbn [fst snd] in *. split.
  - assert (gb ∈ (x :: t).*1) as Hk
      by (apply list_elem_of_fmap; by exists (gb, nb)).
    apply Hkeys in Hk as [Hk|Hk]; [done|by apply elem_of_nil in Hk].
  - intros g. rewrite <- (Hval gb nb Hin).
    destruct (decide (g ∈ l)) as [Hg|Hg].
    + assert (g ∈ (x :: t).*1) as Hk by (apply Hkeys; by left).
      apply list_elem_of_fmap in Hk as ([g' n] & -> & Hk). cbn [fst].
      rewrite <- (Hval _ n Hk). apply (Hmax _ Hk).
    + assert (filter (λ x0, x0 = g) l = []) as ->.
      { apply filter_none. intros y Hy ->. done. }
      pose proof (Hmax _ Hin) as H. cbn [snd] in H.
      assert (0 ≤ nb); [|done].
      rewrite (Hval gb nb Hin). apply len_nonneg.
Qed.

(** X12: The [dominant_age_group] of a row is an age group of most patients of
    its community: some patient of the community has it, and no age group
    counts more patients there. *)
Theorem dominant_age_group_is_mode (G : Graph) (cs : CommunityResult)
    (df : list CommunityStats) (row : CommunityStats) :
  analyze_community_dna_patterns G cs = Some df →
  row ∈ df →
  ∃ c, communities cs !! Z.to_nat (community_id row) = Some c ∧
    (∃ p, p ∈ patients_in G c ∧ age_group p = dominant_age_group row) ∧
    ∀ g, len (filter (λ p, age_group p = g) (patients_in G c))
         ≤ len (filter (λ p, age_group p = dominant_age_group row)
                  (patients_in G c)).
Proof.
  intros Hdf Hrow.
  destruct (proj1 (analyze_rows G cs df Hdf row) Hrow) as (j & c & Hc & Hr).
  pose proof (community_row_Some _ _ _ _ Hr) as (Hne & Hj & _).
  exists c. split; [by rewrite Hj, Nat2Z.id|].
  assert (dominant_age_group row
          = dominant (Counter (age_group <$> patients_in G c))) as ->.
  { unfold community_row in Hr. destruct (mapM _ _); simpl in Hr; [|done].
    destruct (truthy (patients_in G c)); [|done]. by simplify_eq. }
  assert (age_group <$> patients_in G c ≠ []) as Hne'
    by by destruct (patients_in G c).
  destruct (dominant_Counter _ Hne') as [Hin Hmax]. split.
  - apply list_elem_of_fmap in Hin as (p & Hp & Hin). by exists p.
  - intros g. pose proof (Hmax g) as H. by rewrite !len_filter_fmap in H.
Qed.

Lemma dominant_age_group_is_mode_witness :
  ∃ row c, head df_ABC = Some row ∧
    communities communities_ABC !! Z.to_nat (community_id row) = Some c ∧
    ∃ p, p ∈ patients_in G_ABC c ∧ age_group p = dominant_age_group row.
Proof.
  assert (analyze_community_dna_patterns G_ABC communities_ABC = Some df_ABC)
    as Hdf by (vm_compute; reflexivity).
  destruct (head df_ABC) as [row|] eqn:Hrow; [|vm_compute in Hrow; discriminate].
  destruct (dominant_age_group_is_mode G_ABC communities_ABC df_ABC row Hdf
              (head_Some_elem _ _ Hrow)) as (c & Hc & Hp & _).
  exists row, c. split; [reflexivity|]. split; [exact Hc|exact Hp].
Defined.
(** ** Node and edge counts *)

Lemma rows_of_patient_nonempty (df : list Net.t) (p : string) :
  (∃ first rest, rows_of_patient df p = first :: rest)
  ↔ p ∈ Net.PATIENT_KEY <$> df.
Proof.
  split.
  - intros (first & rest & Hrows).
    assert (first ∈ rows_of_patient df p) as Hin
      by (rewrite Hrows; apply list_elem_of_here).
    apply list_elem_of_filter in Hin as [Hp Hin].
    apply list_elem_of_fmap. by exists first.
  - intros (r & -> & Hr)%list_elem_of_fmap. by apply rows_of_patient_elem.
Qed.

Lemma rows_of_site_nonempty (df : list Net.t) (s : string) :
  (∃ first rest, rows_of_site df s = first :: rest)
  ↔ s ∈ Net.SITE_CODE_OF_TREATMENT <$> df.
Proof.
  split.
  - intros (first & rest & Hrows).
    assert (first ∈ rows_of_site df s) as Hin
      by (rewrite Hrows; apply list_elem_of_here).
    apply list_elem_of_filter in Hin as [Hs Hin].
    apply list_elem_of_fmap. by exists first.
  - intros (r & -> & Hr)%list_elem_of_fmap. by apply rows_of_site_elem.
Qed.

Lemma rows_of_pair_nonempty (df : list Net.t) (p s : string) :
  (∃ first rest, rows_of_pair df p s = first :: rest)
  ↔ (p, s) ∈ (λ r, (Net.PATIENT_KEY r, Net.SITE_CODE_OF_TREATMENT r)) <$> df.
Proof.
  split.
  - intros (first & rest & Hrows).
    assert (first ∈ rows_of_pair df p s) as Hin
      by (rewrite Hrows; apply list_elem_of_here).
    apply list_elem_of_filter in Hin as [[Hp Hs] Hin].
    apply list_elem_of_fmap. exists first. by rewrite Hp, Hs.
  - intros (r & [= -> ->] & Hr)%list_elem_of_fmap.
    by apply (head_filter_is_Some
                (λ r0, Net.PATIENT_KEY r0 = Net.PATIENT_KEY r ∧
                       Net.SITE_CODE_OF_TREATMENT r0
                       = Net.SITE_CODE_OF_TREATMENT r) df r).
Qed.

(** X6: The counts that [GET /status] and the export's metadata report for a
    graph built from a frame: it has one node per patient key and one per
    site code of the frame, and one edge per pair of a patient and a site
    that share a row. *)
Theorem graph_counts (df : list Net.t) (G : Graph) :
  create_enhanced_bipartite_graph df = Some G →
  Z.of_nat (size (nodes G))
    = len (remove_dups (Net.PATIENT_KEY <$> df))
      + len (remove_dups (Net.SITE_CODE_OF_TREATMENT <$> df)) ∧
  number_of_edges G
    = len (remove_dups
             ((λ r, (Net.PATIENT_KEY r, Net.SITE_CODE_OF_TREATMENT r)) <$> df)).
Proof.
  intros HG. destruct (create_nodes_lookup df G HG) as (HP & HS & Hbare).
  destruct (create_enhanced_bipartite_graph_inv df G HG) as [Hok _].
  split.
  - rewrite <- length_map_to_list, <- (length_fmap fst).
    unfold len. rewrite <- Nat2Z.inj_add. f_equal.
    rewrite <- (length_fmap patient_id (remove_dups _)),
      <- (length_fmap site_id (remove_dups _)), <- length_app.
    apply Permutation_length, NoDup_Permutation.
    + apply NoDup_fst_map_to_list.
    + apply NoDup_app. split; [|split].
      * apply NoDup_fmap_2; [intros ??; apply patient_id_inj|].
        apply NoDup_remove_dups.
      * intros n (p & -> & _)%list_elem_of_fmap (s & Hs & _)%list_elem_of_fmap.
        by apply patient_id_ne_site_id in Hs.
      * apply NoDup_fmap_2; [intros ??; apply site_id_inj|].
        apply NoDup_remove_dups.
    + intros n. rewrite elem_of_app, !list_elem_of_fmap. split.
      * intros ([n' d] & -> & Hd). apply elem_of_map_to_list in Hd. simpl.
        pose proof (Hok _ _ Hd) as Hnode. pose proof (Hbare _ _ Hd).
        destruct d as [a|a|]; [left|right|done];
          destruct Hnode as (k & first & rest & -> & Hrows & _);
          exists k; (split; [done|]); apply elem_of_remove_dups.
        -- apply rows_of_patient_nonempty. eauto.
        -- apply rows_of_site_nonempty. eauto.
      * intros [(p & -> & Hp)|(s & -> & Hs)].
        -- apply elem_of_remove_dups, rows_of_patient_nonempty in Hp
             as (first & rest & Hrows).
           eexists (_, _). split; [done|]. apply elem_of_map_to_list.
           by apply HP.
        -- apply elem_of_remove_dups, rows_of_site_nonempty in Hs
             as (first & rest & Hrows).
           eexists (_, _). split; [done|]. apply elem_of_map_to_list.
           by apply HS.
  - unfold number_of_edges.
    assert (filter (λ kv : string * string * EdgeData, kv.1.1 = kv.1.2) (adj G)
            = ∅) as ->.
    { apply map_empty. intros [u v]. apply map_lookup_filter_None. right.
      intros e He Heq. simpl in Heq. subst v.
      apply (create_adj_lookup df G u u e HG) in He
        as (p & s & _ & _ & [Hk|Hk] & _).
      - apply (f_equal fst) in Hk as H1. apply (f_equal snd) in Hk as H2.
        simpl in *. rewrite H1 in H2. by apply patient_id_ne_site_id in H2.
      - apply (f_equal fst) in Hk as H1. apply (f_equal snd) in Hk as H2.
        simpl in *. rewrite H2 in H1. by apply patient_id_ne_site_id in H1. }
    rewrite map_size_empty, Nat.add_0_l, Nat.sub_0_r.
    set (pairs := remove_dups
                    ((λ r, (Net.PATIENT_KEY r, Net.SITE_CODE_OF_TREATMENT r))
                       <$> df)).
    assert ((map_to_list (adj G)).*1 ≡ₚ
            ((λ ps, (patient_id ps.1, site_id ps.2)) <$> pairs)
            ++ ((λ ps, (site_id ps.2, patient_id ps.1)) <$> pairs)) as Hperm.
    { apply NoDup_Permutation.
      - apply NoDup_fst_map_to_list.
      - apply NoDup_app. split; [|split].
        + apply NoDup_fmap_2; [|apply NoDup_remove_dups].
          intros [p1 s1] [p2 s2] Heq. simpl in Heq.
          apply (f_equal fst) in Heq as H1. apply (f_equal snd) in Heq as H2.
          simpl in *. apply patient_id_inj in H1. apply site_id_inj in H2.
          congruence.
        + intros k ([p1 s1] & -> & _)%list_elem_of_fmap
            ([p2 s2] & Heq & _)%list_elem_of_fmap.
          apply (f_equal fst) in Heq. simpl in Heq.
          by apply patient_id_ne_site_id in Heq.
        + apply NoDup_fmap_2; [|apply NoDup_remove_dups].
          intros [p1 s1] [p2 s2] Heq. simpl in Heq.
          apply (f_equal fst) in Heq as H1. apply (f_equal snd) in Heq as H2.
          simpl in *. apply patient_id_inj in H2. apply site_id_inj in H1.
          congruence.
      - intros [u v]. rewrite elem_of_app, !list_elem_of_fmap. split.
        + intros ([k e] & Hk & He). simpl in Hk. subst k.
          apply elem_of_map_to_list in He.
          apply (create_adj_lookup df G u v e HG) in He
            as (p & s & first & rest & Hk & Hrows & _).
          assert ((p, s) ∈ pairs) as Hin.
          { apply elem_of_remove_dups, rows_of_pair_nonempty. eauto. }
          destruct Hk as [Hk|Hk]; [left|right]; by exists (p, s).
        + intros [([p s] & Hk & Hin)|([p s] & Hk & Hin)];
            apply elem_of_remove_dups, rows_of_pair_nonempty in Hin
              as (first & rest & Hrows); simpl in Hk;
            eexists ((u, v), _); (split; [done|]);
            apply elem_of_map_to_list, (create_adj_lookup df G u v _ HG);
            exists p, s, first, rest; auto. }
    apply Permutation_length in Hperm.
    rewrite length_fmap, length_map_to_list, length_app, !length_fmap in Hperm.
    rewrite Hperm. unfold len. f_equal.
    replace (length pairs + length pairs)%nat with (length pairs * 2)%nat
      by lia.
    apply Nat.div_mul. done.
Qed.

Lemma graph_counts_witness :
  create_enhanced_bipartite_graph (clean_for_network frame_ABC) = Some G_ABC ∧
  Z.of_nat (size (nodes G_ABC)) = 4 ∧ number_of_edges G_ABC = 3.
Proof.
  assert (create_enhanced_bipartite_graph (clean_for_network frame_ABC)
          = Some G_ABC) as HG by (vm_compute; reflexivity).
  destruct (graph_counts (clean_for_network frame_ABC) G_ABC HG) as [Hn He].
  split; [exact HG|]. split.
  - rewrite Hn. vm_compute. reflexivity.
  - rewrite He. vm_compute. reflexivity.
Defined.
(** ** Choosing among the detection algorithms *)

Lemma make_entry_Some (r : CommunityResult) (q : Q) (e : data_prep.Entry) :
  data_prep.make_entry r q = Some e →
  data_prep.entry_result e = r ∧ data_prep.entry_modularity e = q ∧
  communities r ≠ [].
Proof.
  unfold data_prep.make_entry. destruct (communities r) eqn:Hc; [done|].
  simpl. by intros [= <-].
Qed.

Lemma spectral_block_Some (d : data_prep.Detectors)
    (fit : Graph → Z → option (list (list string))) (G : Graph)
    (e : data_prep.Entry) :
  data_prep.spectral_block d fit G = Some e →
  communities (data_prep.entry_result e) ≠ [].
Proof.
  unfold data_prep.spectral_block.
  destruct (foldl _ _ _) as [[[[k|] s] c]|]; simpl; try done.
  destruct (decide (k = 0)); [done|].
  by intros (<- & _ & ?)%make_entry_Some.
Qed.

Lemma attempt_shape (names : list string) (name : string)
    (block : option data_prep.Entry) (results : list (string * data_prep.Entry)) :
  (∀ e, block = Some e → communities (data_prep.entry_result e) ≠ []) →
  results.*1 `sublist_of` names ∧
  (∀ n e, (n, e) ∈ results → communities (data_prep.entry_result e) ≠ []) →
  (data_prep.attempt name block results).*1 `sublist_of` names ++ [name] ∧
  (∀ n e, (n, e) ∈ data_prep.attempt name block results →
          communities (data_prep.entry_result e) ≠ []).
Proof.
  intros Hb [Hsub Hne]. unfold data_prep.attempt. destruct block as [e0|].
  - split.
    + rewrite fmap_app. by apply sublist_app.
    + intros n e [Hin|Hin]%elem_of_app; [by eapply Hne|].
      apply list_elem_of_singleton in Hin as [= -> ->]. by apply Hb.
  - split; [by apply sublist_inserts_r|done].
Qed.

Lemma skip_shape (names : list string) (name : string)
    (results : list (string * data_prep.Entry)) :
  results.*1 `sublist_of` names ∧
  (∀ n e, (n, e) ∈ results → communities (data_prep.entry_result e) ≠ []) →
  results.*1 `sublist_of` names ++ [name] ∧
  (∀ n e, (n, e) ∈ results → communities (data_prep.entry_result e) ≠ []).
Proof. intros [Hsub Hne]. split; [by apply sublist_inserts_r|done]. Qed.

(** [results] lists each algorithm at most once, and only with a partition
    that has a community. *)
Lemma collect_results_shape (d : data_prep.Detectors) (G : Graph) :
  NoDup (data_prep.collect_results d G).*1 ∧
  ∀ name e, (name, e) ∈ data_prep.collect_results d G →
    communities (data_prep.entry_result e) ≠ [].
Proof.
  assert (∀ alg (run : data_prep.CdlibAlgorithms → Graph → option CommunityResult) e,
            (r ← run alg G; q ← data_prep.newman_girvan alg G r;
             data_prep.make_entry r q) = Some e →
            communities (data_prep.entry_result e) ≠ []) as Hcd.
  { intros alg run e. destruct (run alg G) as [r|]; simpl; [|done].
    destruct (data_prep.newman_girvan alg G r); simpl; [|done].
    by intros (<- & _ & ?)%make_entry_Some. }
  assert (∀ (run : Graph → option (list (list string))) nm e,
            (c ← run G; q ← data_prep.nx_modularity d G c;
             data_prep.make_entry {| communities := c; method_name := nm |} q)
            = Some e →
            communities (data_prep.entry_result e) ≠ []) as Hnx.
  { intros run nm e. destruct (run G) as [c|]; simpl; [|done].
    destruct (data_prep.nx_modularity d G c); simpl; [|done].
    by intros (<- & _ & ?)%make_entry_Some. }
  assert ((data_prep.collect_results d G).*1 `sublist_of`
            ["Greedy Modularity"; "Label Propagation"; "Leiden"; "Louvain";
             "Spectral Clustering"]%string ∧
          ∀ n e, (n, e) ∈ data_prep.collect_results d G →
                 communities (data_prep.entry_result e) ≠ []) as [Hsub Hne].
  { unfold data_prep.collect_results.
    change ["Greedy Modularity"; "Label Propagation"; "Leiden"; "Louvain";
            "Spectral Clustering"]%string
      with ((((([] ++ ["Greedy Modularity"%string])
                 ++ ["Label Propagation"%string]) ++ ["Leiden"%string])
              ++ ["Louvain"%string]) ++ ["Spectral Clustering"%string]).
    destruct (data_prep.spectral_clustering d) as [fit|];
      [destruct (decide _);
       [apply attempt_shape; [apply spectral_block_Some|]|apply skip_shape]
      |apply skip_shape];
      (destruct (data_prep.cdlib_algorithms d) as [alg|];
       [apply attempt_shape; [apply (Hcd alg data_prep.louvain_randomness)|];
        apply attempt_shape; [apply (Hcd alg data_prep.leiden_randomness)|]
       |do 2 apply skip_shape]);
      (apply attempt_shape; [apply Hnx|]);
      (apply attempt_shape; [apply Hnx|]);
      (split; [done|by intros ?? ?%elem_of_nil]). }
  split; [|done]. eapply sublist_NoDup; [|exact Hsub].
  apply NoDup_ListNoDup.
  repeat (constructor; [vm_compute; intuition discriminate|]). constructor.
Qed.

Lemma best_step_acc (l : list (string * data_prep.Entry))
    (b0 : option string) (s0 : Q) :
  let r := foldl data_prep.best_step (b0, s0) l in
  (s0 <= r.2)%Q ∧
  (∀ item, item ∈ l → (data_prep.entry_modularity item.2 <= r.2)%Q) ∧
  (r = (b0, s0) ∨
   ∃ name e, (name, e) ∈ l ∧ r = (Some name, data_prep.entry_modularity e) ∧
             (s0 < data_prep.entry_modularity e)%Q).
Proof.
  revert b0 s0. induction l as [|[n e] l IH]; intros b0 s0; cbn zeta.
  - simpl. split; [lra|]. split; [by intros ? ?%elem_of_nil|by left].
  - cbn [foldl].
    assert (data_prep.best_step (b0, s0) (n, e)
            = if Qle_bool (data_prep.entry_modularity e) s0 then (b0, s0)
              else (Some n, data_prep.entry_modularity e)) as ->.
    { unfold data_prep.best_step, Qgtb. cbn [fst snd].
      by destruct (Qle_bool _ _). }
    destruct (Qle_bool (data_prep.entry_modularity e) s0) eqn:Hle.
    + apply Qle_bool_iff in Hle.
      destruct (IH b0 s0) as (Hs & Hmax & Hr). cbn zeta in *.
      split; [done|]. split.
      * intros item [->|Hin]%elem_of_cons; [|by apply Hmax].
        change ((n, e).2) with e.
        set (r := (foldl data_prep.best_step (b0, s0) l).2) in *. lra.
      * destruct Hr as [Hr|(name & e' & Hin & Hr & Hlt)]; [by left|].
        right. exists name, e'. split; [by apply list_elem_of_further|done].
    + apply Qle_bool_false in Hle.
      destruct (IH (Some n) (data_prep.entry_modularity e)) as (Hs & Hmax & Hr).
      cbn zeta in *. split; [lra|]. split.
      * intros item [->|Hin]%elem_of_cons; [|by apply Hmax].
        change ((n, e).2) with e. exact Hs.
      * right. destruct Hr as [Hr|(name & e' & Hin & Hr & Hlt)].
        -- exists n, e. split; [apply list_elem_of_here|]. split; [done|lra].
        -- exists name, e'. split; [by apply list_elem_of_further|].
           split; [done|lra].
Qed.

Lemma lookup_result_Some (results : list (string * data_prep.Entry))
    (name : string) (e : data_prep.Entry) :
  NoDup results.*1 → (name, e) ∈ results →
  data_prep.lookup_result results name = Some e.
Proof.
  intros Hnd Hin. unfold data_prep.lookup_result.
  by rewrite (head_filter_key fst results (name, e) Hnd Hin).
Qed.

Lemma lookup_result_None (results : list (string * data_prep.Entry))
    (name : string) :
  data_prep.lookup_result results name = None →
  ∀ e, (name, e) ∉ results.
Proof.
  unfold data_prep.lookup_result. intros Hnone e Hin.
  destruct (filter (λ item, item.1 = name) results) as [|x t] eqn:Hf; [|done].
  assert ((name, e) ∈ filter (λ item : string * data_prep.Entry, item.1 = name)
                        results) as Hin' by by apply list_elem_of_filter.
  rewrite Hf in Hin'. by apply elem_of_nil in Hin'.
Qed.

(** X24: [detect_communities_with_stats] returns the size-filtered partition of
    an algorithm that succeeded with a partition that has a community: the
    one of greatest modularity when some modularity exceeds -1, else the
    greedy one.  It raises exactly when no modularity exceeds -1 and the
    greedy algorithm is not among the results. *)
Theorem detect_communities_with_stats_best (d : data_prep.Detectors)
    (G : Graph) (m : Z) :
  let results := data_prep.collect_results d G in
  match data_prep.detect_communities_with_stats d G m with
  | Some r =>
      ∃ name e, (name, e) ∈ results ∧
        r = filter_communities_by_size (data_prep.entry_result e) m ∧
        communities (data_prep.entry_result e) ≠ [] ∧
        (((-1 < data_prep.entry_modularity e)%Q ∧
          ∀ item, item ∈ results →
            (data_prep.entry_modularity item.2
             <= data_prep.entry_modularity e)%Q) ∨
         (name = "Greedy Modularity"%string ∧
          ∀ item, item ∈ results →
            (data_prep.entry_modularity item.2 <= -1)%Q))
  | None =>
      (∀ item, item ∈ results → (data_prep.entry_modularity item.2 <= -1)%Q) ∧
      ∀ e, ("Greedy Modularity"%string, e) ∉ results
  end.
Proof.
  intros results. unfold data_prep.detect_communities_with_stats.
  fold results.
  destruct (collect_results_shape d G) as [Hnd Hne]. fold results in Hnd, Hne.
  destruct (best_step_acc results None (-1)%Q) as (Hs & Hmax & Hr).
  cbn zeta in Hs, Hmax, Hr.
  destruct Hr as [Hr|(name & e & Hin & Hr & Hlt)]; rewrite Hr in *;
    cbn [fst snd mbind option_bind] in *.
  - destruct (data_prep.lookup_result results "Greedy Modularity")
      as [e|] eqn:Hg.
    + unfold data_prep.lookup_result in Hg.
      destruct (filter _ results) as [|[n0 e0] t] eqn:Hf; [done|].
      simpl in Hg. injection Hg as ->.
      assert ((n0, e) ∈ filter (λ item : string * data_prep.Entry,
                                  item.1 = "Greedy Modularity"%string) results)
        as Hin by (rewrite Hf; apply list_elem_of_here).
      apply list_elem_of_filter in Hin as [Hn Hin]. simpl in Hn. subst n0.
      exists "Greedy Modularity"%string, e. split; [done|]. split; [done|].
      split; [by eapply Hne|]. by right.
    + split; [done|]. by apply lookup_result_None.
  - rewrite (lookup_result_Some results name e Hnd Hin).
    exists name, e. split; [done|]. split; [done|].
    split; [by eapply Hne|]. by left.
Qed.

Lemma detect_communities_with_stats_best_witness :
  ∃ r name e,
    data_prep.detect_communities_with_stats detectors_ABC G_ABC 2 = Some r ∧
    (name, e) ∈ data_prep.collect_results detectors_ABC G_ABC ∧
    r = filter_communities_by_size (data_prep.entry_result e) 2 ∧
    (-1 < data_prep.entry_modularity e)%Q.
Proof.
  pose proof (detect_communities_with_stats_best detectors_ABC G_ABC 2) as H.
  cbn zeta in H.
  destruct (data_prep.detect_communities_with_stats detectors_ABC G_ABC 2)
    as [r|] eqn:Hr; [|vm_compute in Hr; discriminate].
  destruct H as (name & e & Hin & Heq & _ & [[Hlt _]|[_ Hlow]]).
  - exists r, name, e. split; [reflexivity|]. split; [exact Hin|].
    split; [exact Heq|exact Hlt].
  - exfalso.
    assert (("Greedy Modularity"%string,
             {| data_prep.entry_result :=
                  {| communities := [["P_A"; "P_B"]; ["P_C"; "S_S1"]]%string;
                     method_name := "greedy_modularity" |};
                data_prep.entry_modularity := 3 # 10 |})
            ∈ data_prep.collect_results detectors_ABC G_ABC) as Hg
      by (vm_compute; apply list_elem_of_here).
    apply Hlow in Hg. vm_compute in Hg. apply Hg. reflexivity.
Defined.
